(** * m4b2ogg: chapter-to-cue-sheet conversion

    A shallow embedding of [m4b2ogg.py] and the properties of its cue
    timing arithmetic, its tag fallback chains and its cue merge policy.

    Conventions of the embedding:
    - Python [str] is modelled by [string] (8-bit characters); case
      conversion and whitespace are the ASCII ones.
    - A Python exception is a value of [exn]; code that may raise returns
      [result A = exn + A].
    - Python [float] is IEEE-754 binary64, modelled by [spec_float] with
      the operations of [SpecFloat] at precision 53 and [emax] 1024.
    - The file system is a finite map from paths to file contents, with
      the files that are not text in the locale encoding marked as such.
      The media engine and the prober are external: what they answer for
      the input file is collected in a [world] record. *)

From Stdlib Require Import ZArith Lia String Ascii List Bool DecimalString.
From Stdlib Require Import Floats.SpecFloat.
From stdpp Require Import base option list gmap strings.

Local Open Scope Z_scope.

(** ** Exceptions *)

Inductive exn : Set :=
| KeyError | ValueError | TypeError | IndexError | AttributeError
| ZeroDivisionError | OverflowError | FileNotFoundError | EngineError
| UnicodeDecodeError.

Global Instance exn_eq_dec : EqDecision exn.
Proof. solve_decision. Defined.

Definition result (A : Type) : Type := (exn + A)%type.

Definition raise {A} (e : exn) : result A := inl e.

Global Instance result_ret : MRet result := fun _ x => inr x.
Global Instance result_bind : MBind result := fun _ _ f m =>
  match m with inl e => inl e | inr x => f x end.
Global Instance result_fmap : FMap result := fun _ _ f m =>
  match m with inl e => inl e | inr x => inr (f x) end.

(** [try: body except E: handler] *)
Definition try_except {A} (body : result A) (E : exn) (handler : result A)
  : result A :=
  match body with
  | inl e => if decide (e = E) then handler else inl e
  | inr v => inr v
  end.

(** ** Strings *)

Definition ascii_upper (c : ascii) : ascii :=
  let n := nat_of_ascii c in
  if ((97 <=? n) && (n <=? 122))%nat then ascii_of_nat (n - 32) else c.

Definition ascii_lower (c : ascii) : ascii :=
  let n := nat_of_ascii c in
  if ((65 <=? n) && (n <=? 90))%nat then ascii_of_nat (n + 32) else c.

Fixpoint str_map (f : ascii -> ascii) (s : string) : string :=
  match s with
  | EmptyString => EmptyString
  | String c s' => String (f c) (str_map f s')
  end.

(** [str.upper] and [str.lower] *)
Definition upper : string -> string := str_map ascii_upper.
Definition lower : string -> string := str_map ascii_lower.

(** [s.startswith(p)] *)
Definition startswith (p s : string) : bool := String.prefix p s.

(** [s.rfind(c)]: the last position of [c], [None] for Python's -1. *)
Fixpoint rfind_from (c : ascii) (s : string) (i : nat) (last : option nat)
  : option nat :=
  match s with
  | EmptyString => last
  | String a s' =>
      rfind_from c s' (S i) (if Ascii.eqb a c then Some i else last)
  end.

Definition rfind (c : ascii) (s : string) : option nat := rfind_from c s 0 None.

(** [s[i:]] and [s[:i]] *)
Definition str_drop (i : nat) (s : string) : string :=
  String.substring i (String.length s - i) s.
Definition str_take (i : nat) (s : string) : string := String.substring 0 i s.

(** ** [os.path] (POSIX flavour) *)

Definition basename (p : string) : string :=
  match rfind "/" p with
  | Some i => str_drop (S i) p
  | None => p
  end.

Definition all_dots (s : string) : bool :=
  forallb (fun c => Ascii.eqb c ".") (list_ascii_of_string s).

(** [os.path.splitext]: the extension starts at the last dot of the last
    component; leading dots of that component do not start one. *)
Definition splitext (p : string) : string * string :=
  let start := match rfind "/" p with Some i => S i | None => O end in
  match rfind "." p with
  | Some d =>
      if (start <=? d)%nat
      then if all_dots (String.substring start (d - start) p)
           then (p, EmptyString)
           else (str_take d p, str_drop d p)
      else (p, EmptyString)
  | None => (p, EmptyString)
  end.

(** ** Containers *)

(** A [dict] with string keys, in insertion order. *)
Definition dict : Type := list (string * string).

(** [d[k]] *)
Fixpoint dict_getitem (d : dict) (k : string) : result string :=
  match d with
  | [] => raise KeyError
  | (k', v) :: d' => if String.eqb k' k then mret v else dict_getitem d' k
  end.

(** [l.index(x)] *)
Fixpoint list_index (x : string) (l : list string) : result nat :=
  match l with
  | [] => raise ValueError
  | y :: l' => if String.eqb y x then mret O else S <$> list_index x l'
  end.

(** [l[i]] for a non-negative index *)
Definition list_getitem {A} (l : list A) (i : nat) : result A :=
  match l !! i with
  | Some x => mret x
  | None => raise IndexError
  end.

(** ** [book_info] *)

(** [tags[keys[keys_upper.index(NAME)]]] *)
Definition tag_by_upper (tags : dict) (name : string) : result string :=
  let keys := tags.*1 in
  let keys_upper := upper <$> keys in
  i ← list_index name keys_upper;
  k ← list_getitem keys i;
  dict_getitem tags k.

(** [probe_tags] is [ffprobe(file)['format']['tags']], [None] when the
    container carries no tags (the subscript raises [KeyError]). *)
Definition book_info (probe_tags : option dict) (file : string)
  : result (string * string) :=
  tags ← from_option mret (raise KeyError) probe_tags;
  performer ←
    try_except (tag_by_upper tags "ARTIST") ValueError
      (try_except (tag_by_upper tags "PERFORMER") ValueError
         (try_except (dict_getitem tags "performer") ValueError
            (mret EmptyString)));
  title ←
    try_except (tag_by_upper tags "ALBUM") ValueError
      (try_except (tag_by_upper tags "TITLE") ValueError
         (mret (splitext (basename file)).1));
  mret (performer, title).

(** ** Characters used by the cue format *)

Definition LF : ascii := ascii_of_nat 10.
Definition CR : ascii := ascii_of_nat 13.
Definition nl : string := String LF EmptyString.
Definition dq : string := String (ascii_of_nat 34) EmptyString.

(** ** Integers: [int(str)] and the [02d] format *)

(** ASCII characters for which [str.isspace] holds. *)
Definition is_space (c : ascii) : bool :=
  let n := nat_of_ascii c in
  (((9 <=? n) && (n <=? 13)) || ((28 <=? n) && (n <=? 32)))%nat.

Definition is_digit (c : ascii) : bool :=
  let n := nat_of_ascii c in ((48 <=? n) && (n <=? 57))%nat.

Definition digit_value (c : ascii) : Z := Z.of_nat (nat_of_ascii c) - 48.

Fixpoint lstrip (s : string) : string :=
  match s with
  | String c s' => if is_space c then lstrip s' else s
  | EmptyString => EmptyString
  end.

Fixpoint rstrip (s : string) : string :=
  match s with
  | String c s' =>
      match rstrip s' with
      | EmptyString => if is_space c then EmptyString else String c EmptyString
      | r => String c r
      end
  | EmptyString => EmptyString
  end.

(** [s.strip()] *)
Definition strip (s : string) : string := rstrip (lstrip s).

(** Decimal digits, single underscores allowed between two digits. *)
Fixpoint parse_digits (s : string) (acc : Z) (after_digit : bool) : option Z :=
  match s with
  | EmptyString => if after_digit then Some acc else None
  | String c s' =>
      if is_digit c then parse_digits s' (10 * acc + digit_value c) true
      else if Ascii.eqb c "_" && after_digit then parse_digits s' acc false
      else None
  end.

Definition parse_int (s : string) : option Z :=
  match strip s with
  | String "-" s' => Z.opp <$> parse_digits s' 0 false
  | String "+" s' => parse_digits s' 0 false
  | s' => parse_digits s' 0 false
  end.

(** Values the prober's JSON puts in a chapter record. *)
Inductive pyval : Set :=
| VInt (z : Z)
| VStr (s : string).

(** [int(v)] *)
Definition py_int (v : pyval) : result Z :=
  match v with
  | VInt z => mret z
  | VStr s => from_option mret (raise ValueError) (parse_int s)
  end.

(** [str(z)] for an integer *)
Definition str_of_int (z : Z) : string := NilZero.string_of_int (Z.to_int z).

(** ['{:02d}'.format(z)]: at least two characters, zero filled. *)
Definition format_02d (z : Z) : string :=
  if (0 <=? z) && (z <? 10) then String "0" (str_of_int z) else str_of_int z.

(** [s.split(sep)] for a one-character separator *)
Fixpoint str_split (sep : ascii) (s : string) : list string :=
  match s with
  | EmptyString => [EmptyString]
  | String c s' =>
      if Ascii.eqb c sep then EmptyString :: str_split sep s'
      else match str_split sep s' with
           | h :: t => String c h :: t
           | [] => [String c EmptyString]
           end
  end.

(** ** Floats (IEEE-754 binary64) *)

Definition prec : Z := 53.
Definition emax : Z := 1024.
Abbreviation float := spec_float.

Definition is_zero (f : float) : bool :=
  match f with S754_zero _ => true | _ => false end.

Definition sign_bit (f : float) : bool :=
  match f with
  | S754_zero s | S754_infinity s | S754_finite s _ _ => s
  | S754_nan => false
  end.

(** [f < 0.0] *)
Definition is_negative (f : float) : bool := SFltb f (S754_zero false).

Definition no_overflow (f : float) : result float :=
  match f with
  | S754_infinity _ => raise OverflowError
  | _ => mret f
  end.

(** Conversion of a Python [int] operand to [float]: correctly rounded,
    [OverflowError] beyond the largest double. *)
Definition float_of_int (z : Z) : result float :=
  no_overflow (binary_normalize prec emax z 0 false).

(** [a / b] on two Python [int]s: the correctly rounded quotient. *)
Definition int_truediv (a b : Z) : result float :=
  if b =? 0 then raise ZeroDivisionError
  else if a =? 0 then mret (S754_zero (b <? 0))
  else
    let '(mz, ez, lz) := SFdiv_core_binary prec emax (Z.abs a) 0 (Z.abs b) 0 in
    no_overflow (binary_round_aux prec emax (xorb (a <? 0) (b <? 0)) mz ez lz).

(** [x / y] on two floats *)
Definition float_truediv (x y : float) : result float :=
  if is_zero y then raise ZeroDivisionError else mret (SFdiv prec emax x y).

(** C's [fmod]: the exact remainder of the truncating division, with the
    sign of [x]. *)
Definition fmod (x y : float) : float :=
  match x, y with
  | S754_nan, _ | _, S754_nan => S754_nan
  | S754_infinity _, _ => S754_nan
  | _, S754_zero _ => S754_nan
  | _, S754_infinity _ => x
  | S754_zero _, _ => x
  | S754_finite sx mx ex, S754_finite _ my ey =>
      let e := Z.min ex ey in
      let X := Zpos mx * 2 ^ (ex - e) in
      let Y := Zpos my * 2 ^ (ey - e) in
      binary_normalize prec emax (cond_Zopp sx (X mod Y)) e sx
  end.

(** [x % y] on two floats: [fmod], then the sign of the divisor. *)
Definition float_rem (x y : float) : result float :=
  if is_zero y then raise ZeroDivisionError
  else
    let m := fmod x y in
    if is_zero m then mret (S754_zero (sign_bit y))
    else if xorb (is_negative y) (is_negative m)
         then mret (SFadd prec emax m y)
         else mret m.

(** [x * y] on two floats *)
Definition float_mul (x y : float) : float := SFmul prec emax x y.

(** [int(f)]: truncation toward zero *)
Definition int_of_float (f : float) : result Z :=
  match f with
  | S754_zero _ => mret 0
  | S754_finite s m e => mret (cond_Zopp s (Z.shiftl (Zpos m) e))
  | S754_infinity _ => raise OverflowError
  | S754_nan => raise ValueError
  end.

(** ** [datetime.timedelta] *)

(** A duration in microseconds; the constructor and the addition raise
    [OverflowError] outside of +-999999999 days. *)
Definition timedelta : Set := Z.

Definition timedelta_min : Z := - 999999999 * 86400 * 1000000.
Definition timedelta_max : Z := 999999999 * 86400 * 1000000 + 86399999999.

Definition timedelta_of_us (us : Z) : result timedelta :=
  if (timedelta_min <=? us) && (us <=? timedelta_max)
  then mret us else raise OverflowError.

(** [timedelta(seconds=s)] *)
Definition timedelta_seconds (s : Z) : result timedelta :=
  timedelta_of_us (s * 1000000).

Definition timedelta_add (a b : timedelta) : result timedelta :=
  timedelta_of_us (a + b).

Definition total_seconds (t : timedelta) : result float :=
  int_truediv t 1000000.

(** ** [create_cue_sheet] *)

Record cue_track : Set := CueTrack {
  tr_index : Z;
  tr_name : string;
  tr_minutes : Z;
  tr_seconds : Z;
  tr_frames : Z
}.

Definition timestamp_of (tr : cue_track) : Z * Z * Z :=
  (tr_minutes tr, tr_seconds tr, tr_frames tr).

(** [int(accumulated_time.total_seconds() / (timebase*60))] *)
Definition cue_minutes (accumulated_time : timedelta) (timebase : Z)
  : result Z :=
  t ← total_seconds accumulated_time;
  d ← float_of_int (timebase * 60);
  q ← float_truediv t d;
  int_of_float q.

(** [(int(accumulated_time.total_seconds() % (timebase*60))) / timebase] *)
Definition cue_second_fraction (accumulated_time : timedelta) (timebase : Z)
  : result float :=
  t ← total_seconds accumulated_time;
  d ← float_of_int (timebase * 60);
  r ← float_rem t d;
  ri ← int_of_float r;
  int_truediv ri timebase.

Definition cue_seconds (accumulated_time : timedelta) (timebase : Z)
  : result Z :=
  x ← cue_second_fraction accumulated_time timebase;
  int_of_float x.

(** [int(float(float(...) % 1) * 75)] *)
Definition cue_frames (accumulated_time : timedelta) (timebase : Z)
  : result Z :=
  x ← cue_second_fraction accumulated_time timebase;
  one ← float_of_int 1;
  f ← float_rem x one;
  c ← float_of_int 75;
  int_of_float (float_mul f c).

Definition cue_timestamp (accumulated_time : timedelta) (timebase : Z)
  : result (Z * Z * Z) :=
  minutes ← cue_minutes accumulated_time timebase;
  seconds ← cue_seconds accumulated_time timebase;
  frames ← cue_frames accumulated_time timebase;
  mret (minutes, seconds, frames).

(** The text of one entry, without a final line break. *)
Definition cue_sheet_entry (tr : cue_track) : string :=
  "  TRACK " +:+ format_02d (tr_index tr) +:+ " AUDIO" +:+ nl +:+
  "    TITLE " +:+ dq +:+ tr_name tr +:+ dq +:+ nl +:+
  "    INDEX 01 " +:+ format_02d (tr_minutes tr) +:+ ":" +:+
  format_02d (tr_seconds tr) +:+ ":" +:+ format_02d (tr_frames tr).

(** [zip(names, track_times, timebases)] *)
Fixpoint zip3 {A B C} (a : list A) (b : list B) (c : list C)
  : list (A * B * C) :=
  match a, b, c with
  | x :: a', y :: b', z :: c' => (x, y, z) :: zip3 a' b' c'
  | _, _, _ => []
  end.

(** The loop of the generator: the entry of a track is computed from the
    time accumulated so far, then the time of the track is added. *)
Fixpoint cue_loop (track_index : Z) (accumulated_time : timedelta)
    (tracks : list (string * timedelta * Z)) : result (list cue_track) :=
  match tracks with
  | [] => mret []
  | (name, track_time, timebase) :: rest =>
      '(minutes, seconds, frames) ← cue_timestamp accumulated_time timebase;
      let tr := CueTrack track_index name minutes seconds frames in
      accumulated_time ← timedelta_add accumulated_time track_time;
      trs ← cue_loop (track_index + 1) accumulated_time rest;
      mret (tr :: trs)
  end.

Definition cue_tracks (names : list string) (track_times : list timedelta)
    (timebases : list Z) (start_time : timedelta) : result (list cue_track) :=
  cue_loop 0 start_time (zip3 names track_times timebases).

(** The entries the generator yields, in order. *)
Definition create_cue_sheet (names : list string)
    (track_times : list timedelta) (timebases : list Z)
    (start_time : timedelta) : result (list string) :=
  map cue_sheet_entry <$> cue_tracks names track_times timebases start_time.

(** ** State with exceptions

    A computation over a state [S] that may raise; the state reached when
    the exception is raised is kept, as the effects of a Python statement
    are when a later statement raises. *)

Definition ST (S A : Type) : Type := S -> S * result A.

Global Instance ST_ret {S} : MRet (ST S) := fun _ x s => (s, inr x).
Global Instance ST_bind {S} : MBind (ST S) := fun _ _ f m s =>
  match m s with
  | (s', inl e) => (s', inl e)
  | (s', inr x) => f x s'
  end.

Definition lift {S A} (r : result A) : ST S A := fun s => (s, r).
Definition modify {S} (f : S -> S) : ST S unit := fun s => (f s, inr tt).
Definition gets {S A} (f : S -> A) : ST S A := fun s => (s, inr (f s)).

(** [try: body except E: handler], the state changes of [body] kept. *)
Definition try_except_ST {S A} (body : ST S A) (E : exn) (handler : ST S A)
  : ST S A :=
  fun s =>
    match body s with
    | (s', inl e) => if decide (e = E) then handler s' else (s', inl e)
    | (s', inr v) => (s', inr v)
    end.

(** ** Chapters *)

(** A chapter record of the prober.  A field is [None] when the key is
    absent (the subscript raises [KeyError]); [ch_title] stands for
    [aChap['tags']['title']]. *)
Record chapter : Set := Chapter {
  ch_title : option string;
  ch_start : option pyval;
  ch_end : option pyval;
  ch_time_base : option pyval
}.

(** [d[key]] on a record field *)
Definition getitem {A} (field : option A) : result A :=
  from_option mret (raise KeyError) field.

(** [v.split('/')[1]] *)
Definition split_second (v : pyval) : result string :=
  match v with
  | VInt _ => raise AttributeError
  | VStr s => list_getitem (str_split "/" s) 1
  end.

(** The lists filled by the chapter loop, and what was logged. *)
Record track_lists : Type := TrackLists {
  names : list string;
  track_times : list timedelta;
  timebases : list Z;
  logged : list exn
}.

Definition no_tracks : track_lists := TrackLists [] [] [] [].

Definition append_name (x : string) : ST track_lists unit :=
  modify (fun t => TrackLists (names t ++ [x]) (track_times t) (timebases t)
                     (logged t)).
Definition append_track_time (x : timedelta) : ST track_lists unit :=
  modify (fun t => TrackLists (names t) (track_times t ++ [x]) (timebases t)
                     (logged t)).
Definition append_timebase (x : Z) : ST track_lists unit :=
  modify (fun t => TrackLists (names t) (track_times t) (timebases t ++ [x])
                     (logged t)).
Definition log_error (e : exn) : ST track_lists unit :=
  modify (fun t => TrackLists (names t) (track_times t) (timebases t)
                     (logged t ++ [e])).

(** [if timebase > 10000: timebase = 1000] *)
Definition clamp_timebase (timebase : Z) : Z :=
  if 10000 <? timebase then 1000 else timebase.

(** The body of the [try] of the chapter loop. *)
Definition chapter_body (aChap : chapter) : ST track_lists unit :=
  title ← lift (getitem (ch_title aChap));
  append_name title;;
  e ← lift (getitem (ch_end aChap) ≫= py_int);
  s ← lift (getitem (ch_start aChap) ≫= py_int);
  t ← lift (timedelta_seconds (e - s));
  append_track_time t;;
  tb ← lift (getitem (ch_time_base aChap) ≫= split_second);
  timebase ← lift (from_option mret (raise ValueError) (parse_int tb));
  append_timebase (clamp_timebase timebase).

Definition chapter_step (aChap : chapter) : ST track_lists unit :=
  try_except_ST (chapter_body aChap) ValueError (log_error ValueError).

Fixpoint chapter_loop (chapters : list chapter) : ST track_lists unit :=
  match chapters with
  | [] => mret tt
  | aChap :: rest => chapter_step aChap;; chapter_loop rest
  end.

(** ** [extract_description] *)

Definition fields_to_check : list string :=
  ["description"; "comment"; "title_more"; "synopsis"; "summary"].

(** [{k.lower(): v for k, v in metadata.items()}[field]]: of two keys
    with the same lower-case form the later one wins. *)
Fixpoint lower_lookup (metadata : dict) (field : string) : option string :=
  match metadata with
  | [] => None
  | (k, v) :: rest =>
      match lower_lookup rest field with
      | Some v' => Some v'
      | None => if String.eqb (lower k) field then Some v else None
      end
  end.

Fixpoint first_description (metadata : dict) (fields : list string)
  : option string :=
  match fields with
  | [] => None
  | field :: rest =>
      match lower_lookup metadata field with
      | Some v =>
          match strip v with
          | EmptyString => first_description metadata rest
          | d => Some d
          end
      | None => first_description metadata rest
      end
  end.

(** Any exception, a missing ['tags'] included, gives [None]. *)
Definition extract_description (probe_tags : option dict) : option string :=
  match probe_tags with
  | Some metadata => first_description metadata fields_to_check
  | None => None
  end.

(** ** Files and the external engine *)

Inductive event : Set :=
| Transcode (input output : string)
| CoverArt (input output : string)
| LogError (e : exn).

(** The files on disk and the calls made so far.  [undecodable] marks
    the files whose bytes are not text in the locale encoding.  A text
    file is decoded chunk by chunk while it is read, with strict error
    handling: reading a marked file delivers the given number of its
    lines, those before the bytes that do not decode, and then raises
    [UnicodeDecodeError]. *)
Record system : Type := System {
  files : gmap string string;
  trace : list event;
  undecodable : gmap string nat
}.

(** What the prober and the media engine answer for one input file:
    the format tags ([None]: no ['tags'] key), the chapters, the audio
    the transcoder produces ([None]: it fails) and the cover picture
    ([None]: there is none or its extraction fails). *)
Record world : Type := World {
  w_tags : option dict;
  w_chapters : list chapter;
  w_audio : option string;
  w_cover : option string
}.

Definition isfile (path : string) : ST system bool :=
  gets (fun s => bool_decide (is_Some (files s !! path))).

(** [open(path, 'w')] followed by the writes of [content]: the file is
    replaced, and with it what was known of the bytes found there. *)
Definition write_file (path content : string) : ST system unit :=
  modify (fun s => System (<[path := content]> (files s)) (trace s)
                     (delete path (undecodable s))).

Definition emit (ev : event) : ST system unit :=
  modify (fun s => System (files s) (trace s ++ [ev]) (undecodable s)).

(** Text mode reading translates [\r\n] and [\r] to [\n]. *)
Fixpoint universal_newlines (s : string) : string :=
  match s with
  | EmptyString => EmptyString
  | String c s' =>
      if Ascii.eqb c CR then
        match s' with
        | String c' s'' =>
            if Ascii.eqb c' LF then String LF (universal_newlines s'')
            else String LF (universal_newlines s')
        | EmptyString => String LF EmptyString
        end
      else String c (universal_newlines s')
  end.

(** The lines of a text, each with its line break when it has one. *)
Fixpoint readlines (s : string) : list string :=
  match s with
  | EmptyString => []
  | String c s' =>
      if Ascii.eqb c LF then String c EmptyString :: readlines s'
      else match readlines s' with
           | l :: ls => String c l :: ls
           | [] => [String c EmptyString]
           end
  end.

(** [open(path, 'r')] and the iteration over its lines: the lines that
    are delivered, and whether the iteration then ends with
    [UnicodeDecodeError] instead of the end of the file. *)
Definition read_lines (path : string) : ST system (list string * bool) :=
  fun s =>
    match files s !! path with
    | Some content =>
        let lines := readlines (universal_newlines content) in
        match undecodable s !! path with
        | Some n => (s, inr (take n lines, true))
        | None => (s, inr (lines, false))
        end
    | None => (s, inl FileNotFoundError)
    end.

Definition oga_path (m4b_file : string) : string :=
  (splitext m4b_file).1 +:+ ".oga".

Definition m4b2opus (w : world) (m4b_file : string) : ST system string :=
  let oga_file := oga_path m4b_file in
  emit (Transcode m4b_file oga_file);;
  audio ← lift (from_option mret (raise EngineError) (w_audio w));
  write_file oga_file audio;;
  mret oga_file.

Definition extract_cover_art (w : world) (m4b_file : string)
  : ST system (option string) :=
  let cover_art_file := (splitext m4b_file).1 +:+ "_cover.jpg" in
  emit (CoverArt m4b_file cover_art_file);;
  match w_cover w return ST system (option string) with
  | Some picture =>
      write_file cover_art_file picture;;
      present ← isfile cover_art_file;
      mret (if present : bool then Some cover_art_file else None)
  | None => mret None
  end.

(** ** The cue merge policy *)

(** The scan of an existing cue file: [(REPLACE_CUE, CUE_CONTENTS)] when
    the loop ends. *)
Fixpoint scan_cue (FILE_LINE_OGA : string) (lines : list string)
    (REPLACE_CUE : bool) (CUE_CONTENTS : string) : bool * string :=
  match lines with
  | [] => (REPLACE_CUE, CUE_CONTENTS)
  | line :: rest =>
      if String.eqb line FILE_LINE_OGA then (true, CUE_CONTENTS)
      else if startswith "FILE " line
           then scan_cue FILE_LINE_OGA rest false CUE_CONTENTS
           else scan_cue FILE_LINE_OGA rest REPLACE_CUE (CUE_CONTENTS +:+ line)
  end.

(** [for line in CUE_FILE]: the scan of the lines delivered.  When they
    are used up without a [break] and the file does not decode further,
    the exception of the text layer ends the loop; after a [break] the
    file is not read any further. *)
Definition scan_lines (FILE_LINE_OGA : string) (lines : list string)
    (fails : bool) : result (bool * string) :=
  if fails && negb (existsb (fun line => String.eqb line FILE_LINE_OGA) lines)
  then raise UnicodeDecodeError
  else mret (scan_cue FILE_LINE_OGA lines true EmptyString).

(** [''.join(entries)] *)
Definition join (entries : list string) : string :=
  foldr String.append EmptyString entries.

(** The chapter loop run on empty lists, its log moved to the trace. *)
Definition run_chapter_loop (chapters : list chapter)
  : ST system track_lists :=
  fun s =>
    let '(t, r) := chapter_loop chapters no_tracks in
    (System (files s) (trace s ++ (LogError <$> logged t)) (undecodable s),
     (fun _ => t) <$> r).

(** The [if REPLACE_CUE:] block: the cue body computed from the
    chapters of the container. *)
Definition fresh_cue_contents (w : world) : ST system string :=
  t ← run_chapter_loop (w_chapters w);
  entries ← lift (create_cue_sheet (names t) (track_times t) (timebases t) 0);
  mret (join entries).

Definition file_line (oga_file : string) : string :=
  let audio_file_extension := upper (str_drop 1 (splitext oga_file).2) in
  "FILE " +:+ dq +:+ basename oga_file +:+ dq +:+ " " +:+
  audio_file_extension +:+ nl.

Definition canonical_cue_path (oga_file : string) : string :=
  (splitext oga_file).1 +:+ ".cue".

Definition side_cue_path (oga_file : string) : string :=
  (splitext oga_file).1 +:+ "_oga.cue".

(** What is written to the cue file. *)
Definition render_cue (performer title FILE_LINE_OGA CUE_CONTENTS : string)
  : string :=
  ("PERFORMER " +:+ dq +:+ performer +:+ dq +:+ nl) +:+
  ("TITLE " +:+ dq +:+ title +:+ dq +:+ nl) +:+
  FILE_LINE_OGA +:+ CUE_CONTENTS.

(** ** The body of the main loop, for one input file *)

(** The transcoding, skipped when the [.oga] file exists, then the cover
    art and the description; the value is [oga_file]. *)
Definition convert_and_extract (w : world) (file_name : string)
  : ST system string :=
  let oga_file := oga_path file_name in
  present ← isfile oga_file;
  oga_file ← (if present : bool then mret oga_file
              else m4b2opus w file_name);
  _ ← extract_cover_art w file_name;
  match extract_description (w_tags w) return ST system unit with
  | Some description =>
      write_file ((splitext file_name).1 +:+ "_info.txt") description
  | None => mret tt
  end;;
  mret oga_file.

(** From [REPLACE_CUE=True] to the end of the [if REPLACE_CUE:] block:
    the final [CUE_PATH] and [CUE_CONTENTS]. *)
Definition choose_cue (w : world) (oga_file : string)
  : ST system (string * string) :=
  let FILE_LINE_OGA := file_line oga_file in
  cue_present ← isfile (canonical_cue_path oga_file);
  '(REPLACE_CUE, CUE_CONTENTS) ←
    (if cue_present : bool
     then '(lines, fails) ← read_lines (canonical_cue_path oga_file);
          lift (scan_lines FILE_LINE_OGA lines fails)
     else mret (true, EmptyString));
  let CUE_PATH :=
    if REPLACE_CUE : bool then canonical_cue_path oga_file
    else side_cue_path oga_file in
  CUE_CONTENTS ←
    (if REPLACE_CUE then fresh_cue_contents w else mret CUE_CONTENTS);
  mret (CUE_PATH, CUE_CONTENTS).

(** Everything before the final [open(CUE_PATH, 'w')]: the path the cue
    file goes to and the text it receives. *)
Definition prepare_cue (w : world) (file_name : string)
  : ST system (string * string) :=
  '(performer, title) ← lift (book_info (w_tags w) file_name);
  oga_file ← convert_and_extract w file_name;
  '(CUE_PATH, CUE_CONTENTS) ← choose_cue w oga_file;
  mret (CUE_PATH,
        render_cue performer title (file_line oga_file) CUE_CONTENTS).

Definition process_file (w : world) (file_name : string) : ST system unit :=
  '(CUE_PATH, text) ← prepare_cue w file_name;
  write_file CUE_PATH text.

(** [for file in args.audio_file] *)
Fixpoint main (inputs : list (world * string)) : ST system unit :=
  match inputs with
  | [] => mret tt
  | (w, file_name) :: rest => process_file w file_name;; main rest
  end.

(** ** Notions used in the statements *)

(** The tracks computed from the chapters of a container: the chapter
    loop on empty lists, then the timing engine from time zero. *)
Definition chapter_tracks (chapters : list chapter) : result (list cue_track) :=
  let '(t, r) := chapter_loop chapters no_tracks in
  r ≫= fun _ => cue_tracks (names t) (track_times t) (timebases t) 0.

(** The freshly computed cue body. *)
Definition chapters_cue_body (chapters : list chapter) : result string :=
  (fun trs => join (map cue_sheet_entry trs)) <$> chapter_tracks chapters.

(** Lexicographic comparison of two [(minutes, seconds, frames)]. *)
Definition timestamp_le (a b : Z * Z * Z) : Prop :=
  a.1.1 < b.1.1 \/
  (a.1.1 = b.1.1 /\ (a.1.2 < b.1.2 \/ (a.1.2 = b.1.2 /\ a.2 <= b.2))).

Fixpoint nondecreasing (l : list (Z * Z * Z)) : Prop :=
  match l with
  | a :: l' =>
      match l' with
      | b :: _ => timestamp_le a b /\ nondecreasing l'
      | [] => True
      end
  | [] => True
  end.

(** No key of the mapping reads [name] in upper case. *)
Definition no_key_upper (name : string) (tags : dict) : Prop :=
  Forall (fun kv => upper kv.1 <> name) tags.

(** A chapter all of whose fields are present and parse: its title, its
    duration and the denominator of its time base. *)
Definition reports (c : chapter) (d : string * timedelta * Z) : Prop :=
  ch_title c = Some d.1.1 /\
  exists e s den_text,
    (getitem (ch_end c) ≫= py_int) = inr e /\
    (getitem (ch_start c) ≫= py_int) = inr s /\
    timedelta_seconds (e - s) = inr d.1.2 /\
    (getitem (ch_time_base c) ≫= split_second) = inr den_text /\
    parse_int den_text = Some d.2.

(** A chapter as the prober reports it: integer bounds and a time base
    written [1/den]. *)
Definition probed_chapter (title : string) (start_ end_ : Z) (time_base : string)
  : chapter :=
  Chapter (Some title) (Some (VInt start_)) (Some (VInt end_))
    (Some (VStr time_base)).

(** The lines of an existing cue file kept by the scan when no line
    equals the computed [FILE] line. *)
Definition retained_lines (lines : list string) : string :=
  join (List.filter (fun line => negb (startswith "FILE " line)) lines).

(** The merge states of an existing cue file, read as [lines]. *)
Definition matching_file_line (FILE_LINE_OGA : string) (lines : list string)
  : Prop :=
  In FILE_LINE_OGA lines.

Definition mismatching_file_line (FILE_LINE_OGA : string) (lines : list string)
  : Prop :=
  ~ In FILE_LINE_OGA lines /\
  Exists (fun line => startswith "FILE " line = true) lines.

(** No line break character. *)
Definition one_line (s : string) : Prop :=
  Forall (fun c => c <> LF /\ c <> CR) (list_ascii_of_string s).

Definition insert_opt (path : string) (content : option string)
    (fs : gmap string string) : gmap string string :=
  match content with
  | Some c => <[path := c]> fs
  | None => fs
  end.

(** The files and the calls after [convert_and_extract]. *)
Definition assets_files (w : world) (file_name : string)
    (fs : gmap string string) : gmap string string :=
  insert_opt ((splitext file_name).1 +:+ "_info.txt")
    (extract_description (w_tags w))
    (insert_opt ((splitext file_name).1 +:+ "_cover.jpg") (w_cover w)
       (if bool_decide (is_Some (fs !! oga_path file_name)) then fs
        else insert_opt (oga_path file_name) (w_audio w) fs)).

Definition delete_opt (path : string) (content : option string)
    (marks : gmap string nat) : gmap string nat :=
  match content with
  | Some _ => delete path marks
  | None => marks
  end.

Definition assets_undecodable (w : world) (file_name : string) (s : system)
  : gmap string nat :=
  delete_opt ((splitext file_name).1 +:+ "_info.txt")
    (extract_description (w_tags w))
    (delete_opt ((splitext file_name).1 +:+ "_cover.jpg") (w_cover w)
       (if bool_decide (is_Some (files s !! oga_path file_name))
        then undecodable s
        else delete_opt (oga_path file_name) (w_audio w) (undecodable s))).

Definition assets_events (w : world) (file_name : string)
    (fs : gmap string string) : list event :=
  (if bool_decide (is_Some (fs !! oga_path file_name)) then []
   else [Transcode file_name (oga_path file_name)]) ++
  [CoverArt file_name ((splitext file_name).1 +:+ "_cover.jpg")].

(** The number of calls of the transcoder in a trace. *)
Definition transcodes (tr : list event) : nat :=
  length (List.filter (fun ev => match ev with Transcode _ _ => true | _ => false end) tr).

(** The cue decision in the state [REPLACE]. *)
Definition replace_outcome (w : world) (oga : string) (s : system)
  : system * result (string * string) :=
  (System (files s)
     (trace s ++ (LogError <$> logged (chapter_loop (w_chapters w) no_tracks).1))
     (undecodable s),
   (fun body => (canonical_cue_path oga, body)) <$> chapters_cue_body (w_chapters w)).

(** C1 as the specification words it: in the mismatch state the side
    path receives the cue sheet computed from the chapters. *)
Definition preserve_writes_fresh (w : world) (file_name : string) (s : system)
  : Prop :=
  forall content performer title body,
    files s !! canonical_cue_path (oga_path file_name) = Some content ->
    mismatching_file_line (file_line (oga_path file_name))
      (readlines (universal_newlines content)) ->
    book_info (w_tags w) file_name = inr (performer, title) ->
    chapters_cue_body (w_chapters w) = inr body ->
    files (process_file w file_name s).1 !! side_cue_path (oga_path file_name)
    = Some (render_cue performer title (file_line (oga_path file_name)) body).

(** C7 as the specification words it: whatever the cue file found at
    the canonical path holds, a line equal to the computed [FILE] line
    makes the run overwrite the canonical path, and [FILE] lines none
    of which is equal send the output to the side path and leave the
    file found as it was. *)
Definition merge_policy_as_specified (w : world) (file_name : string)
    (s : system) : Prop :=
  forall performer title content,
    book_info (w_tags w) file_name = inr (performer, title) ->
    is_Some (files s !! oga_path file_name) \/ is_Some (w_audio w) ->
    files s !! canonical_cue_path (oga_path file_name) = Some content ->
    (matching_file_line (file_line (oga_path file_name))
       (readlines (universal_newlines content)) ->
     forall body, chapters_cue_body (w_chapters w) = inr body ->
     exists s',
       process_file w file_name s = (s', inr tt) /\
       files s' !! canonical_cue_path (oga_path file_name)
       = Some (render_cue performer title (file_line (oga_path file_name)) body))
    /\
    (mismatching_file_line (file_line (oga_path file_name))
       (readlines (universal_newlines content)) ->
     exists s' text,
       process_file w file_name s = (s', inr tt) /\
       files s' !! side_cue_path (oga_path file_name) = Some text /\
       files s' !! canonical_cue_path (oga_path file_name) = Some content).

(** C10 as the specification words it: whatever else the cue file found
    holds, a line equal to the computed [FILE] line after one that
    differs makes the run overwrite the canonical path. *)
Definition later_match_wins_as_specified (w : world) (file_name : string)
    (s : system) : Prop :=
  forall performer title content body before after,
    book_info (w_tags w) file_name = inr (performer, title) ->
    is_Some (files s !! oga_path file_name) \/ is_Some (w_audio w) ->
    files s !! canonical_cue_path (oga_path file_name) = Some content ->
    readlines (universal_newlines content)
    = before ++ file_line (oga_path file_name) :: after ->
    Exists (fun line => startswith "FILE " line = true /\
                        line <> file_line (oga_path file_name)) before ->
    chapters_cue_body (w_chapters w) = inr body ->
    exists s',
      process_file w file_name s = (s', inr tt) /\
      files s' !! canonical_cue_path (oga_path file_name)
      = Some (render_cue performer title (file_line (oga_path file_name)) body).

(** C8 as the specification words it: a second run, the [.oga] file
    present, calls no transcoder and writes to the canonical path the
    text the first run wrote. *)
Definition second_run_rewrites_canonical (w : world) (file_name : string)
    (s0 : system) : Prop :=
  forall s0' path text s1,
    prepare_cue w file_name s0 = (s0', inr (path, text)) ->
    process_file w file_name s0 = (s1, inr tt) ->
    is_Some (files s1 !! oga_path file_name) ->
    exists s1',
      prepare_cue w file_name s1
      = (s1', inr (canonical_cue_path (oga_path file_name), text)) /\
      transcodes (trace s1') = transcodes (trace s1).

(** The lines of a text, without their line breaks. *)
Fixpoint chomp (line : string) : string :=
  match line with
  | EmptyString => EmptyString
  | String c rest =>
      match rest with
      | EmptyString => if Ascii.eqb c LF then EmptyString else line
      | _ => String c (chomp rest)
      end
  end.

Definition text_lines (text : string) : list string := chomp <$> readlines text.

(** A number written with exactly two decimal digits. *)
Definition decimal_digit (d : Z) : ascii := ascii_of_nat (48 + Z.to_nat d).

Definition two_digits (z : Z) : string :=
  String (decimal_digit (z / 10)) (String (decimal_digit (z mod 10)) EmptyString).

(** The three lines of a track, for a given way of writing numbers. *)
Definition track_lines (number : Z -> string) (tr : cue_track) : list string :=
  ["  TRACK " +:+ number (tr_index tr) +:+ " AUDIO";
   "    TITLE " +:+ dq +:+ tr_name tr +:+ dq;
   "    INDEX 01 " +:+ number (tr_minutes tr) +:+ ":" +:+
   number (tr_seconds tr) +:+ ":" +:+ number (tr_frames tr)].

Definition header_lines (performer title base ext : string) : list string :=
  ["PERFORMER " +:+ dq +:+ performer +:+ dq;
   "TITLE " +:+ dq +:+ title +:+ dq;
   "FILE " +:+ dq +:+ base +:+ dq +:+ " " +:+ ext].

(** C5 as the specification words it: the lines of a cue file are the
    three header lines, then three lines per track with two-digit
    numbers, every one on a line of its own. *)
Definition cue_file_as_specified (text : string) : Prop :=
  exists performer title base ext tracks,
    text_lines text =
      header_lines performer title base ext ++
      concat (track_lines two_digits <$> tracks).

(** Lines put together, a line break after each / between them. *)
Definition lines_ended (lines : list string) : string :=
  join ((fun line => line +:+ nl) <$> lines).

Fixpoint lines_separated (lines : list string) : string :=
  match lines with
  | [] => EmptyString
  | [line] => line
  | line :: rest => line +:+ nl +:+ lines_separated rest
  end.

(** Examples used below. *)
Definition dune_world : world :=
  World (Some [("artist", "Frank Herbert"); ("album", "Dune")]%string)
    [probed_chapter "One" 0 90500 "1/1000";
     probed_chapter "Two" 90500 180000 "1/1000"]
    (Some "OggS"%string) None.

Definition no_files : system := System ∅ [] ∅.

(** A cue file written for the [.m4b] file by another tool. *)
Definition foreign_cue : string :=
  "REM made elsewhere" +:+ nl +:+
  "FILE " +:+ dq +:+ "dune.m4b" +:+ dq +:+ " M4B" +:+ nl +:+
  "  TRACK 01 AUDIO" +:+ nl.

Definition foreign_cue_system : system :=
  System {[ "dune.cue"%string := foreign_cue ]} [] ∅.

(** A cue file with a stale [FILE] line followed by the computed one. *)
Definition mixed_cue : string :=
  "FILE " +:+ dq +:+ "dune.m4b" +:+ dq +:+ " M4B" +:+ nl +:+
  "FILE " +:+ dq +:+ "dune.oga" +:+ dq +:+ " OGA" +:+ nl +:+
  "  TRACK 01 AUDIO" +:+ nl.

Definition mixed_cue_system : system :=
  System {[ "dune.cue"%string := mixed_cue ]} [] ∅.

(** A cue file written in Latin-1 by another tool: the byte of the
    accented letter, on its first line, is not valid UTF-8, so that
    under a UTF-8 locale no line of it is delivered. *)
Definition latin1_cue : string :=
  "REM caf" +:+ String (ascii_of_nat 233) EmptyString +:+ nl +:+ foreign_cue.

Definition latin1_cue_system : system :=
  System {[ "dune.cue"%string := latin1_cue ]} [] {[ "dune.cue"%string := 0%nat ]}.

(** The same first line before a stale [FILE] line and the computed one. *)
Definition latin1_mixed_cue : string :=
  "REM caf" +:+ String (ascii_of_nat 233) EmptyString +:+ nl +:+ mixed_cue.

Definition latin1_mixed_cue_system : system :=
  System {[ "dune.cue"%string := latin1_mixed_cue ]} []
    {[ "dune.cue"%string := 0%nat ]}.

(** An input file whose name holds a line break. *)
Definition two_line_name : string := "part" +:+ nl +:+ "two.m4b".

(** ** Notions used in the float analysis *)

(** A shift record that has lost no bit. *)
Definition exact_record (r : shr_record) : Prop :=
  shr_r r = false /\ shr_s r = false.

(** The double with 53-bit mantissa that holds [v * 2^e], for [v] of
    at most 53 bits. *)
Definition canon (v e : Z) : float :=
  S754_finite false (Z.to_pos (v * 2 ^ (53 - Zdigits2 v))) (e - (53 - Zdigits2 v)).

(** The double that holds the whole number [k]. *)
Definition Zfloat (k : Z) : float := canon k 0.

(** [f] is one of the two doubles next to [a / b]: its value is
    [(q + c) / 2^j] for the 53-bit [q = floor (a * 2^j / b)]. *)
Definition rounds (f : float) (a b : Z) : Prop :=
  exists (m : positive) e j c,
    f = S754_finite false m e /\ 0 <= j /\
    2 ^ 52 <= a * 2 ^ j / b < 2 ^ 53 /\
    2 ^ 52 <= Zpos m < 2 ^ 53 /\
    (c = 0 \/ c = 1) /\
    ((Zpos m = a * 2 ^ j / b + c /\ e = - j) \/
     (a * 2 ^ j / b + c = 2 ^ 53 /\ Zpos m = 2 ^ 52 /\ e = 1 - j)) /\
    ((a * 2 ^ j) mod b = 0 -> c = 0).

(** The value of a rounded quotient in units of [2^-80]. *)
Definition scaled (f : float) : Z :=
  match f with
  | S754_finite false m e => Zpos m * 2 ^ (e + 80)
  | _ => 0
  end.

(** The frame computation of [cue_frames], from the seconds quotient. *)
Definition frames_of (x : float) : result Z :=
  one ← float_of_int 1;
  f ← float_rem x one;
  c ← float_of_int 75;
  int_of_float (float_mul f c).

(** Seconds and frames from the remainder [r] of the accumulated time
    by one minute, at time base [tb]. *)
Definition sec_frames (tb r : Z) : result (Z * Z) :=
  x ← int_truediv r tb;
  seconds ← int_of_float x;
  frames ← frames_of x;
  mret (seconds, frames).

(** The total of a list of durations. *)
Definition total_duration (times : list timedelta) : Z := foldr Z.add 0 times.

(** C2 as the specification words it: whenever the chapters parse with
    non-negative durations and positive clamped time bases, the
    timestamps of the tracks never go back. *)
Definition timestamps_nondecreasing (cs : list chapter) : Prop :=
  forall ds trs,
    Forall2 reports cs ds ->
    Forall (fun d => 0 <= d.1.2 /\ 0 < clamp_timebase d.2) ds ->
    chapter_tracks cs = inr trs ->
    nondecreasing (timestamp_of <$> trs).

(** Three chapters, the last in a finer time base. *)
Definition mixed_timebase_chapters : list chapter :=
  [probed_chapter "One" 0 100 "1/1";
   probed_chapter "Two" 100 200 "1/1";
   probed_chapter "Three" 200000 260000 "1/1000"]%string.

(** ** Notions used in the further properties *)

(** The value of the first key that reads [name] in upper case. *)
Fixpoint first_tag (name : string) (tags : dict) : option string :=
  match tags with
  | [] => None
  | (k, v) :: rest =>
      if String.eqb (upper k) name then Some v else first_tag name rest
  end.

(** The title [book_info] falls back to: the last component of the path
    without its extension. *)
Definition stem (file : string) : string := (splitext (basename file)).1.

(** * Properties *)

(** ** The exception monads *)

Lemma try_except_inr {A} (v : A) E h : try_except (inr v) E h = inr v.
Proof. reflexivity. Qed.

Lemma try_except_caught {A} E (h : result A) : try_except (inl E) E h = h.
Proof. unfold try_except. destruct (decide (E = E)); congruence. Qed.

Lemma try_except_other {A} e E (h : result A) :
  e <> E -> try_except (inl e) E h = inl e.
Proof. intros H. unfold try_except. destruct (decide (e = E)); congruence. Qed.

(** ** [book_info] *)

Lemma list_index_absent name (l : list string) :
  Forall (fun k => k <> name) l -> list_index name l = inl ValueError.
Proof.
  induction 1 as [|k l Hk _ IH]; simpl; [reflexivity|].
  destruct (String.eqb_spec k name) as [->|_]; [congruence|].
  now rewrite IH.
Qed.

Lemma tag_by_upper_absent name tags :
  no_key_upper name tags -> tag_by_upper tags name = inl ValueError.
Proof.
  intros H. unfold tag_by_upper.
  rewrite list_index_absent; [reflexivity|].
  unfold no_key_upper in H. induction H; simpl; constructor; auto.
Qed.

Lemma upper_performer : upper "performer" = "PERFORMER"%string.
Proof. reflexivity. Qed.

Lemma dict_getitem_performer_absent tags :
  no_key_upper "PERFORMER" tags -> dict_getitem tags "performer" = inl KeyError.
Proof.
  induction 1 as [|[k v] tags Hk _ IH]; simpl; [reflexivity|].
  destruct (String.eqb_spec k "performer") as [->|_]; [|exact IH].
  now destruct Hk.
Qed.

(** C4: a tag mapping with no artist-like key makes [book_info] raise:
    the third step of the performer chain subscripts the mapping with
    ['performer'], a [KeyError] that the [except ValueError] around it
    does not catch, so the empty-string fallback is never reached. *)
Theorem book_info_raises_without_artist (tags : dict) (file : string) :
  no_key_upper "ARTIST" tags ->
  no_key_upper "PERFORMER" tags ->
  book_info (Some tags) file = inl KeyError.
Proof.
  intros Ha Hp. unfold book_info. simpl.
  rewrite (tag_by_upper_absent _ _ Ha), try_except_caught.
  rewrite (tag_by_upper_absent _ _ Hp), try_except_caught.
  rewrite (dict_getitem_performer_absent _ Hp).
  rewrite try_except_other by discriminate. reflexivity.
Qed.

Lemma book_info_raises_without_artist_witness :
  book_info (Some [("title", "Dune")]%string) "dune.m4b" = inl KeyError.
Proof.
  apply book_info_raises_without_artist;
    repeat constructor; simpl; discriminate.
Defined.

(** ** The chapter loop *)

(** C3: the chapter loop on a chapter whose [start] does not parse, then
    a well-formed one.  The title of the first was appended before its
    [int()] raised, so the lists are out of step: the only track carries
    the title of the skipped chapter with the duration of the other, and
    the title of the well-formed chapter is lost.  A chapter with no
    [start] at all raises [KeyError], which ends the run. *)
Theorem skipped_chapter_shifts_titles :
  chapter_tracks
    [Chapter (Some "Intro") (Some (VStr "n/a")) (Some (VInt 5000))
       (Some (VStr "1/1000"));
     probed_chapter "One" 5000 65000 "1/1000"]%string
  = inr [CueTrack 0 "Intro" 0 0 0]
  /\ chapter_tracks
       [Chapter (Some "Intro") None (Some (VInt 5000)) (Some (VStr "1/1000"));
        probed_chapter "One" 5000 65000 "1/1000"]%string
     = inl KeyError.
Proof. split; vm_compute; reflexivity. Qed.

(** C6: with time base 1000 and a first chapter from 0 to 90500, the
    second track starts at minutes 1, seconds 30, frames 37. *)
Theorem second_track_timestamp (first second : string) :
  chapter_tracks
    [probed_chapter first 0 90500 "1/1000";
     probed_chapter second 90500 180000 "1/1000"]
  = inr [CueTrack 0 first 0 0 0; CueTrack 1 second 1 30 37].
Proof. vm_compute. reflexivity. Qed.

(** The state monad, unfolded. *)
Lemma ST_bind_inr {S A B} (f : A -> ST S B) (m : ST S A) s s' x :
  m s = (s', inr x) -> (m ≫= f) s = f x s'.
Proof. intros H. unfold mbind, ST_bind. now rewrite H. Qed.

Lemma ST_bind_inl {S A B} (f : A -> ST S B) (m : ST S A) s s' e :
  m s = (s', inl e) -> (m ≫= f) s = (s', inl e).
Proof. intros H. unfold mbind, ST_bind. now rewrite H. Qed.

Lemma chapter_body_reports c d t :
  reports c d ->
  chapter_body c t =
    (TrackLists (names t ++ [d.1.1]) (track_times t ++ [d.1.2])
       (timebases t ++ [clamp_timebase d.2]) (logged t), inr tt).
Proof.
  intros (Ht & e & s & den_text & He & Hs & Hd & Hb & Hp).
  unfold chapter_body.
  unfold mbind at 1, ST_bind, lift. rewrite Ht. simpl.
  unfold mbind at 1, ST_bind, lift. cbn [append_name modify names track_times timebases logged].
  unfold mbind at 1, ST_bind, lift. rewrite He.
  unfold mbind at 1, ST_bind, lift. rewrite Hs.
  unfold mbind at 1, ST_bind, lift. rewrite Hd.
  unfold mbind at 1, ST_bind, lift. cbn [append_track_time modify names track_times timebases logged].
  unfold mbind at 1, ST_bind, lift. rewrite Hb.
  unfold mbind at 1, ST_bind, lift. rewrite Hp. simpl.
  reflexivity.
Qed.

Lemma chapter_loop_reports cs ds : forall t,
  Forall2 reports cs ds ->
  chapter_loop cs t =
    (TrackLists (names t ++ ds.*1.*1) (track_times t ++ ds.*1.*2)
       (timebases t ++ (clamp_timebase <$> ds.*2)) (logged t), inr tt).
Proof.
  intros t H. revert t.
  induction H as [|c d cs ds Hc _ IH]; intros t; simpl.
  - rewrite !app_nil_r. now destruct t.
  - unfold mbind, ST_bind, chapter_step, try_except_ST.
    rewrite (chapter_body_reports _ _ _ Hc).
    rewrite IH. simpl. rewrite <- !app_assoc. reflexivity.
Qed.

Lemma zip3_fmap {A B C} (l : list (A * B * C)) (f : C -> C) :
  zip3 l.*1.*1 l.*1.*2 (f <$> l.*2) = (fun x => (x.1.1, x.1.2, f x.2)) <$> l.
Proof.
  induction l as [|[[a b] c] l IH]; [reflexivity|].
  cbn [fmap list_fmap zip3 fst snd]. f_equal. exact IH.
Qed.

(** C9: a chapter whose time base does not parse has its title and its
    duration appended before [int()] raises, and no time base: the time
    bases of the chapters after it move up by one place.  Here the
    second chapter, which reports the denominator 500, is stamped with
    the 1000 of the third, at 00:30:00 where its own time base gives
    01:00:00, and the first one is stamped with the 500 of the second;
    the third chapter gets no track. *)
Theorem unparsed_time_base_shifts_the_others :
  chapter_tracks
    [probed_chapter "One" 0 30000 "1/abc";
     probed_chapter "Two" 30000 60000 "1/500";
     probed_chapter "Three" 60000 90000 "1/1000"]%string
  = cue_loop 0 0 [("One", 30000000000, 500); ("Two", 30000000000, 1000)]%string
  /\ chapter_tracks
       [probed_chapter "One" 0 30000 "1/abc";
        probed_chapter "Two" 30000 60000 "1/500";
        probed_chapter "Three" 60000 90000 "1/1000"]%string
     = inr [CueTrack 0 "One" 0 0 0; CueTrack 1 "Two" 0 30 0]
  /\ cue_timestamp 30000000000 (clamp_timebase 500) = inr (1, 0, 0).
Proof. repeat split; vm_compute; reflexivity. Qed.

(** ** Paths *)

Lemma append_nil_l (s : string) : EmptyString +:+ s = s.
Proof. reflexivity. Qed.

Lemma append_cons (x : ascii) (a s : string) :
  String x a +:+ s = String x (a +:+ s).
Proof. reflexivity. Qed.

Lemma append_assoc (a b c : string) : (a +:+ b) +:+ c = a +:+ (b +:+ c).
Proof.
  induction a as [|x a IH]; [reflexivity|].
  rewrite !append_cons. now f_equal.
Qed.

Lemma append_nil_r (a : string) : a +:+ EmptyString = a.
Proof.
  induction a as [|x a IH]; [reflexivity|].
  rewrite append_cons. now f_equal.
Qed.

Lemma append_inv_head (a b c : string) : a +:+ b = a +:+ c -> b = c.
Proof.
  induction a as [|x a IH]; [auto|].
  rewrite !append_cons. intros H. injection H. auto.
Qed.

Lemma append_last_ne (c1 c2 : ascii) : c1 <> c2 -> forall a b,
  a +:+ String c1 EmptyString <> b +:+ String c2 EmptyString.
Proof.
  intros Hc. induction a as [|x a IH]; intros [|y b];
    rewrite ?append_nil_l, ?append_cons; intros H.
  - congruence.
  - injection H as _ H. destruct b; discriminate.
  - injection H as _ H. destruct a; discriminate.
  - injection H as _ H. exact (IH _ H).
Qed.

Lemma suffix_last_ne (c1 c2 : ascii) (s t : string) : c1 <> c2 -> forall a b,
  a +:+ (s +:+ String c1 EmptyString) <> b +:+ (t +:+ String c2 EmptyString).
Proof. intros Hc a b. rewrite <- !append_assoc. now apply append_last_ne. Qed.

Lemma canonical_ne_side oga : canonical_cue_path oga <> side_cue_path oga.
Proof. intros H. apply append_inv_head in H. discriminate. Qed.

Lemma oga_ne_canonical f oga : oga_path f <> canonical_cue_path oga.
Proof. apply (suffix_last_ne "a" "e" ".og" ".cu"). discriminate. Qed.

Lemma oga_ne_side f oga : oga_path f <> side_cue_path oga.
Proof. apply (suffix_last_ne "a" "e" ".og" "_oga.cu"). discriminate. Qed.

Lemma cover_ne_canonical x oga : x +:+ "_cover.jpg" <> canonical_cue_path oga.
Proof. apply (suffix_last_ne "g" "e" "_cover.jp" ".cu"). discriminate. Qed.

Lemma cover_ne_side x oga : x +:+ "_cover.jpg" <> side_cue_path oga.
Proof. apply (suffix_last_ne "g" "e" "_cover.jp" "_oga.cu"). discriminate. Qed.

Lemma info_ne_canonical x oga : x +:+ "_info.txt" <> canonical_cue_path oga.
Proof. apply (suffix_last_ne "t" "e" "_info.tx" ".cu"). discriminate. Qed.

Lemma info_ne_side x oga : x +:+ "_info.txt" <> side_cue_path oga.
Proof. apply (suffix_last_ne "t" "e" "_info.tx" "_oga.cu"). discriminate. Qed.

Lemma cover_ne_oga x f : x +:+ "_cover.jpg" <> oga_path f.
Proof. apply (suffix_last_ne "g" "a" "_cover.jp" ".og"). discriminate. Qed.

Lemma info_ne_oga x f : x +:+ "_info.txt" <> oga_path f.
Proof. apply (suffix_last_ne "t" "a" "_info.tx" ".og"). discriminate. Qed.

Lemma info_ne_cover x y : x +:+ "_info.txt" <> y +:+ "_cover.jpg".
Proof. apply (suffix_last_ne "t" "g" "_info.tx" "_cover.jp"). discriminate. Qed.

(** ** The files written before the cue file *)

Lemma lookup_insert_opt_ne path content (fs : gmap string string) q :
  path <> q -> insert_opt path content fs !! q = fs !! q.
Proof. intros H. destruct content; simpl; [now rewrite lookup_insert_ne|reflexivity]. Qed.

Lemma assets_files_canonical w f fs oga :
  assets_files w f fs !! canonical_cue_path oga = fs !! canonical_cue_path oga.
Proof.
  unfold assets_files.
  rewrite lookup_insert_opt_ne by apply info_ne_canonical.
  rewrite lookup_insert_opt_ne by apply cover_ne_canonical.
  case_bool_decide; [reflexivity|].
  now rewrite lookup_insert_opt_ne by apply oga_ne_canonical.
Qed.

Lemma assets_files_side w f fs oga :
  assets_files w f fs !! side_cue_path oga = fs !! side_cue_path oga.
Proof.
  unfold assets_files.
  rewrite lookup_insert_opt_ne by apply info_ne_side.
  rewrite lookup_insert_opt_ne by apply cover_ne_side.
  case_bool_decide; [reflexivity|].
  now rewrite lookup_insert_opt_ne by apply oga_ne_side.
Qed.

Lemma assets_files_oga w f fs :
  is_Some (fs !! oga_path f) \/ is_Some (w_audio w) ->
  is_Some (assets_files w f fs !! oga_path f).
Proof.
  intros H. unfold assets_files.
  rewrite lookup_insert_opt_ne by apply info_ne_oga.
  rewrite lookup_insert_opt_ne by apply cover_ne_oga.
  case_bool_decide as Hp; [exact Hp|].
  destruct H as [H|[a Ha]]; [contradiction|].
  rewrite Ha. simpl. rewrite lookup_insert_eq. eauto.
Qed.

Lemma lookup_delete_opt_ne path content (marks : gmap string nat) q :
  path <> q -> delete_opt path content marks !! q = marks !! q.
Proof. intros H. destruct content; simpl; [now rewrite lookup_delete_ne|reflexivity]. Qed.

Lemma assets_undecodable_canonical w f s oga :
  assets_undecodable w f s !! canonical_cue_path oga
  = undecodable s !! canonical_cue_path oga.
Proof.
  unfold assets_undecodable.
  rewrite lookup_delete_opt_ne by apply info_ne_canonical.
  rewrite lookup_delete_opt_ne by apply cover_ne_canonical.
  case_bool_decide; [reflexivity|].
  now rewrite lookup_delete_opt_ne by apply oga_ne_canonical.
Qed.

Lemma convert_and_extract_run w f s :
  is_Some (files s !! oga_path f) \/ is_Some (w_audio w) ->
  convert_and_extract w f s =
    (System (assets_files w f (files s)) (trace s ++ assets_events w f (files s))
       (assets_undecodable w f s),
     inr (oga_path f)).
Proof.
  intros H.
  unfold convert_and_extract, assets_files, assets_events, assets_undecodable.
  unfold mbind at 1, ST_bind, isfile, gets.
  case_bool_decide as Hp.
  - unfold mbind at 1, ST_bind, mret, ST_ret.
    unfold mbind at 1, ST_bind, extract_cover_art, emit, modify, write_file,
      isfile, gets.
    destruct (w_cover w) as [picture|]; simpl;
      destruct (extract_description (w_tags w)); simpl; reflexivity.
  - destruct H as [H|[a Ha]]; [contradiction|].
    unfold mbind at 1, ST_bind, m4b2opus, emit, modify, write_file, lift.
    rewrite Ha. simpl.
    unfold mbind at 1, ST_bind, extract_cover_art, emit, modify, write_file,
      isfile, gets.
    destruct (w_cover w) as [picture|]; simpl;
      destruct (extract_description (w_tags w)); simpl;
      rewrite <- app_assoc; reflexivity.
Qed.

(** ** The scan of an existing cue file *)

Lemma scan_cue_match FILE_LINE lines : forall replace contents,
  In FILE_LINE lines -> (scan_cue FILE_LINE lines replace contents).1 = true.
Proof.
  induction lines as [|line rest IH]; intros replace contents Hin; [destruct Hin|].
  simpl. destruct (String.eqb_spec line FILE_LINE) as [->|Hne]; [reflexivity|].
  destruct Hin as [->|Hin]; [congruence|].
  destruct (startswith "FILE " line); now apply IH.
Qed.

Lemma scan_cue_no_match FILE_LINE lines : forall replace contents,
  ~ In FILE_LINE lines ->
  scan_cue FILE_LINE lines replace contents =
    (replace && forallb (fun line => negb (startswith "FILE " line)) lines,
     contents +:+ retained_lines lines).
Proof.
  unfold retained_lines.
  induction lines as [|line rest IH]; intros replace contents Hin.
  - simpl. now rewrite andb_true_r, append_nil_r.
  - simpl. destruct (String.eqb_spec line FILE_LINE) as [->|Hne].
    + destruct Hin. now left.
    + assert (Hrest : ~ In FILE_LINE rest) by (intros H; apply Hin; now right).
      destruct (startswith "FILE " line); simpl.
      * rewrite IH by exact Hrest. simpl. now rewrite andb_false_r.
      * rewrite IH by exact Hrest. now rewrite append_assoc.
Qed.

Lemma scan_cue_mismatch FILE_LINE lines :
  mismatching_file_line FILE_LINE lines ->
  scan_cue FILE_LINE lines true EmptyString = (false, retained_lines lines).
Proof.
  intros [Hno Hex]. rewrite scan_cue_no_match by exact Hno. f_equal.
  simpl. apply not_true_is_false. intros Hall.
  rewrite forallb_forall in Hall. apply List.Exists_exists in Hex as (line & Hin & Hp).
  specialize (Hall line Hin). rewrite Hp in Hall. discriminate.
Qed.

(** ** The cue decision *)

Lemma fresh_cue_contents_run w s :
  fresh_cue_contents w s =
    (System (files s)
       (trace s ++ (LogError <$> logged (chapter_loop (w_chapters w) no_tracks).1))
       (undecodable s),
     chapters_cue_body (w_chapters w)).
Proof.
  unfold fresh_cue_contents, chapters_cue_body, chapter_tracks, run_chapter_loop,
    create_cue_sheet.
  unfold mbind at 1, ST_bind.
  destruct (chapter_loop (w_chapters w) no_tracks) as [t [e|[]]]; simpl; [reflexivity|].
  unfold mbind, ST_bind, lift.
  destruct (cue_tracks (names t) (track_times t) (timebases t) 0); reflexivity.
Qed.

Lemma choose_cue_absent w oga s :
  files s !! canonical_cue_path oga = None ->
  choose_cue w oga s = replace_outcome w oga s.
Proof.
  intros H. unfold choose_cue, replace_outcome.
  unfold mbind at 1, ST_bind, isfile, gets. rewrite H.
  rewrite bool_decide_eq_false_2 by (intros [? ?]; discriminate).
  unfold mbind at 1, ST_bind, mret, ST_ret.
  unfold mbind at 1, ST_bind. rewrite fresh_cue_contents_run.
  destruct (chapters_cue_body (w_chapters w)); reflexivity.
Qed.

(** The cue decision on the lines a cue file delivers. *)
Lemma choose_cue_read w oga s content :
  files s !! canonical_cue_path oga = Some content ->
  choose_cue w oga s =
    let lines := readlines (universal_newlines content) in
    match
      match undecodable s !! canonical_cue_path oga with
      | Some n => scan_lines (file_line oga) (take n lines) true
      | None => scan_lines (file_line oga) lines false
      end
    with
    | inl e => (s, inl e)
    | inr (true, _) => replace_outcome w oga s
    | inr (false, contents) => (s, inr (side_cue_path oga, contents))
    end.
Proof.
  intros H. unfold choose_cue, replace_outcome.
  unfold mbind at 1, ST_bind, isfile, gets. rewrite H.
  rewrite bool_decide_eq_true_2 by eauto.
  unfold mbind at 1, ST_bind.
  unfold mbind at 1, ST_bind, read_lines. rewrite H. cbv zeta.
  destruct (undecodable s !! canonical_cue_path oga) as [n|];
    unfold mbind at 1, ST_bind, lift.
  - destruct (scan_lines _ _ _) as [e|[[|] contents]]; [reflexivity| |reflexivity].
    rewrite fresh_cue_contents_run.
    destruct (chapters_cue_body (w_chapters w)); reflexivity.
  - destruct (scan_lines _ _ _) as [e|[[|] contents]]; [reflexivity| |reflexivity].
    rewrite fresh_cue_contents_run.
    destruct (chapters_cue_body (w_chapters w)); reflexivity.
Qed.

Lemma choose_cue_present w oga s content :
  files s !! canonical_cue_path oga = Some content ->
  undecodable s !! canonical_cue_path oga = None ->
  choose_cue w oga s =
    let '(replace, contents) :=
      scan_cue (file_line oga) (readlines (universal_newlines content)) true
        EmptyString in
    if replace then replace_outcome w oga s
    else (s, inr (side_cue_path oga, contents)).
Proof.
  intros H Hd. rewrite (choose_cue_read _ _ _ _ H), Hd. cbv zeta.
  unfold scan_lines. cbn [andb]. cbv beta iota.
  change (mret ?x) with (inr (A:=exn) x).
  destruct (scan_cue _ _ _ _) as [[|] contents]; reflexivity.
Qed.

(** ** One run *)

Lemma prepare_cue_run w f s p t :
  book_info (w_tags w) f = inr (p, t) ->
  is_Some (files s !! oga_path f) \/ is_Some (w_audio w) ->
  prepare_cue w f s =
    let out :=
      choose_cue w (oga_path f)
        (System (assets_files w f (files s))
           (trace s ++ assets_events w f (files s))
           (assets_undecodable w f s)) in
    (out.1,
     (fun pc => (pc.1, render_cue p t (file_line (oga_path f)) pc.2)) <$> out.2).
Proof.
  intros Hb Ho. unfold prepare_cue.
  unfold mbind at 1, ST_bind, lift. rewrite Hb.
  unfold mbind at 1, ST_bind. rewrite (convert_and_extract_run _ _ _ Ho).
  unfold mbind at 1, ST_bind.
  destruct (choose_cue _ _ _) as [s2 [e|[path contents]]]; reflexivity.
Qed.

Lemma process_file_run w f s :
  process_file w f s =
    match prepare_cue w f s with
    | (s', inr (path, text)) =>
        (System (<[path := text]> (files s')) (trace s')
           (delete path (undecodable s')), inr tt)
    | (s', inl e) => (s', inl e)
    end.
Proof.
  unfold process_file. unfold mbind at 1, ST_bind.
  destruct (prepare_cue w f s) as [s' [e|[path text]]]; reflexivity.
Qed.

(** A run that finds a cue file with the computed [FILE] line. *)
Lemma run_replace w f s p t content body :
  book_info (w_tags w) f = inr (p, t) ->
  is_Some (files s !! oga_path f) \/ is_Some (w_audio w) ->
  files s !! canonical_cue_path (oga_path f) = Some content ->
  undecodable s !! canonical_cue_path (oga_path f) = None ->
  matching_file_line (file_line (oga_path f))
    (readlines (universal_newlines content)) ->
  chapters_cue_body (w_chapters w) = inr body ->
  exists tr,
    prepare_cue w f s =
      (System (assets_files w f (files s)) tr (assets_undecodable w f s),
       inr (canonical_cue_path (oga_path f),
            render_cue p t (file_line (oga_path f)) body)).
Proof.
  intros Hb Ho Hc Hd Hm Hbody.
  rewrite (prepare_cue_run _ _ _ _ _ Hb Ho).
  rewrite (choose_cue_present _ _ _ content)
    by (simpl; now rewrite ?assets_files_canonical, ?assets_undecodable_canonical).
  pose proof (scan_cue_match _ _ true EmptyString Hm) as Hs.
  destruct (scan_cue _ _ _ _) as [replace contents]. simpl in Hs. subst replace.
  unfold replace_outcome. rewrite Hbody. simpl. eauto.
Qed.

(** A run that finds a cue file with other [FILE] lines only. *)
Lemma run_preserve w f s p t content :
  book_info (w_tags w) f = inr (p, t) ->
  is_Some (files s !! oga_path f) \/ is_Some (w_audio w) ->
  files s !! canonical_cue_path (oga_path f) = Some content ->
  undecodable s !! canonical_cue_path (oga_path f) = None ->
  mismatching_file_line (file_line (oga_path f))
    (readlines (universal_newlines content)) ->
  prepare_cue w f s =
    (System (assets_files w f (files s)) (trace s ++ assets_events w f (files s))
       (assets_undecodable w f s),
     inr (side_cue_path (oga_path f),
          render_cue p t (file_line (oga_path f))
            (retained_lines (readlines (universal_newlines content))))).
Proof.
  intros Hb Ho Hc Hd Hm.
  rewrite (prepare_cue_run _ _ _ _ _ Hb Ho).
  rewrite (choose_cue_present _ _ _ content)
    by (simpl; now rewrite ?assets_files_canonical, ?assets_undecodable_canonical).
  rewrite (scan_cue_mismatch _ _ Hm). reflexivity.
Qed.

(** C7, as amended: with a cue file at the canonical path that is text
    in the locale encoding, a line equal to the computed [FILE] line
    makes the run overwrite the canonical path with the cue sheet
    computed from the chapters; [FILE] lines none of which is equal send
    the output to the [_oga.cue] side path and leave the file at the
    canonical path as it was. *)
Theorem merge_policy (w : world) (f : string) (s : system)
    (p t content : string) :
  book_info (w_tags w) f = inr (p, t) ->
  is_Some (files s !! oga_path f) \/ is_Some (w_audio w) ->
  files s !! canonical_cue_path (oga_path f) = Some content ->
  undecodable s !! canonical_cue_path (oga_path f) = None ->
  (matching_file_line (file_line (oga_path f))
     (readlines (universal_newlines content)) ->
   forall body, chapters_cue_body (w_chapters w) = inr body ->
   exists s',
     process_file w f s = (s', inr tt) /\
     files s' !! canonical_cue_path (oga_path f)
     = Some (render_cue p t (file_line (oga_path f)) body))
  /\
  (mismatching_file_line (file_line (oga_path f))
     (readlines (universal_newlines content)) ->
   exists s' s'' text,
     prepare_cue w f s = (s'', inr (side_cue_path (oga_path f), text)) /\
     process_file w f s = (s', inr tt) /\
     files s' !! side_cue_path (oga_path f) = Some text /\
     files s' !! canonical_cue_path (oga_path f) = Some content).
Proof.
  intros Hb Ho Hc Hd. split.
  - intros Hm body Hbody.
    destruct (run_replace _ _ _ _ _ _ _ Hb Ho Hc Hd Hm Hbody) as [tr Hrun].
    rewrite process_file_run, Hrun. eexists. split; [reflexivity|].
    simpl. apply lookup_insert_eq.
  - intros Hm. pose proof (run_preserve _ _ _ _ _ _ Hb Ho Hc Hd Hm) as Hrun.
    rewrite process_file_run, Hrun. eexists _, _, _.
    split; [reflexivity|]. split; [reflexivity|]. simpl. split.
    + apply lookup_insert_eq.
    + rewrite lookup_insert_ne by (apply not_eq_sym, canonical_ne_side).
      now rewrite assets_files_canonical.
Qed.

Lemma mismatching_by_scan FILE_LINE lines :
  (scan_cue FILE_LINE lines true EmptyString).1 = false ->
  mismatching_file_line FILE_LINE lines.
Proof.
  intros Hs.
  assert (Hno : ~ In FILE_LINE lines).
  { intros Hin. rewrite (scan_cue_match _ _ _ _ Hin) in Hs. discriminate. }
  split; [exact Hno|].
  rewrite (scan_cue_no_match _ _ _ _ Hno) in Hs. simpl in Hs.
  clear Hno. induction lines as [|line rest IH]; simpl in Hs; [discriminate|].
  destruct (startswith "FILE " line) eqn:Hp.
  - now left.
  - right. apply IH. exact Hs.
Qed.

Lemma merge_policy_witness :
  exists s' text,
    process_file dune_world "dune.m4b" foreign_cue_system = (s', inr tt) /\
    files s' !! "dune_oga.cue"%string = Some text /\
    files s' !! "dune.cue"%string = Some foreign_cue.
Proof.
  destruct (merge_policy dune_world "dune.m4b" foreign_cue_system
              "Frank Herbert" "Dune" foreign_cue) as [_ H].
  - vm_compute. reflexivity.
  - right. vm_compute. eauto.
  - vm_compute. reflexivity.
  - reflexivity.
  - destruct H as (s' & s'' & text & _ & Hrun & Hside & Hcanon).
    + apply mismatching_by_scan. vm_compute. reflexivity.
    + exists s', text. split; [exact Hrun|]. split; [exact Hside|exact Hcanon].
Defined.

(** C7 as worded fails: a cue file that is not text in the locale
    encoding ends the run with [UnicodeDecodeError] when it is read,
    whatever [FILE] lines its bytes hold; no cue file is written. *)
Lemma merge_policy_as_specified_fails :
  ~ merge_policy_as_specified dune_world "dune.m4b" latin1_cue_system.
Proof.
  intros H.
  destruct (H "Frank Herbert"%string "Dune"%string latin1_cue) as [_ Hm].
  - vm_compute. reflexivity.
  - right. vm_compute. eauto.
  - vm_compute. reflexivity.
  - destruct Hm as (s' & text & Hrun & _).
    + apply mismatching_by_scan. vm_compute. reflexivity.
    + apply (f_equal snd) in Hrun. vm_compute in Hrun. discriminate Hrun.
Qed.

(** C10, as amended: in a cue file that is text in the locale encoding,
    when a line equal to the computed [FILE] line follows a [FILE] line
    that differs, the scan ends at the equal line in the state
    [REPLACE]: the canonical path receives the cue sheet computed from
    the chapters and the side path is not written. *)
Theorem later_match_wins (w : world) (f : string) (s : system)
    (p t content body : string) (before after : list string) :
  book_info (w_tags w) f = inr (p, t) ->
  is_Some (files s !! oga_path f) \/ is_Some (w_audio w) ->
  files s !! canonical_cue_path (oga_path f) = Some content ->
  undecodable s !! canonical_cue_path (oga_path f) = None ->
  readlines (universal_newlines content)
  = before ++ file_line (oga_path f) :: after ->
  Exists (fun line => startswith "FILE " line = true /\
                      line <> file_line (oga_path f)) before ->
  chapters_cue_body (w_chapters w) = inr body ->
  exists s',
    process_file w f s = (s', inr tt) /\
    files s' !! canonical_cue_path (oga_path f)
    = Some (render_cue p t (file_line (oga_path f)) body) /\
    files s' !! side_cue_path (oga_path f)
    = files s !! side_cue_path (oga_path f).
Proof.
  intros Hb Ho Hc Hd Hlines _ Hbody.
  assert (Hm : matching_file_line (file_line (oga_path f))
                 (readlines (universal_newlines content))).
  { unfold matching_file_line. rewrite Hlines. apply in_or_app. right. now left. }
  destruct (run_replace _ _ _ _ _ _ _ Hb Ho Hc Hd Hm Hbody) as [tr Hrun].
  rewrite process_file_run, Hrun. eexists. split; [reflexivity|]. simpl. split.
  - apply lookup_insert_eq.
  - rewrite lookup_insert_ne by apply canonical_ne_side.
    apply assets_files_side.
Qed.

Lemma later_match_wins_witness :
  exists s',
    process_file dune_world "dune.m4b" mixed_cue_system = (s', inr tt) /\
    files s' !! "dune.cue"%string
    = Some (render_cue "Frank Herbert" "Dune" (file_line "dune.oga")
              ("  TRACK 00 AUDIO" +:+ nl +:+ "    TITLE " +:+ dq +:+ "One" +:+
               dq +:+ nl +:+ "    INDEX 01 00:00:00" +:+
               "  TRACK 01 AUDIO" +:+ nl +:+ "    TITLE " +:+ dq +:+ "Two" +:+
               dq +:+ nl +:+ "    INDEX 01 01:30:37")) /\
    files s' !! "dune_oga.cue"%string = None.
Proof.
  apply (later_match_wins dune_world "dune.m4b" mixed_cue_system
           "Frank Herbert" "Dune" mixed_cue _
           ["FILE " +:+ dq +:+ "dune.m4b" +:+ dq +:+ " M4B" +:+ nl]
           ["  TRACK 01 AUDIO" +:+ nl]).
  - vm_compute. reflexivity.
  - right. vm_compute. eauto.
  - vm_compute. reflexivity.
  - reflexivity.
  - vm_compute. reflexivity.
  - left. split; [vm_compute; reflexivity | vm_compute; discriminate].
  - vm_compute. reflexivity.
Defined.

(** C10 as worded fails: when a byte before the two [FILE] lines does
    not decode, the run ends with [UnicodeDecodeError] before any line
    is compared. *)
Lemma later_match_wins_as_specified_fails :
  ~ later_match_wins_as_specified dune_world "dune.m4b" latin1_mixed_cue_system.
Proof.
  intros H.
  destruct (H "Frank Herbert"%string "Dune"%string latin1_mixed_cue
              ("  TRACK 00 AUDIO" +:+ nl +:+ "    TITLE " +:+ dq +:+ "One" +:+
               dq +:+ nl +:+ "    INDEX 01 00:00:00" +:+
               "  TRACK 01 AUDIO" +:+ nl +:+ "    TITLE " +:+ dq +:+ "Two" +:+
               dq +:+ nl +:+ "    INDEX 01 01:30:37")
              ["REM caf" +:+ String (ascii_of_nat 233) EmptyString +:+ nl;
               "FILE " +:+ dq +:+ "dune.m4b" +:+ dq +:+ " M4B" +:+ nl]
              ["  TRACK 01 AUDIO" +:+ nl])
    as (s' & Hrun & _).
  - vm_compute. reflexivity.
  - right. vm_compute. eauto.
  - vm_compute. reflexivity.
  - vm_compute. reflexivity.
  - right. left. split; [vm_compute; reflexivity | vm_compute; discriminate].
  - vm_compute. reflexivity.
  - apply (f_equal snd) in Hrun. vm_compute in Hrun. discriminate Hrun.
Qed.

(** C1, as amended: in the mismatch state, the existing cue file being
    text in the locale encoding, the side path receives the three header
    lines followed by the lines of the existing cue file that do not
    start with [FILE ], whatever the chapters are; the chapters are not
    read. *)
Theorem preserve_keeps_existing_lines (w : world) (f : string) (s : system)
    (p t content : string) :
  book_info (w_tags w) f = inr (p, t) ->
  is_Some (files s !! oga_path f) \/ is_Some (w_audio w) ->
  files s !! canonical_cue_path (oga_path f) = Some content ->
  undecodable s !! canonical_cue_path (oga_path f) = None ->
  mismatching_file_line (file_line (oga_path f))
    (readlines (universal_newlines content)) ->
  exists s',
    process_file w f s = (s', inr tt) /\
    files s' !! side_cue_path (oga_path f)
    = Some (render_cue p t (file_line (oga_path f))
              (retained_lines (readlines (universal_newlines content)))) /\
    trace s' = trace s ++ assets_events w f (files s).
Proof.
  intros Hb Ho Hc Hd Hm.
  pose proof (run_preserve _ _ _ _ _ _ Hb Ho Hc Hd Hm) as Hrun.
  rewrite process_file_run, Hrun. eexists. split; [reflexivity|]. simpl.
  split; [apply lookup_insert_eq|reflexivity].
Qed.

Lemma preserve_keeps_existing_lines_witness :
  exists s',
    process_file dune_world "dune.m4b" foreign_cue_system = (s', inr tt) /\
    files s' !! "dune_oga.cue"%string
    = Some (render_cue "Frank Herbert" "Dune" (file_line "dune.oga")
              ("REM made elsewhere" +:+ nl +:+ "  TRACK 01 AUDIO" +:+ nl)) /\
    trace s' = [Transcode "dune.m4b" "dune.oga";
                CoverArt "dune.m4b" "dune_cover.jpg"]%string.
Proof.
  apply (preserve_keeps_existing_lines dune_world "dune.m4b" foreign_cue_system
           "Frank Herbert" "Dune" foreign_cue).
  - vm_compute. reflexivity.
  - right. vm_compute. eauto.
  - vm_compute. reflexivity.
  - reflexivity.
  - apply mismatching_by_scan. vm_compute. reflexivity.
Defined.

(** C1 as worded fails: with a foreign cue file in place the side file
    does not hold the cue sheet computed from the chapters. *)
Lemma preserve_writes_fresh_fails :
  ~ preserve_writes_fresh dune_world "dune.m4b" foreign_cue_system.
Proof.
  intros H.
  specialize (H foreign_cue "Frank Herbert"%string "Dune"%string
                ("  TRACK 00 AUDIO" +:+ nl +:+ "    TITLE " +:+ dq +:+ "One" +:+
                 dq +:+ nl +:+ "    INDEX 01 00:00:00" +:+
                 "  TRACK 01 AUDIO" +:+ nl +:+ "    TITLE " +:+ dq +:+ "Two" +:+
                 dq +:+ nl +:+ "    INDEX 01 01:30:37")).
  assert (H1 : files foreign_cue_system !! canonical_cue_path (oga_path "dune.m4b")
               = Some foreign_cue) by (vm_compute; reflexivity).
  assert (H2 : mismatching_file_line (file_line (oga_path "dune.m4b"))
                 (readlines (universal_newlines foreign_cue)))
    by (apply mismatching_by_scan; vm_compute; reflexivity).
  assert (H3 : book_info (w_tags dune_world) "dune.m4b"
               = inr ("Frank Herbert", "Dune")%string) by (vm_compute; reflexivity).
  specialize (H H1 H2 H3). clear H1 H2 H3.
  assert (H4 : chapters_cue_body (w_chapters dune_world) =
    inr ("  TRACK 00 AUDIO" +:+ nl +:+ "    TITLE " +:+ dq +:+ "One" +:+
                 dq +:+ nl +:+ "    INDEX 01 00:00:00" +:+
                 "  TRACK 01 AUDIO" +:+ nl +:+ "    TITLE " +:+ dq +:+ "Two" +:+
                 dq +:+ nl +:+ "    INDEX 01 01:30:37")) by (vm_compute; reflexivity).
  specialize (H H4). clear H4.
  vm_compute in H. discriminate H.
Qed.

(** ** Line breaks *)

Lemma chars_append (a b : string) :
  list_ascii_of_string (a +:+ b)
  = (list_ascii_of_string a ++ list_ascii_of_string b)%list.
Proof.
  induction a as [|x a IH]; [reflexivity|].
  rewrite append_cons. simpl. now f_equal.
Qed.

Lemma one_line_append (a b : string) :
  one_line a -> one_line b -> one_line (a +:+ b).
Proof. unfold one_line. rewrite chars_append. apply Forall_app_2. Qed.

Lemma substring_all (s : string) : String.substring 0 (String.length s) s = s.
Proof. induction s as [|c s IH]; simpl; [reflexivity|]. now f_equal. Qed.

Lemma chars_str_drop (i : nat) : forall s,
  list_ascii_of_string (str_drop i s) = drop i (list_ascii_of_string s).
Proof.
  unfold str_drop. induction i as [|i IH]; intros s.
  - rewrite Nat.sub_0_r, substring_all. reflexivity.
  - destruct s as [|c s]; [reflexivity|]. simpl. apply IH.
Qed.

Lemma one_line_str_drop i s : one_line s -> one_line (str_drop i s).
Proof.
  unfold one_line. rewrite chars_str_drop. intros H.
  rewrite <- (take_drop i (list_ascii_of_string s)) in H.
  now apply Forall_app in H.
Qed.

Lemma ascii_upper_line_break c :
  ascii_upper c = LF \/ ascii_upper c = CR -> c = LF \/ c = CR.
Proof.
  destruct c as [[] [] [] [] [] [] [] []]; vm_compute; intros [H|H];
    first [discriminate H | now left | now right].
Qed.

Lemma one_line_upper s : one_line s -> one_line (upper s).
Proof.
  unfold one_line, upper. induction s as [|c s IH]; simpl; intros H; [constructor|].
  apply Forall_cons in H as [[H1 H2] H]. constructor; [|auto].
  split; intros E.
  - destruct (ascii_upper_line_break c); auto.
  - destruct (ascii_upper_line_break c); auto.
Qed.

Lemma one_line_extension p : one_line (basename p) -> one_line (splitext p).2.
Proof.
  unfold basename, splitext. intros H.
  destruct (rfind "." p) as [d|]; [|constructor].
  destruct (_ <=? d)%nat eqn:Hd; [|constructor].
  destruct (all_dots _); [constructor|]. simpl.
  apply Nat.leb_le in Hd.
  destruct (rfind "/" p) as [i|].
  - unfold one_line in *. rewrite chars_str_drop in *.
    replace d with (S i + (d - S i))%nat by lia. rewrite <- drop_drop.
    rewrite <- (take_drop (d - S i) (drop (S i) _)) in H.
    now apply Forall_app in H.
  - now apply one_line_str_drop.
Qed.

Lemma file_line_one_line oga :
  one_line (basename oga) ->
  exists line, file_line oga = line +:+ String LF EmptyString /\ one_line line.
Proof.
  intros H. unfold file_line.
  exists ("FILE " +:+ dq +:+ basename oga +:+ dq +:+ " " +:+
          upper (str_drop 1 (splitext oga).2)).
  split.
  - unfold nl. now rewrite !append_assoc.
  - repeat apply one_line_append; try exact H;
      try (repeat constructor; discriminate).
    apply one_line_upper, one_line_str_drop, one_line_extension, H.
Qed.

Lemma universal_newlines_one_line line rest :
  one_line line ->
  universal_newlines (line +:+ String LF rest)
  = line +:+ String LF (universal_newlines rest).
Proof.
  unfold one_line. induction line as [|c line IH]; intros H.
  - reflexivity.
  - simpl in H. apply Forall_cons in H as [[_ Hc] H].
    rewrite !append_cons. simpl.
    destruct (Ascii.eqb_spec c CR) as [->|_]; [congruence|].
    now rewrite IH.
Qed.

Lemma universal_newlines_before_LF (a b : string) :
  exists a', universal_newlines (a +:+ String LF b)
             = a' +:+ String LF (universal_newlines b).
Proof.
  remember (String.length a) as n eqn:Hn. revert a Hn.
  induction n as [n IH] using lt_wf_ind. intros a Hn.
  destruct a as [|c a].
  - exists EmptyString. reflexivity.
  - rewrite append_cons. simpl in Hn.
    destruct (Ascii.eqb_spec c CR) as [->|Hc].
    + destruct a as [|c' a].
      * exists EmptyString. reflexivity.
      * destruct (Ascii.eqb_spec c' LF) as [->|Hc'].
        -- destruct (IH (String.length a)) with (a := a) as [a' Ha'];
             [simpl in Hn; lia|reflexivity|].
           exists (String LF a'). rewrite append_cons. simpl. now rewrite Ha'.
        -- destruct (IH (String.length (String c' a))) with (a := String c' a)
             as [a' Ha']; [lia|reflexivity|].
           exists (String LF a').
           change (universal_newlines (String CR (String c' a +:+ String LF b)))
             with (if Ascii.eqb c' LF
                   then String LF (universal_newlines (a +:+ String LF b))
                   else String LF (universal_newlines (String c' a +:+ String LF b))).
           destruct (Ascii.eqb_spec c' LF); [congruence|].
           now rewrite Ha'.
    + destruct (IH (String.length a)) with (a := a) as [a' Ha']; [lia|reflexivity|].
      exists (String c a'). simpl.
      destruct (Ascii.eqb_spec c CR); [congruence|]. now rewrite Ha'.
Qed.

Lemma readlines_nonempty c s : readlines (String c s) <> [].
Proof.
  simpl. destruct (Ascii.eqb c LF); [discriminate|].
  destruct (readlines s); discriminate.
Qed.

Lemma readlines_after_LF (a b : string) :
  readlines (a +:+ String LF b)
  = (readlines (a +:+ String LF EmptyString) ++ readlines b)%list.
Proof.
  induction a as [|c a IH].
  - reflexivity.
  - rewrite !append_cons. simpl. destruct (Ascii.eqb c LF).
    + now rewrite IH.
    + rewrite IH.
      destruct (readlines (a +:+ String LF EmptyString)) as [|l ls] eqn:E;
        [|reflexivity].
      destruct a; rewrite ?append_nil_l, ?append_cons in E;
        now apply readlines_nonempty in E.
Qed.

Lemma readlines_one_line line :
  one_line line ->
  readlines (line +:+ String LF EmptyString) = [line +:+ String LF EmptyString].
Proof.
  unfold one_line. induction line as [|c line IH]; intros H; [reflexivity|].
  simpl in H. apply Forall_cons in H as [[Hc _] H].
  rewrite append_cons. simpl.
  destruct (Ascii.eqb_spec c LF); [congruence|]. now rewrite IH.
Qed.

(** A rendered cue file, read back, has the computed [FILE] line among
    its lines when that line holds no inner line break. *)
Lemma rendered_has_file_line p t oga body :
  one_line (basename oga) ->
  matching_file_line (file_line oga)
    (readlines (universal_newlines (render_cue p t (file_line oga) body))).
Proof.
  intros H. destruct (file_line_one_line oga H) as (line & -> & Hline).
  unfold render_cue, matching_file_line, nl.
  set (before := "PERFORMER " +:+ dq +:+ p +:+ dq +:+ String LF EmptyString +:+
                 "TITLE " +:+ dq +:+ t +:+ dq).
  replace (_ +:+ _ +:+ _ +:+ body)
    with (before +:+ String LF (line +:+ String LF body))
    by (subst before; rewrite !append_assoc; reflexivity).
  destruct (universal_newlines_before_LF before (line +:+ String LF body))
    as [a' ->].
  rewrite (universal_newlines_one_line _ _ Hline).
  rewrite readlines_after_LF. apply in_or_app. right.
  rewrite readlines_after_LF. apply in_or_app. left.
  rewrite (readlines_one_line _ Hline). now left.
Qed.

(** ** Two runs *)

Lemma prepare_cue_inr_inv w f s s' x :
  prepare_cue w f s = (s', inr x) ->
  exists p t,
    book_info (w_tags w) f = inr (p, t) /\
    (is_Some (files s !! oga_path f) \/ is_Some (w_audio w)).
Proof.
  unfold prepare_cue. unfold mbind at 1, ST_bind, lift.
  destruct (book_info (w_tags w) f) as [e|[p t]]; [discriminate|].
  intros H. exists p, t. split; [reflexivity|].
  destruct (decide (is_Some (files s !! oga_path f))) as [Hp|Hp]; [now left|].
  destruct (w_audio w) as [a|] eqn:Ha; [right; eauto|].
  exfalso. revert H.
  unfold mbind at 1, ST_bind, convert_and_extract.
  unfold mbind at 1, ST_bind, isfile, gets.
  rewrite bool_decide_eq_false_2 by exact Hp.
  unfold mbind at 1, ST_bind, m4b2opus, emit, modify, lift.
  rewrite Ha. simpl. discriminate.
Qed.

Lemma insert_opt_id path content (fs : gmap string string) :
  (forall v, content = Some v -> fs !! path = Some v) ->
  insert_opt path content fs = fs.
Proof.
  destruct content as [v|]; simpl; [|reflexivity].
  intros H. apply insert_id. now apply H.
Qed.

Lemma lookup_insert_opt_eq path v (fs : gmap string string) :
  insert_opt path (Some v) fs !! path = Some v.
Proof. simpl. apply lookup_insert_eq. Qed.

(** The side assets written again over the result of a run change no
    file. *)
Lemma assets_files_again w f fs path text :
  is_Some (fs !! oga_path f) \/ is_Some (w_audio w) ->
  path <> oga_path f ->
  path <> (splitext f).1 +:+ "_cover.jpg" ->
  path <> (splitext f).1 +:+ "_info.txt" ->
  assets_files w f (<[path := text]> (assets_files w f fs))
  = <[path := text]> (assets_files w f fs).
Proof.
  intros Ho H1 H2 H3.
  set (fs1 := <[path := text]> (assets_files w f fs)).
  assert (Hoga : is_Some (fs1 !! oga_path f)).
  { unfold fs1. rewrite lookup_insert_ne by exact H1.
    now apply assets_files_oga. }
  unfold assets_files at 1. rewrite bool_decide_eq_true_2 by exact Hoga.
  rewrite (insert_opt_id (_ +:+ "_cover.jpg")).
  - apply insert_opt_id. intros v Hv. unfold fs1.
    rewrite lookup_insert_ne by exact H3.
    unfold assets_files. rewrite Hv. apply lookup_insert_opt_eq.
  - intros v Hv. unfold fs1. rewrite lookup_insert_ne by exact H2.
    unfold assets_files.
    rewrite lookup_insert_opt_ne by apply info_ne_cover.
    rewrite Hv. apply lookup_insert_opt_eq.
Qed.

Lemma transcodes_app a b : transcodes (a ++ b) = (transcodes a + transcodes b)%nat.
Proof. unfold transcodes. now rewrite List.filter_app, length_app. Qed.

Lemma transcodes_log (l : list exn) : transcodes (LogError <$> l) = O.
Proof. induction l; simpl; auto. Qed.

Lemma transcodes_assets_present w f fs :
  is_Some (fs !! oga_path f) -> transcodes (assets_events w f fs) = O.
Proof.
  intros H. unfold assets_events. now rewrite bool_decide_eq_true_2 by exact H.
Qed.

Lemma scan_lines_inr FILE_LINE lines fails r :
  scan_lines FILE_LINE lines fails = inr r ->
  r = scan_cue FILE_LINE lines true EmptyString /\
  (fails = true -> In FILE_LINE lines).
Proof.
  unfold scan_lines.
  destruct fails; cbn [andb].
  - destruct (existsb _ lines) eqn:He; cbn [negb]; [|discriminate].
    intros [= <-]. split; [reflexivity|]. intros _.
    apply existsb_exists in He as (line & Hin & Heq).
    apply String.eqb_eq in Heq. now subst line.
  - intros [= <-]. split; [reflexivity|discriminate].
Qed.

(** The two ways a run that reaches the final write can have gone. *)
Lemma prepare_cue_cases w f s s' path text :
  prepare_cue w f s = (s', inr (path, text)) ->
  exists p t,
    book_info (w_tags w) f = inr (p, t) /\
    (is_Some (files s !! oga_path f) \/ is_Some (w_audio w)) /\
    files s' = assets_files w f (files s) /\
    undecodable s' = assets_undecodable w f s /\
    ((path = canonical_cue_path (oga_path f) /\
      exists body,
        chapters_cue_body (w_chapters w) = inr body /\
        text = render_cue p t (file_line (oga_path f)) body) \/
     (path = side_cue_path (oga_path f) /\
      exists content contents,
        files s !! canonical_cue_path (oga_path f) = Some content /\
        undecodable s !! canonical_cue_path (oga_path f) = None /\
        scan_cue (file_line (oga_path f))
          (readlines (universal_newlines content)) true EmptyString
        = (false, contents) /\
        text = render_cue p t (file_line (oga_path f)) contents)).
Proof.
  intros Hrun.
  destruct (prepare_cue_inr_inv _ _ _ _ _ Hrun) as (p & t & Hb & Ho).
  exists p, t. split; [exact Hb|]. split; [exact Ho|].
  rewrite (prepare_cue_run _ _ _ _ _ Hb Ho) in Hrun.
  assert (Hreplace :
    forall s0 : system,
      ((replace_outcome w (oga_path f) s0).1,
       (fun pc : string * string =>
          (pc.1, render_cue p t (file_line (oga_path f)) pc.2))
       <$> (replace_outcome w (oga_path f) s0).2) = (s', inr (path, text)) ->
      files s' = files s0 /\ undecodable s' = undecodable s0 /\
      path = canonical_cue_path (oga_path f) /\
      exists body,
        chapters_cue_body (w_chapters w) = inr body /\
        text = render_cue p t (file_line (oga_path f)) body).
  { intros s0 H. unfold replace_outcome in H.
    destruct (chapters_cue_body (w_chapters w)) as [e|body];
      simpl in H; [discriminate|].
    injection H as <- <- <-. repeat split. eauto. }
  destruct (files s !! canonical_cue_path (oga_path f)) as [content|] eqn:Hc.
  - rewrite (choose_cue_read _ _ _ content) in Hrun
      by (simpl; now rewrite assets_files_canonical).
    cbv zeta in Hrun. cbn [undecodable] in Hrun.
    rewrite assets_undecodable_canonical in Hrun.
    destruct (undecodable s !! canonical_cue_path (oga_path f)) as [n|] eqn:Hd.
    + destruct (scan_lines _ _ _) as [e|[replace contents]] eqn:Hscan;
        [discriminate|].
      apply scan_lines_inr in Hscan as [Hr Hin]. specialize (Hin eq_refl).
      pose proof (scan_cue_match _ _ true EmptyString Hin) as Hm.
      rewrite <- Hr in Hm. simpl in Hm. subst replace.
      destruct (Hreplace _ Hrun) as (H1 & H2 & H3 & H4).
      split; [exact H1|]. split; [exact H2|]. left. split; assumption.
    + destruct (scan_lines _ _ _) as [e|[[|] contents]] eqn:Hscan;
        [discriminate| |].
      * destruct (Hreplace _ Hrun) as (H1 & H2 & H3 & H4).
        split; [exact H1|]. split; [exact H2|]. left. split; assumption.
      * apply scan_lines_inr in Hscan as [Hr _].
        simpl in Hrun. injection Hrun as <- <- <-.
        split; [reflexivity|]. split; [reflexivity|].
        right. split; [reflexivity|]. exists content, contents.
        split; [reflexivity|]. split; [reflexivity|]. split; [now symmetry|reflexivity].
  - rewrite choose_cue_absent in Hrun
      by (simpl; now rewrite assets_files_canonical).
    destruct (Hreplace _ Hrun) as (H1 & H2 & H3 & H4).
    split; [exact H1|]. split; [exact H2|]. left. split; assumption.
Qed.

(** C8, as amended: when the base name of the [.oga] path holds no line
    break, a second run on the state a first run left calls no
    transcoder, sends the cue file to the path the first run wrote (the
    canonical path when the first run wrote there) with the same text,
    and leaves every file as it was. *)
Theorem second_run_same_output (w : world) (f : string) (s0 s0' : system)
    (path text : string) :
  prepare_cue w f s0 = (s0', inr (path, text)) ->
  one_line (basename (oga_path f)) ->
  let s1 := System (<[path := text]> (files s0')) (trace s0')
              (delete path (undecodable s0')) in
  process_file w f s0 = (s1, inr tt) /\
  is_Some (files s1 !! oga_path f) /\
  exists s1' s2,
    prepare_cue w f s1 = (s1', inr (path, text)) /\
    process_file w f s1 = (s2, inr tt) /\
    files s2 = files s1 /\
    transcodes (trace s2) = transcodes (trace s1).
Proof.
  intros Hrun Hname s1.
  assert (Hrun1 : process_file w f s0 = (s1, inr tt))
    by (rewrite process_file_run, Hrun; reflexivity).
  split; [exact Hrun1|].
  destruct (prepare_cue_cases _ _ _ _ _ _ Hrun)
    as (p & t & Hb & Ho & Hfiles & Hmarks & Hcase).
  set (fs1 := assets_files w f (files s0)) in *.
  assert (Hpath : path <> oga_path f /\
                  path <> (splitext f).1 +:+ "_cover.jpg" /\
                  path <> (splitext f).1 +:+ "_info.txt").
  { destruct Hcase as [(-> & _)|(-> & _)]; repeat split; apply not_eq_sym;
      auto using oga_ne_canonical, oga_ne_side, cover_ne_canonical,
        cover_ne_side, info_ne_canonical, info_ne_side. }
  destruct Hpath as (Hp1 & Hp2 & Hp3).
  assert (Hoga1 : is_Some (files s1 !! oga_path f)).
  { subst s1. simpl. rewrite Hfiles, lookup_insert_ne by exact Hp1.
    now apply assets_files_oga. }
  split; [exact Hoga1|].
  assert (Hagain : assets_files w f (files s1) = files s1).
  { subst s1. simpl. rewrite Hfiles. now apply assets_files_again. }
  (* the second run *)
  assert (Hrun2 : exists tr2 marks2,
    prepare_cue w f s1 = (System (files s1) tr2 marks2, inr (path, text)) /\
    transcodes tr2 = transcodes (trace s1)).
  { rewrite (prepare_cue_run _ _ _ _ _ Hb (or_introl Hoga1)). rewrite Hagain.
    destruct Hcase as [(-> & body & Hbody & ->)
                      |(-> & content & contents & Hc & Hd & Hscan & ->)].
    - rewrite (choose_cue_present _ _ _
                 (render_cue p t (file_line (oga_path f)) body)).
      + pose proof (scan_cue_match _ _ true EmptyString
                      (rendered_has_file_line p t _ body Hname)) as Hs.
        destruct (scan_cue _ _ _ _) as [replace contents]. simpl in Hs.
        subst replace.
        unfold replace_outcome. rewrite Hbody. simpl.
        eexists _, _. split; [reflexivity|].
        rewrite !transcodes_app, transcodes_log, transcodes_assets_present
          by exact Hoga1. lia.
      + subst s1. simpl. apply lookup_insert_eq.
      + cbn [undecodable]. rewrite assets_undecodable_canonical.
        subst s1. simpl. apply lookup_delete_eq.
    - rewrite (choose_cue_present _ _ _ content).
      + rewrite Hscan. simpl. eexists _, _. split; [reflexivity|].
        rewrite transcodes_app, transcodes_assets_present by exact Hoga1. lia.
      + subst s1. simpl. rewrite Hfiles.
        rewrite lookup_insert_ne by (apply not_eq_sym, canonical_ne_side).
        unfold fs1. now rewrite assets_files_canonical.
      + cbn [undecodable]. rewrite assets_undecodable_canonical.
        subst s1. simpl.
        rewrite lookup_delete_ne by (apply not_eq_sym, canonical_ne_side).
        now rewrite Hmarks, assets_undecodable_canonical. }
  destruct Hrun2 as (tr2 & marks2 & Hrun2 & Htr).
  eexists _, _. split; [exact Hrun2|].
  rewrite process_file_run, Hrun2. split; [reflexivity|]. simpl.
  split; [|exact Htr].
  apply insert_id. subst s1. simpl. apply lookup_insert_eq.
Qed.

Lemma second_run_same_output_witness :
  exists s1 s2,
    process_file dune_world "dune.m4b" no_files = (s1, inr tt) /\
    process_file dune_world "dune.m4b" s1 = (s2, inr tt) /\
    files s2 = files s1 /\
    transcodes (trace s2) = transcodes (trace s1).
Proof.
  edestruct (second_run_same_output dune_world "dune.m4b" no_files)
    as (H1 & _ & s1' & s2 & _ & H2 & H3 & H4).
  - vm_compute. reflexivity.
  - vm_compute. repeat constructor; discriminate.
  - eexists _, s2. split; [exact H1|]. split; [exact H2|]. split; [exact H3|exact H4].
Defined.

(** C8 as worded fails: for an input whose name holds a line break the
    second run does not write the canonical path. *)
Lemma second_run_rewrites_canonical_fails :
  ~ second_run_rewrites_canonical dune_world two_line_name no_files.
Proof.
  intros H. edestruct H as (s1' & Hrun & _).
  - vm_compute. reflexivity.
  - vm_compute. reflexivity.
  - vm_compute. eauto.
  - vm_compute in Hrun. discriminate Hrun.
Qed.

(** ** The text of the cue file *)

Lemma render_cue_header p t oga body :
  render_cue p t (file_line oga) body
  = lines_ended
      (header_lines p t (basename oga) (upper (str_drop 1 (splitext oga).2)))
    +:+ body.
Proof.
  unfold render_cue, lines_ended, header_lines, file_line, join. simpl.
  now rewrite !append_assoc, append_nil_l.
Qed.

Lemma cue_sheet_entry_lines tr :
  cue_sheet_entry tr = lines_separated (track_lines format_02d tr).
Proof.
  unfold cue_sheet_entry, track_lines, lines_separated.
  now rewrite !append_assoc.
Qed.

Lemma join_app a b : join (a ++ b) = join a +:+ join b.
Proof.
  unfold join. induction a as [|x a IH]; simpl; [reflexivity|].
  now rewrite IH, append_assoc.
Qed.

Lemma join_lookup {A} (entry : A -> string) (l : list A) i x :
  l !! i = Some x ->
  exists before after, join (map entry l) = before +:+ entry x +:+ after.
Proof.
  intros H. rewrite <- (take_drop_middle l i x H).
  rewrite map_app, join_app. simpl. eauto.
Qed.

Lemma cue_loop_index tracks : forall k acc trs i tr,
  cue_loop k acc tracks = inr trs ->
  trs !! i = Some tr -> tr_index tr = k + Z.of_nat i.
Proof.
  induction tracks as [|[[name time] tb] rest IH]; intros k acc trs i tr; simpl.
  - intros [= <-]. discriminate.
  - destruct (cue_timestamp acc tb) as [e|[[m sec] fr]]; [discriminate|]. simpl.
    destruct (timedelta_add acc time) as [e|acc']; [discriminate|]. simpl.
    destruct (cue_loop (k + 1) acc' rest) as [e|trs'] eqn:E; [discriminate|].
    simpl. intros [= <-]. destruct i as [|i]; simpl.
    + intros [= <-]. simpl. lia.
    + intros H. rewrite (IH _ _ _ _ _ E H). lia.
Qed.

Lemma format_02d_two_digits z : 0 <= z <= 99 -> format_02d z = two_digits z.
Proof.
  intros Hz. replace z with (Z.of_nat (Z.to_nat z)) by lia.
  assert (Hn : (Z.to_nat z < 100)%nat) by lia.
  generalize dependent (Z.to_nat z). clear. intros n Hn.
  do 100 (destruct n as [|n]; [vm_compute; reflexivity|]). lia.
Qed.

(** C5: the entries of the generator end without a line break and
    [''.join] puts none between them, so that in every cue sheet of two
    tracks or more the INDEX line of a track and the TRACK line of the
    next one share a line.  The file written for two chapters has eight
    lines, not nine, and is not laid out as specified. *)
Theorem entries_share_a_line :
  (forall tr1 tr2 rest,
     join (map cue_sheet_entry (tr1 :: tr2 :: rest)) =
       "  TRACK " +:+ format_02d (tr_index tr1) +:+ " AUDIO" +:+ nl +:+
       "    TITLE " +:+ dq +:+ tr_name tr1 +:+ dq +:+ nl +:+
       "    INDEX 01 " +:+ format_02d (tr_minutes tr1) +:+ ":" +:+
       format_02d (tr_seconds tr1) +:+ ":" +:+ format_02d (tr_frames tr1) +:+
       "  TRACK " +:+ format_02d (tr_index tr2) +:+ " AUDIO" +:+ nl +:+
       "    TITLE " +:+ dq +:+ tr_name tr2 +:+ dq +:+ nl +:+
       "    INDEX 01 " +:+ format_02d (tr_minutes tr2) +:+ ":" +:+
       format_02d (tr_seconds tr2) +:+ ":" +:+ format_02d (tr_frames tr2) +:+
       join (map cue_sheet_entry rest))
  /\ exists text,
       files (process_file dune_world "dune.m4b" no_files).1 !! "dune.cue"%string
       = Some text /\
       text_lines text =
         ["PERFORMER " +:+ dq +:+ "Frank Herbert" +:+ dq;
          "TITLE " +:+ dq +:+ "Dune" +:+ dq;
          "FILE " +:+ dq +:+ "dune.oga" +:+ dq +:+ " OGA";
          "  TRACK 00 AUDIO";
          "    TITLE " +:+ dq +:+ "One" +:+ dq;
          "    INDEX 01 00:00:00  TRACK 01 AUDIO";
          "    TITLE " +:+ dq +:+ "Two" +:+ dq;
          "    INDEX 01 01:30:37"]%string /\
       ~ cue_file_as_specified text.
Proof.
  split.
  - intros tr1 tr2 rest. unfold join. cbn [map foldr]. unfold cue_sheet_entry.
    rewrite !append_assoc. reflexivity.
  - eexists. split; [vm_compute; reflexivity|].
    split; [vm_compute; reflexivity|].
    intros (p & t & b & e & tracks & H).
    apply (f_equal length) in H.
    rewrite length_app in H.
    assert (Hl : length (concat (track_lines two_digits <$> tracks))
                 = (3 * length tracks)%nat).
    { clear. induction tracks as [|tr tracks IH]; [reflexivity|].
      cbn [fmap list_fmap concat]. rewrite length_app.
      change (list_fmap _ _ (track_lines two_digits) tracks)
        with (track_lines two_digits <$> tracks).
      rewrite IH. simpl. lia. }
    rewrite Hl in H.
    match type of H with
    | ?l = _ => assert (H8 : l = 8%nat) by (vm_compute; reflexivity)
    end.
    rewrite H8 in H. simpl in H. lia.
Qed.

(** ** Binary64 arithmetic of the timing engine *)

Lemma digits2_bounds p :
  2 ^ (Zpos (digits2_pos p) - 1) <= Zpos p < 2 ^ Zpos (digits2_pos p).
Proof.
  induction p as [p IH|p IH|]; simpl digits2_pos.
  - rewrite Pos2Z.inj_succ, (Pos2Z.inj_xI p).
    replace (Z.succ (Zpos (digits2_pos p)) - 1)
      with (Z.succ (Zpos (digits2_pos p) - 1)) by lia.
    rewrite !Z.pow_succ_r by lia.
    set (a := 2 ^ (Zpos (digits2_pos p) - 1)) in *.
    set (b := 2 ^ Zpos (digits2_pos p)) in *. clearbody a b. lia.
  - rewrite Pos2Z.inj_succ, (Pos2Z.inj_xO p).
    replace (Z.succ (Zpos (digits2_pos p)) - 1)
      with (Z.succ (Zpos (digits2_pos p) - 1)) by lia.
    rewrite !Z.pow_succ_r by lia.
    set (a := 2 ^ (Zpos (digits2_pos p) - 1)) in *.
    set (b := 2 ^ Zpos (digits2_pos p)) in *. clearbody a b. lia.
  - simpl. lia.
Qed.

Lemma digits2_unique p d :
  2 ^ (d - 1) <= Zpos p < 2 ^ d -> Zpos (digits2_pos p) = d.
Proof.
  intros [H1 H2]. pose proof (digits2_bounds p) as [H3 H4].
  assert (0 < d).
  { destruct (Z.ltb_spec 0 d); [assumption|].
    rewrite (Z.pow_neg_r 2 (d - 1)) in H1 by lia.
    destruct (Z.eq_dec d 0) as [->|]; [simpl in H2; lia|].
    rewrite Z.pow_neg_r in H2 by lia. lia. }
  destruct (Z.lt_trichotomy (Zpos (digits2_pos p)) d) as [Hlt|[Heq|Hgt]]; [|assumption|].
  - assert (2 ^ Zpos (digits2_pos p) <= 2 ^ (d - 1)) by (apply Z.pow_le_mono_r; lia). lia.
  - assert (2 ^ d <= 2 ^ (Zpos (digits2_pos p) - 1)) by (apply Z.pow_le_mono_r; lia). lia.
Qed.

Lemma iter_pos_nat {A} (f : A -> A) p : forall x,
  SpecFloat.iter_pos f p x = Nat.iter (Pos.to_nat p) f x.
Proof.
  induction p as [p IH|p IH|]; intros x.
  - change (SpecFloat.iter_pos f p~1 x)
      with (SpecFloat.iter_pos f p (SpecFloat.iter_pos f p (f x))).
    rewrite !IH, Pos2Nat.inj_xI.
    rewrite <- Nat.iter_succ_r, <- Nat.iter_add. f_equal. lia.
  - change (SpecFloat.iter_pos f p~0 x)
      with (SpecFloat.iter_pos f p (SpecFloat.iter_pos f p x)).
    rewrite !IH, Pos2Nat.inj_xO.
    rewrite <- Nat.iter_add. f_equal. lia.
  - reflexivity.
Qed.

Lemma shr_1_m r : 0 <= shr_m r -> shr_m (shr_1 r) = shr_m r / 2.
Proof.
  destruct r as [m rr ss]. simpl. intros Hm.
  destruct m as [|[q|q|]|q]; simpl; try lia; try reflexivity.
  - apply Z.div_unique with 1; lia.
  - apply Z.div_unique with 0; lia.
Qed.

Lemma shr_1_exact r :
  0 <= shr_m r -> exact_record r -> shr_m r mod 2 = 0 -> exact_record (shr_1 r).
Proof.
  destruct r as [m rr ss]. unfold exact_record. simpl. intros Hm [-> ->] Hmod.
  destruct m as [|[q|q|]|q]; simpl; try lia; auto.
  - exfalso. change (Zpos q~1) with (2 * Zpos q + 1) in Hmod.
    replace (2 * Zpos q + 1) with (1 + Zpos q * 2) in Hmod by lia.
    rewrite Z.mod_add in Hmod by lia. discriminate.
  - discriminate Hmod.
Qed.

Lemma iter_shr_m n : forall r, 0 <= shr_m r ->
  shr_m (Nat.iter n shr_1 r) = shr_m r / 2 ^ Z.of_nat n.
Proof.
  induction n as [|n IH]; intros r Hr.
  - simpl. now rewrite Z.div_1_r.
  - rewrite Nat.iter_succ. rewrite shr_1_m.
    + rewrite IH by assumption. rewrite Z.div_div by lia.
      f_equal. rewrite Nat2Z.inj_succ, Z.pow_succ_r by lia. lia.
    + rewrite IH by assumption. apply Z.div_pos; lia.
Qed.

Lemma iter_shr_exact n : forall r, 0 <= shr_m r -> exact_record r ->
  shr_m r mod 2 ^ Z.of_nat n = 0 -> exact_record (Nat.iter n shr_1 r).
Proof.
  induction n as [|n IH]; intros r Hr He Hmod.
  - exact He.
  - rewrite Nat.iter_succ.
    rewrite Nat2Z.inj_succ, Z.pow_succ_r in Hmod by lia.
    assert (Hp : 0 < 2 ^ Z.of_nat n) by lia.
    apply Z.mod_divide in Hmod; [|lia]. destruct Hmod as [k Hk].
    apply shr_1_exact.
    + rewrite iter_shr_m by assumption. apply Z.div_pos; lia.
    + apply IH; try assumption. rewrite Hk.
      replace (k * (2 * 2 ^ Z.of_nat n)) with (k * 2 * 2 ^ Z.of_nat n) by lia.
      apply Z.mod_mul. lia.
    + rewrite iter_shr_m by assumption. rewrite Hk.
      replace (k * (2 * 2 ^ Z.of_nat n)) with (k * 2 * 2 ^ Z.of_nat n) by lia.
      rewrite Z.div_mul by lia. apply Z.mod_mul. lia.
Qed.

Lemma shr_spec r ex n :
  0 <= n -> 0 <= shr_m r ->
  exists r', shr r ex n = (r', ex + n) /\
    shr_m r' = shr_m r / 2 ^ n /\
    (exact_record r -> shr_m r mod 2 ^ n = 0 -> exact_record r').
Proof.
  intros Hn Hr. destruct n as [|p|p]; [| |lia].
  - exists r. simpl. rewrite Z.add_0_r, Z.div_1_r. auto.
  - exists (SpecFloat.iter_pos shr_1 p r). simpl. split; [reflexivity|].
    rewrite iter_pos_nat. rewrite <- (positive_nat_Z p).
    split; [now apply iter_shr_m|]. intros. now apply iter_shr_exact.
Qed.

Lemma fexp_normal e : -1021 <= e -> fexp prec emax e = e - 53.
Proof. unfold fexp, emin, prec, emax. lia. Qed.

Lemma round_nearest_even_step m l :
  exists c, (c = 0 \/ c = 1) /\ round_nearest_even m l = m + c /\
            (l = loc_Exact -> c = 0).
Proof.
  destruct l as [|[]]; simpl.
  - exists 0. split; [auto|]. split; [lia|auto].
  - destruct (Z.even m).
    + exists 0. split; [auto|]. split; [lia|discriminate].
    + exists 1. split; [auto|]. split; [lia|discriminate].
  - exists 0. split; [auto|]. split; [lia|auto].
  - exists 1. split; [auto|]. split; [lia|discriminate].
Qed.

Lemma loc_of_exact r : exact_record r -> loc_of_shr_record r = loc_Exact.
Proof. destruct r as [m rr ss]. intros [H1 H2]. simpl in *. now subst. Qed.

Lemma record_of_loc_m m l : shr_m (shr_record_of_loc m l) = m.
Proof. destruct l as [|[]]; reflexivity. Qed.

Lemma record_of_exact m : exact_record (shr_record_of_loc m loc_Exact).
Proof. split; reflexivity. Qed.

Lemma pow2_split a b : 0 <= a -> 0 <= b -> 2 ^ (a + b) = 2 ^ a * 2 ^ b.
Proof. intros. now apply Z.pow_add_r. Qed.

Lemma bra_core (mx : positive) ex lx n :
  Zpos (digits2_pos mx) = 53 + n -> 0 <= n ->
  -1074 <= ex + n -> ex + n + 1 <= 971 ->
  exists (m : positive) e c,
    binary_round_aux prec emax false (Zpos mx) ex lx = S754_finite false m e /\
    (c = 0 \/ c = 1) /\
    2 ^ 52 <= Zpos mx / 2 ^ n < 2 ^ 53 /\
    2 ^ 52 <= Zpos m < 2 ^ 53 /\
    ((Zpos m = Zpos mx / 2 ^ n + c /\ e = ex + n) \/
     (Zpos mx / 2 ^ n + c = 2 ^ 53 /\ Zpos m = 2 ^ 52 /\ e = ex + n + 1)) /\
    (lx = loc_Exact -> Zpos mx mod 2 ^ n = 0 -> c = 0).
Proof.
  intros Hd Hn Hlo Hhi.
  pose proof (digits2_bounds mx) as Hb. rewrite Hd in Hb.
  assert (Hp : 0 < 2 ^ n) by (apply Z.pow_pos_nonneg; lia).
  assert (Hq : 2 ^ 52 <= Zpos mx / 2 ^ n < 2 ^ 53).
  { replace (53 + n - 1) with (52 + n) in Hb by lia.
    rewrite !pow2_split in Hb by lia. split.
    - apply Z.div_le_lower_bound; lia.
    - apply Z.div_lt_upper_bound; lia. }
  set (q := Zpos mx / 2 ^ n) in *.
  unfold binary_round_aux.
  assert (H1 : exists r', shr_fexp prec emax (Zpos mx) ex lx = (r', ex + n) /\
             shr_m r' = q /\
             (lx = loc_Exact -> Zpos mx mod 2 ^ n = 0 -> exact_record r')).
  { unfold shr_fexp. simpl Zdigits2. rewrite Hd.
    rewrite fexp_normal by lia.
    replace (53 + n + ex - 53 - ex) with n by lia.
    destruct (shr_spec (shr_record_of_loc (Zpos mx) lx) ex n) as (r' & Hs & Hm & Hex);
      [lia | rewrite record_of_loc_m; lia |].
    exists r'. split; [exact Hs|]. rewrite record_of_loc_m in *.
    split; [exact Hm|]. intros -> Hmod. apply Hex; [apply record_of_exact|exact Hmod]. }
  destruct H1 as (r' & -> & Hm & Hex).
  destruct (round_nearest_even_step (shr_m r') (loc_of_shr_record r'))
    as (c & Hc & -> & Hc0).
  rewrite Hm.
  assert (Hexact : lx = loc_Exact -> Zpos mx mod 2 ^ n = 0 -> c = 0).
  { intros H1 H2. apply Hc0, loc_of_exact, Hex; assumption. }
  destruct (Z.eq_dec (q + c) (2 ^ 53)) as [Htop|Hlow].
  - exists (4503599627370496%positive), (ex + n + 1), c.
    rewrite Htop. change (2 ^ 53) with 9007199254740992.
    unfold shr_fexp. change (Zdigits2 9007199254740992) with 54.
    rewrite fexp_normal by lia.
    replace (54 + (ex + n) - 53 - (ex + n)) with 1 by lia.
    simpl.
    destruct (Z.leb_spec (ex + n + 1) (emax - prec)) as [_|Hbad];
      [|unfold emax, prec in Hbad; lia].
    split; [reflexivity|]. split; [exact Hc|]. split; [exact Hq|].
    split; [split; [discriminate|reflexivity]|].
    split; [right; repeat split; reflexivity || exact Htop|exact Hexact].
  - assert (Hpos : 0 < q + c) by lia.
    destruct (q + c) as [|m|m] eqn:Hqc; try lia.
    exists m, (ex + n), c.
    assert (Hdm : Zpos (digits2_pos m) = 53).
    { apply digits2_unique. simpl. lia. }
    unfold shr_fexp. simpl Zdigits2. rewrite Hdm.
    rewrite fexp_normal by lia.
    replace (53 + (ex + n) - 53 - (ex + n)) with 0 by lia.
    simpl.
    destruct (Z.leb_spec (ex + n) (emax - prec)) as [_|Hbad];
      [|unfold emax, prec in Hbad; lia].
    split; [reflexivity|]. split; [exact Hc|]. split; [exact Hq|].
    split; [lia|].
    split; [left; split; [symmetry; exact Hqc|reflexivity]|exact Hexact].
Qed.

Lemma Zdigits2_bounds v : 0 < v ->
  1 <= Zdigits2 v /\ 2 ^ (Zdigits2 v - 1) <= v < 2 ^ Zdigits2 v.
Proof.
  intros Hv. destruct v as [|p|p]; try lia. simpl Zdigits2.
  split; [lia|apply digits2_bounds].
Qed.

Lemma Zdigits2_unique v d : 2 ^ (d - 1) <= v < 2 ^ d -> 0 < v -> Zdigits2 v = d.
Proof.
  intros H Hv. destruct v as [|p|p]; try lia. now apply digits2_unique.
Qed.

Lemma Zdigits2_le v k : 0 < v < 2 ^ k -> 0 <= k -> Zdigits2 v <= k.
Proof.
  intros [Hv Hk] H0. destruct (Zdigits2_bounds v Hv) as (H1 & H2 & H3).
  destruct (Z.le_gt_cases (Zdigits2 v) k) as [|Hgt]; [assumption|].
  assert (2 ^ k <= 2 ^ (Zdigits2 v - 1)) by (apply Z.pow_le_mono_r; lia). lia.
Qed.

Lemma Zdigits2_shift v k : 0 < v -> 0 <= k -> Zdigits2 (v * 2 ^ k) = Zdigits2 v + k.
Proof.
  intros Hv Hk. destruct (Zdigits2_bounds v Hv) as (H1 & H2 & H3).
  assert (Hp : 0 < 2 ^ k) by (apply Z.pow_pos_nonneg; lia).
  apply Zdigits2_unique; [|nia].
  replace (Zdigits2 v + k - 1) with (Zdigits2 v - 1 + k) by lia.
  rewrite !pow2_split by lia. nia.
Qed.

Lemma pos_iter_xO p d : Zpos (Pos.iter xO p d) = Zpos p * 2 ^ Zpos d.
Proof.
  induction d as [|d IH] using Pos.peano_ind.
  - simpl. lia.
  - rewrite Pos.iter_succ, Pos2Z.inj_succ, Z.pow_succ_r by lia.
    change (Zpos (Pos.iter xO p d)~0) with (2 * Zpos (Pos.iter xO p d)).
    rewrite IH. lia.
Qed.

(** [binary_normalize] is exact on [v * 2^k * 2^e] when [v] has at most 53 bits. *)
Lemma bn_exact v k e :
  0 < v < 2 ^ 53 -> 0 <= k ->
  -1021 <= Zdigits2 v + k + e -> Zdigits2 v + k + e <= 1023 ->
  binary_normalize prec emax (v * 2 ^ k) e false = canon v (e + k).
Proof.
  intros Hv Hk Hlo Hhi.
  destruct (Zdigits2_bounds v) as (Hd1 & Hd2 & Hd3); [lia|].
  assert (Hd53 : Zdigits2 v <= 53) by (apply Zdigits2_le; lia).
  assert (Hpk : 0 < 2 ^ k) by (apply Z.pow_pos_nonneg; lia).
  assert (HM : 0 < v * 2 ^ k) by nia.
  pose proof (Zdigits2_shift v k ltac:(lia) Hk) as HdM.
  destruct (v * 2 ^ k) as [|p|p] eqn:HMp; try lia.
  unfold binary_normalize, binary_round.
  change (Zpos (digits2_pos p)) with (Zdigits2 (Zpos p)). rewrite HdM.
  rewrite fexp_normal by lia.
  unfold shl_align.
  destruct (Zdigits2 v + k + e - 53 - e) as [|d|d] eqn:Hsh.
  - (* no shift: exactly 53 digits *)
    destruct (bra_core p e loc_Exact 0) as (m & e' & c & -> & Hc & Hq & _ & Hcase & Hex);
      [simpl Zdigits2 in HdM; lia|lia|lia|lia|].
    rewrite Z.div_1_r in *. rewrite (Hex eq_refl (Z.mod_1_r _)) in *.
    destruct Hcase as [[Hm ->]|[Htop _]]; [|lia].
    unfold canon. f_equal; [|lia].
    replace (53 - Zdigits2 v) with k by lia. rewrite HMp.
    rewrite Z.add_0_r in Hm. rewrite <- Hm. reflexivity.
  - (* more than 53 digits: shift right, the lost bits are zero *)
    destruct (bra_core p e loc_Exact (Zpos d))
      as (m & e' & c & -> & Hc & Hq & _ & Hcase & Hex);
      [simpl Zdigits2 in HdM; lia|lia|lia|lia|].
    assert (Hkd : Zpos d <= k) by lia.
    assert (Hsplit : Zpos p = v * 2 ^ (k - Zpos d) * 2 ^ Zpos d).
    { rewrite <- HMp, <- Z.mul_assoc, <- pow2_split by lia. f_equal. f_equal. lia. }
    rewrite Hsplit in Hex, Hcase, Hq.
    rewrite Z.mod_mul in Hex by lia. rewrite (Hex eq_refl eq_refl) in *.
    rewrite Z.div_mul in Hcase, Hq by lia.
    destruct Hcase as [[Hm ->]|[Htop _]]; [|lia].
    unfold canon. f_equal; [|lia].
    replace (53 - Zdigits2 v) with (k - Zpos d) by lia.
    rewrite Z.add_0_r in Hm. rewrite <- Hm. reflexivity.
  - (* fewer than 53 digits: shift left *)
    destruct (bra_core (Pos.iter xO p d) (Zdigits2 v + k + e - 53) loc_Exact 0)
      as (m & e' & c & -> & Hc & Hq & _ & Hcase & Hex); [|lia|lia|lia|].
    { change (Zpos (digits2_pos (Pos.iter xO p d)))
        with (Zdigits2 (Zpos (Pos.iter xO p d))).
      rewrite pos_iter_xO, <- HMp.
      rewrite <- Z.mul_assoc, <- pow2_split by lia.
      rewrite Zdigits2_shift by lia. lia. }
    rewrite Z.div_1_r in *. rewrite (Hex eq_refl (Z.mod_1_r _)) in *.
    destruct Hcase as [[Hm ->]|[Htop _]]; [|lia].
    unfold canon. f_equal; [|lia].
    apply Pos2Z.inj. rewrite Z2Pos.id
      by (apply Z.mul_pos_pos; [lia|apply Z.pow_pos_nonneg; lia]).
    rewrite Z.add_0_r in Hm. rewrite Hm, pos_iter_xO, <- HMp.
    rewrite <- Z.mul_assoc, <- pow2_split by lia.
    f_equal. f_equal. lia.
Qed.

Lemma float_of_int_pos k : 0 < k < 2 ^ 53 -> float_of_int k = inr (Zfloat k).
Proof.
  intros Hk. unfold float_of_int.
  destruct (Zdigits2_bounds k) as (Hd1 & Hd2 & Hd3); [lia|].
  assert (Hd53 : Zdigits2 k <= 53) by (apply Zdigits2_le; lia).
  replace k with (k * 2 ^ 0) at 1 by (simpl; lia).
  rewrite bn_exact by lia. reflexivity.
Qed.

Lemma div_eucl_div_mod a b : Z.div_eucl a b = (a / b, a mod b).
Proof. unfold Z.div, Z.modulo. now destruct (Z.div_eucl a b). Qed.

Lemma new_location_zero b : new_location b 0 = loc_Exact.
Proof. unfold new_location. destruct (Z.even b); reflexivity. Qed.

Lemma div_pow_shift a b s n :
  0 < b -> 0 <= n <= s -> a * 2 ^ s / b / 2 ^ n = a * 2 ^ (s - n) / b.
Proof.
  intros Hb Hn. assert (0 < 2 ^ n) by (apply Z.pow_pos_nonneg; lia).
  rewrite Z.div_div by lia.
  replace (a * 2 ^ s) with (a * 2 ^ (s - n) * 2 ^ n).
  - rewrite Z.div_mul_cancel_r by lia. reflexivity.
  - rewrite <- Z.mul_assoc, <- pow2_split by lia. f_equal. f_equal. lia.
Qed.

Lemma bra_quotient a b s lx :
  0 < a -> 0 < b -> 1 <= s <= 1000 ->
  2 ^ 52 <= a * 2 ^ s / b -> Zdigits2 (a * 2 ^ s / b) <= 53 + s ->
  ((a * 2 ^ s) mod b = 0 -> lx = loc_Exact) ->
  exists f,
    binary_round_aux prec emax false (a * 2 ^ s / b) (- s) lx = f /\
    rounds f a b.
Proof.
  intros Ha Hb Hs Hq Hds Hlx.
  set (q0 := a * 2 ^ s / b) in *.
  assert (Hq0pos : 0 < q0).
  { apply Z.lt_le_trans with (2 ^ 52); [reflexivity|exact Hq]. }
  destruct (Zdigits2_bounds q0 Hq0pos) as (Hd1 & Hd2 & Hd3).
  assert (Hd : 53 <= Zdigits2 q0).
  { destruct (Z.le_gt_cases (Zdigits2 q0) 52); [|lia].
    assert (2 ^ Zdigits2 q0 <= 2 ^ 52) by (apply Z.pow_le_mono_r; lia). lia. }
  set (n := Zdigits2 q0 - 53).
  destruct q0 as [|p|p] eqn:Hq0; try lia.
  destruct (bra_core p (- s) lx n) as (m & e & c & Hr & Hc & Hq53 & Hm53 & Hcase & Hex);
    [unfold n; simpl Zdigits2; lia|lia|lia|lia|].
  eexists. split; [exact Hr|].
  assert (Hdiv : Zpos p / 2 ^ n = a * 2 ^ (s - n) / b).
  { rewrite <- Hq0. apply div_pow_shift; lia. }
  rewrite Hdiv in Hcase, Hq53.
  exists m, e, (s - n), c.
  split; [reflexivity|]. split; [lia|]. split; [exact Hq53|].
  split; [exact Hm53|]. split; [exact Hc|].
  split.
  - destruct Hcase as [[H1 H2]|[H1 [H2 H3]]]; [left|right]; repeat split;
      try assumption; lia.
  - intros Hmod.
    assert (Hpn : 0 < 2 ^ n) by (apply Z.pow_pos_nonneg; lia).
    assert (Hsplit : a * 2 ^ s = a * 2 ^ (s - n) * 2 ^ n).
    { rewrite <- Z.mul_assoc, <- pow2_split by lia. f_equal. f_equal. lia. }
    apply Z.mod_divide in Hmod; [|lia]. destruct Hmod as [k Hk].
    apply Hex.
    + apply Hlx. rewrite Hsplit, Hk.
      replace (k * b * 2 ^ n) with (k * 2 ^ n * b) by lia. apply Z.mod_mul. lia.
    + rewrite <- Hq0. unfold q0 in *. clear Hq0.
      rewrite Hsplit, Hk.
      replace (k * b * 2 ^ n) with (k * 2 ^ n * b) by lia.
      rewrite Z.div_mul by lia. apply Z.mod_mul. lia.
Qed.

Lemma quotient_range a b :
  0 < a -> 0 < b -> Zdigits2 a <= 52 + Zdigits2 b ->
  let s := 53 + Zdigits2 b - Zdigits2 a in
  2 ^ 52 <= a * 2 ^ s / b < 2 ^ 54.
Proof.
  intros Ha Hb Hd s.
  destruct (Zdigits2_bounds a Ha) as (Ha1 & Ha2 & Ha3).
  destruct (Zdigits2_bounds b Hb) as (Hb1 & Hb2 & Hb3).
  assert (Hs : 1 <= s) by (unfold s; lia).
  assert (Hps : 0 < 2 ^ s) by (apply Z.pow_pos_nonneg; lia).
  assert (H1 : 2 ^ (52 + Zdigits2 b) = 2 ^ (Zdigits2 a - 1) * 2 ^ s).
  { rewrite <- pow2_split by lia. f_equal. unfold s. lia. }
  assert (H2 : 2 ^ 54 * 2 ^ (Zdigits2 b - 1) = 2 ^ Zdigits2 a * 2 ^ s).
  { rewrite <- !pow2_split by lia. f_equal. unfold s. lia. }
  assert (H3 : 2 ^ (52 + Zdigits2 b) = 2 ^ 52 * 2 ^ Zdigits2 b)
    by (apply pow2_split; lia).
  split.
  - apply Z.div_le_lower_bound; [lia|]. nia.
  - apply Z.div_lt_upper_bound; [lia|]. nia.
Qed.

Lemma quotient_bounds a b :
  0 < a -> 0 < b -> Zdigits2 a <= 52 + Zdigits2 b ->
  let s := 53 + Zdigits2 b - Zdigits2 a in
  2 ^ 52 <= a * 2 ^ s / b /\ Zdigits2 (a * 2 ^ s / b) <= 53 + s.
Proof.
  intros Ha Hb Hd s.
  pose proof (quotient_range a b Ha Hb Hd) as Hq. simpl in Hq. fold s in Hq.
  destruct (Zdigits2_bounds b Hb) as (Hb1 & _).
  split; [lia|].
  assert (Zdigits2 (a * 2 ^ s / b) <= 54); [|unfold s in *; lia].
  apply Zdigits2_le; [|lia]. split; [|lia].
  apply Z.lt_le_trans with (2 ^ 52); [reflexivity|lia].
Qed.

Lemma int_truediv_rounds a b :
  0 < a -> 0 < b < 2 ^ 900 -> a < 2 ^ 52 * b ->
  exists f, int_truediv a b = inr f /\ rounds f a b.
Proof.
  intros Ha Hb Hab.
  destruct (Zdigits2_bounds a Ha) as (Ha1 & Ha2 & Ha3).
  destruct (Zdigits2_bounds b) as (Hb1 & Hb2 & Hb3); [lia|].
  assert (Hdb : Zdigits2 b <= 900) by (apply Zdigits2_le; lia).
  assert (Hda : Zdigits2 a <= 52 + Zdigits2 b).
  { apply Zdigits2_le; [|lia]. rewrite pow2_split by lia. nia. }
  pose proof (quotient_bounds a b Ha ltac:(lia) Hda) as Hq. simpl in Hq.
  set (s := 53 + Zdigits2 b - Zdigits2 a) in *.
  unfold int_truediv.
  destruct (Z.eqb_spec b 0); [lia|]. destruct (Z.eqb_spec a 0); [lia|].
  rewrite !Z.abs_eq by lia.
  unfold SFdiv_core_binary.
  replace (Zdigits2 a + 0 - (Zdigits2 b + 0)) with (- s + 53) by (unfold s; lia).
  rewrite fexp_normal by (unfold s; lia).
  replace (Z.min (- s + 53 - 53) (0 - 0)) with (- s) by lia.
  replace (0 - 0 - - s) with s by lia.
  destruct s as [|ps|ps] eqn:Hs; try lia. rewrite <- Hs in *.
  rewrite Z.shiftl_mul_pow2 by lia.
  rewrite div_eucl_div_mod.
  destruct (Z.ltb_spec a 0); [lia|]. destruct (Z.ltb_spec b 0); [lia|].
  simpl xorb.
  destruct (bra_quotient a b s (new_location b ((a * 2 ^ s) mod b)))
    as (f & Hf & Hr); try lia.
  { intros ->. apply new_location_zero. }
  rewrite Hf. exists f. split; [|exact Hr].
  destruct Hr as (m & e & j & c & -> & _). reflexivity.
Qed.

Lemma canon_mantissa v : 0 < v < 2 ^ 53 ->
  let A := v * 2 ^ (53 - Zdigits2 v) in
  0 < A /\ Zdigits2 A = 53 /\ Zpos (Z.to_pos A) = A.
Proof.
  intros Hv A.
  destruct (Zdigits2_bounds v) as (Hd1 & Hd2 & Hd3); [lia|].
  assert (Hd53 : Zdigits2 v <= 53) by (apply Zdigits2_le; lia).
  assert (HA : 0 < A)
    by (apply Z.mul_pos_pos; [lia|apply Z.pow_pos_nonneg; lia]).
  split; [exact HA|]. split; [|now apply Z2Pos.id].
  unfold A. rewrite Zdigits2_shift by lia. lia.
Qed.

Lemma float_truediv_rounds a b :
  0 < a < 2 ^ 53 -> 0 < b < 2 ^ 53 ->
  exists f, float_truediv (Zfloat a) (Zfloat b) = inr f /\ rounds f a b.
Proof.
  intros Ha Hb.
  destruct (Zdigits2_bounds a) as (Ha1 & Ha2 & Ha3); [lia|].
  destruct (Zdigits2_bounds b) as (Hb1 & Hb2 & Hb3); [lia|].
  assert (Hda : Zdigits2 a <= 53) by (apply Zdigits2_le; lia).
  assert (Hdb : Zdigits2 b <= 53) by (apply Zdigits2_le; lia).
  pose proof (quotient_bounds a b ltac:(lia) ltac:(lia) ltac:(lia)) as Hq.
  simpl in Hq.
  destruct (canon_mantissa a Ha) as (HA & HdA & HpA).
  destruct (canon_mantissa b Hb) as (HB & HdB & HpB).
  set (s := 53 + Zdigits2 b - Zdigits2 a) in *.
  set (A := a * 2 ^ (53 - Zdigits2 a)) in *.
  set (B := b * 2 ^ (53 - Zdigits2 b)) in *.
  assert (Hnum : A * 2 ^ 53 = a * 2 ^ s * 2 ^ (53 - Zdigits2 b)).
  { unfold A, s. rewrite <- !Z.mul_assoc, <- !pow2_split by lia.
    f_equal. f_equal. lia. }
  assert (Hpt : 0 < 2 ^ (53 - Zdigits2 b)) by (apply Z.pow_pos_nonneg; lia).
  unfold float_truediv, Zfloat, canon. fold A B. simpl is_zero. cbv iota.
  unfold SFdiv. rewrite HpA, HpB.
  unfold SFdiv_core_binary. rewrite HdA, HdB.
  replace (53 + (0 - (53 - Zdigits2 a)) - (53 + (0 - (53 - Zdigits2 b))))
    with (- s + 53) by (unfold s; lia).
  rewrite fexp_normal by (unfold s; lia).
  replace (0 - (53 - Zdigits2 a) - (0 - (53 - Zdigits2 b)))
    with (- s + 53) by (unfold s; lia).
  replace (Z.min (- s + 53 - 53) (- s + 53)) with (- s) by lia.
  replace (- s + 53 - - s) with 53 by lia.
  rewrite Z.shiftl_mul_pow2 by lia.
  rewrite div_eucl_div_mod.
  assert (Hquot : A * 2 ^ 53 / B = a * 2 ^ s / b).
  { rewrite Hnum. unfold B. apply Z.div_mul_cancel_r; lia. }
  assert (Hrem : (a * 2 ^ s) mod b = 0 -> (A * 2 ^ 53) mod B = 0).
  { intros H0. rewrite Hnum. unfold B.
    rewrite Z.mul_mod_distr_r by lia. rewrite H0. reflexivity. }
  rewrite Hquot. simpl xorb.
  destruct (bra_quotient a b s (new_location B ((A * 2 ^ 53) mod B)))
    as (f & Hf & Hr); try lia.
  { intros H0. rewrite (Hrem H0). apply new_location_zero. }
  rewrite Hf. exists f. split; [reflexivity|exact Hr].
Qed.

(** An exact quotient is not rounded. *)
Lemma rounds_exact f a b k :
  rounds f a b -> 0 < b -> a = k * b -> 0 < k < 2 ^ 53 -> f = Zfloat k.
Proof.
  intros (m & e & j & c & -> & Hj & Hq & _ & Hc & Hcase & Hex) Hb -> Hk.
  assert (Hpj : 0 < 2 ^ j) by (apply Z.pow_pos_nonneg; lia).
  assert (Hdiv : k * b * 2 ^ j / b = k * 2 ^ j).
  { replace (k * b * 2 ^ j) with (k * 2 ^ j * b) by lia. apply Z.div_mul. lia. }
  assert (Hc0 : c = 0).
  { apply Hex. replace (k * b * 2 ^ j) with (k * 2 ^ j * b) by lia.
    apply Z.mod_mul. lia. }
  subst c. rewrite Hdiv in *.
  destruct Hcase as [[Hm ->]|[Htop _]]; [|lia].
  assert (Hd : Zdigits2 (k * 2 ^ j) = 53) by (apply Zdigits2_unique; simpl; lia).
  rewrite Zdigits2_shift in Hd by lia.
  unfold Zfloat, canon. f_equal; [|lia].
  apply Pos2Z.inj. rewrite Z2Pos.id
    by (apply Z.mul_pos_pos; [lia|apply Z.pow_pos_nonneg; lia]).
  rewrite Hm, Z.add_0_r. f_equal. f_equal. lia.
Qed.

Lemma total_seconds_whole n :
  0 < n < 2 ^ 52 -> total_seconds (n * 1000000) = inr (Zfloat n).
Proof.
  intros Hn. unfold total_seconds.
  assert (Hb : 0 < 1000000 < 2 ^ 900).
  { split; [lia|]. apply Z.lt_trans with (2 ^ 20); [reflexivity|].
    apply Z.pow_lt_mono_r; lia. }
  destruct (int_truediv_rounds (n * 1000000) 1000000) as (f & -> & Hr);
    [lia|exact Hb|lia|].
  f_equal. apply (rounds_exact f _ 1000000 n Hr); lia.
Qed.

Lemma int_of_float_scaled m e :
  -80 <= e -> int_of_float (S754_finite false m e) = inr (Zpos m * 2 ^ (e + 80) / 2 ^ 80).
Proof.
  intros He. unfold int_of_float. simpl cond_Zopp. f_equal.
  destruct (Z.le_gt_cases 0 e).
  - rewrite Z.shiftl_mul_pow2 by lia. rewrite pow2_split by lia.
    rewrite Z.mul_assoc, Z.div_mul by lia. reflexivity.
  - rewrite Z.shiftl_div_pow2 by lia.
    assert (0 < 2 ^ (e + 80)) by (apply Z.pow_pos_nonneg; lia).
    assert (0 < 2 ^ (- e)) by (apply Z.pow_pos_nonneg; lia).
    replace (2 ^ 80) with (2 ^ (- e) * 2 ^ (e + 80))
      by (rewrite <- pow2_split by lia; f_equal; lia).
    rewrite Z.div_mul_cancel_r by lia. reflexivity.
Qed.

(** What [rounds] says in units of [2^-80]. *)
Lemma rounds_scaled f a b :
  rounds f a b -> 0 < a -> 0 < b ->
  exists (m : positive) e j,
    f = S754_finite false m e /\ 0 <= j /\ - j <= e <= 1 - j /\
    2 ^ 52 <= Zpos m < 2 ^ 53 /\
    2 ^ 52 * b <= a * 2 ^ j /\
    b * (Zpos m * 2 ^ (e + j)) <= a * 2 ^ j + b /\
    a * 2 ^ j < b * (Zpos m * 2 ^ (e + j)) + b.
Proof.
  intros (m & e & j & c & -> & Hj & Hq & Hm53 & Hc & Hcase & _) Ha Hb.
  assert (Hpj : 0 < 2 ^ j) by (apply Z.pow_pos_nonneg; lia).
  pose proof (Z.mul_div_le (a * 2 ^ j) b Hb) as Hle.
  pose proof (Z.mul_succ_div_gt (a * 2 ^ j) b Hb) as Hgt.
  set (q := a * 2 ^ j / b) in *.
  exists m, e, j. split; [reflexivity|]. split; [lia|].
  destruct Hcase as [[Hm ->]|(Htop & Hm & ->)].
  - replace (- j + j) with 0 by lia. rewrite Z.pow_0_r, Z.mul_1_r.
    split; [lia|]. split; [lia|]. split; [nia|]. nia.
  - replace (1 - j + j) with 1 by lia. rewrite Hm.
    change (2 ^ 52 * 2 ^ 1) with (2 ^ 53).
    split; [lia|]. split; [lia|]. split; [nia|]. nia.
Qed.

Lemma int_of_float_quot m e j :
  0 <= j -> - j <= e <= 1 - j ->
  int_of_float (S754_finite false m e) = inr (Zpos m * 2 ^ (e + j) / 2 ^ j).
Proof.
  intros Hj He. unfold int_of_float. simpl cond_Zopp. f_equal.
  assert (Hpj : 0 < 2 ^ j) by (apply Z.pow_pos_nonneg; lia).
  destruct (Z.eq_dec e (- j)) as [->|Hne].
  - replace (- j + j) with 0 by lia. rewrite Z.pow_0_r, Z.mul_1_r.
    rewrite Z.shiftl_div_pow2 by lia. now rewrite Z.opp_involutive.
  - assert (e = 1 - j) by lia. subst e.
    replace (1 - j + j) with 1 by lia. rewrite Z.pow_1_r.
    destruct (Z.eq_dec j 0) as [->|Hj0].
    + rewrite Z.shiftl_mul_pow2 by lia. simpl (1 - 0). rewrite Z.pow_1_r.
      rewrite Z.pow_0_r, Z.div_1_r. reflexivity.
    + rewrite Z.shiftl_div_pow2 by lia.
      assert (0 < 2 ^ (j - 1)) by (apply Z.pow_pos_nonneg; lia).
      replace (2 ^ j) with (2 ^ (j - 1) * 2)
        by (rewrite <- (Z.pow_1_r 2) at 2; rewrite <- pow2_split by lia;
            f_equal; lia).
      rewrite Z.div_mul_cancel_r by lia. f_equal. f_equal. lia.
Qed.

(** Truncating a rounded quotient gives the integer quotient, or one
    more when [a / b] is within [2^-52] of the next integer, relatively. *)
Lemma trunc_rounds f a b :
  rounds f a b -> 0 < a -> 0 < b ->
  exists T, int_of_float f = inr T /\
    (T = a / b \/ (T = a / b + 1 /\ 2 ^ 52 * ((a / b + 1) * b - a) <= a)).
Proof.
  intros Hr Ha Hb.
  destruct (rounds_scaled f a b Hr Ha Hb)
    as (m & e & j & -> & Hj & He & Hm & Hlow & Hle & Hgt).
  assert (Hpj : 0 < 2 ^ j) by (apply Z.pow_pos_nonneg; lia).
  rewrite (int_of_float_quot m e j Hj He).
  set (v := Zpos m * 2 ^ (e + j)) in *.
  eexists. split; [reflexivity|].
  pose proof (Z.mul_div_le a b Hb) as HK1.
  pose proof (Z.mul_succ_div_gt a b Hb) as HK2.
  set (K := a / b) in *.
  assert (Hv1 : K * 2 ^ j <= v) by nia.
  assert (Hv2 : v <= (K + 1) * 2 ^ j) by nia.
  destruct (Z.eq_dec v ((K + 1) * 2 ^ j)) as [Heq|Hne].
  - right. split.
    + rewrite Heq. apply Z.div_mul. lia.
    + rewrite Heq in Hle. nia.
  - left. symmetry. apply Z.div_unique with (v - K * 2 ^ j); lia.
Qed.

Lemma trunc_rounds_small f a b :
  rounds f a b -> 0 < a < 2 ^ 52 -> 0 < b ->
  int_of_float f = inr (a / b).
Proof.
  intros Hr Ha Hb.
  destruct (trunc_rounds f a b Hr) as (T & -> & [->|[_ Hbad]]); try lia;
    [reflexivity|].
  pose proof (Z.mul_succ_div_gt a b Hb). nia.
Qed.

Lemma int_of_float_Zfloat k : 0 < k < 2 ^ 53 -> int_of_float (Zfloat k) = inr k.
Proof.
  intros Hk. destruct (Zdigits2_bounds k) as (Hd1 & Hd2 & Hd3); [lia|].
  assert (Hd53 : Zdigits2 k <= 53) by (apply Zdigits2_le; lia).
  destruct (canon_mantissa k Hk) as (HA & HdA & HpA).
  unfold Zfloat, canon.
  rewrite (int_of_float_quot _ _ (53 - Zdigits2 k)) by lia.
  rewrite HpA. replace (0 - (53 - Zdigits2 k) + (53 - Zdigits2 k)) with 0 by lia.
  rewrite Z.pow_0_r, Z.mul_1_r, Z.div_mul; [reflexivity|].
  apply Z.neq_sym, Z.lt_neq, Z.pow_pos_nonneg; lia.
Qed.

(** C's [fmod] on two whole numbers. *)
Lemma fmod_whole n d :
  0 < n < 2 ^ 53 -> 0 < d < 2 ^ 53 ->
  fmod (Zfloat n) (Zfloat d) =
    if n mod d =? 0 then S754_zero false else Zfloat (n mod d).
Proof.
  intros Hn Hd.
  destruct (Zdigits2_bounds n) as (Hn1 & Hn2 & Hn3); [lia|].
  destruct (Zdigits2_bounds d) as (Hd1 & Hd2 & Hd3); [lia|].
  assert (Hn53 : Zdigits2 n <= 53) by (apply Zdigits2_le; lia).
  assert (Hd53 : Zdigits2 d <= 53) by (apply Zdigits2_le; lia).
  destruct (canon_mantissa n Hn) as (HA & HdA & HpA).
  destruct (canon_mantissa d Hd) as (HB & HdB & HpB).
  unfold Zfloat at 1 2, canon, fmod. rewrite HpA, HpB.
  set (e := Z.min (0 - (53 - Zdigits2 n)) (0 - (53 - Zdigits2 d))).
  assert (He : -52 <= e <= 0) by (unfold e; lia).
  assert (Hpe : 0 < 2 ^ (- e)) by (apply Z.pow_pos_nonneg; lia).
  assert (HX : n * 2 ^ (53 - Zdigits2 n) * 2 ^ (0 - (53 - Zdigits2 n) - e)
               = n * 2 ^ (- e)).
  { rewrite <- Z.mul_assoc, <- pow2_split by lia. f_equal. f_equal. lia. }
  assert (HY : d * 2 ^ (53 - Zdigits2 d) * 2 ^ (0 - (53 - Zdigits2 d) - e)
               = d * 2 ^ (- e)).
  { rewrite <- Z.mul_assoc, <- pow2_split by lia. f_equal. f_equal. lia. }
  rewrite HX, HY. rewrite Z.mul_mod_distr_r by lia. simpl cond_Zopp.
  pose proof (Z.mod_pos_bound n d ltac:(lia)) as Hr.
  destruct (Z.eqb_spec (n mod d) 0) as [E|E].
  - rewrite E. reflexivity.
  - assert (Hr53 : 0 < n mod d < 2 ^ 53) by lia.
    destruct (Zdigits2_bounds (n mod d)) as (Hr1 & Hr2 & Hr3); [lia|].
    assert (Hdr : Zdigits2 (n mod d) <= 53) by (apply Zdigits2_le; lia).
    rewrite bn_exact by lia.
    unfold Zfloat. f_equal. lia.
Qed.

Lemma bind_inr {A B} (x : A) (f : A -> result B) : (inr x ≫= f) = f x.
Proof. reflexivity. Qed.

Lemma total_seconds_zero : total_seconds 0 = inr (S754_zero false).
Proof. reflexivity. Qed.

Lemma timebase_float tb :
  1 <= tb <= 10000 -> float_of_int (tb * 60) = inr (Zfloat (tb * 60)).
Proof. intros H. apply float_of_int_pos. lia. Qed.

Lemma cue_minutes_whole n tb :
  0 <= n < 2 ^ 52 -> 1 <= tb <= 10000 ->
  cue_minutes (n * 1000000) tb = inr (n / (tb * 60)).
Proof.
  intros Hn Htb. unfold cue_minutes.
  rewrite (timebase_float tb Htb).
  destruct (Z.eq_dec n 0) as [->|Hn0].
  - change (0 * 1000000) with 0. rewrite total_seconds_zero, !bind_inr.
    rewrite Z.div_0_l by lia. reflexivity.
  - rewrite total_seconds_whole by lia. rewrite !bind_inr.
    destruct (float_truediv_rounds n (tb * 60)) as (f & -> & Hr); try lia.
    rewrite bind_inr. apply trunc_rounds_small; [exact Hr|lia|lia].
Qed.

Lemma Zfloat_not_zero k : is_zero (Zfloat k) = false.
Proof. reflexivity. Qed.

Lemma Zfloat_not_negative k : is_negative (Zfloat k) = false.
Proof. reflexivity. Qed.

Lemma float_rem_whole n d :
  0 < n < 2 ^ 53 -> 0 < d < 2 ^ 53 ->
  float_rem (Zfloat n) (Zfloat d) ≫= int_of_float = inr (n mod d).
Proof.
  intros Hn Hd. unfold float_rem. rewrite Zfloat_not_zero.
  rewrite fmod_whole by assumption.
  pose proof (Z.mod_pos_bound n d ltac:(lia)) as Hr.
  destruct (Z.eqb_spec (n mod d) 0) as [E|E].
  - simpl. now rewrite E.
  - rewrite Zfloat_not_zero, !Zfloat_not_negative.
    change (int_of_float (Zfloat (n mod d)) = inr (n mod d)).
    apply int_of_float_Zfloat. lia.
Qed.

Lemma cue_second_fraction_whole n tb :
  0 <= n < 2 ^ 52 -> 1 <= tb <= 10000 ->
  cue_second_fraction (n * 1000000) tb = int_truediv (n mod (tb * 60)) tb.
Proof.
  intros Hn Htb. unfold cue_second_fraction.
  rewrite (timebase_float tb Htb).
  destruct (Z.eq_dec n 0) as [->|Hn0].
  - change (0 * 1000000) with 0. rewrite total_seconds_zero, !bind_inr.
    rewrite Z.mod_0_l by lia. reflexivity.
  - rewrite total_seconds_whole by lia. rewrite !bind_inr.
    pose proof (float_rem_whole n (tb * 60) ltac:(lia) ltac:(lia)) as H.
    destruct (float_rem (Zfloat n) (Zfloat (tb * 60))) as [e|r]; [discriminate|].
    rewrite bind_inr in H. rewrite bind_inr, H. reflexivity.
Qed.

Lemma canon_not_zero v e : is_zero (canon v e) = false.
Proof. reflexivity. Qed.

Lemma canon_not_negative v e : is_negative (canon v e) = false.
Proof. reflexivity. Qed.

Lemma float_mul_75 R w :
  0 < R < 2 ^ 53 -> 52 <= w <= 80 ->
  exists g, float_mul (canon R (- w + 0)) (Zfloat 75) = g /\ rounds g (75 * R) (2 ^ w).
Proof.
  intros HR Hw.
  destruct (Zdigits2_bounds R) as (Hd1 & Hd2 & Hd3); [lia|].
  assert (Hd53 : Zdigits2 R <= 53) by (apply Zdigits2_le; lia).
  destruct (canon_mantissa R HR) as (HA & HdA & HpA).
  set (s := w + 99 - Zdigits2 R).
  assert (Hs : 1 <= s <= 1000) by (unfold s; lia).
  assert (Hpw : 0 < 2 ^ w) by (apply Z.pow_pos_nonneg; lia).
  assert (Hpt : 0 < 2 ^ (99 - Zdigits2 R)) by (apply Z.pow_pos_nonneg; lia).
  assert (Hq0 : 75 * R * 2 ^ s / 2 ^ w = 75 * R * 2 ^ (99 - Zdigits2 R)).
  { replace (2 ^ s) with (2 ^ (99 - Zdigits2 R) * 2 ^ w)
      by (rewrite <- pow2_split by lia; f_equal; unfold s; lia).
    rewrite Z.mul_assoc. apply Z.div_mul. lia. }
  assert (Hprod : R * 2 ^ (53 - Zdigits2 R) * 5277655813324800
                  = 75 * R * 2 ^ (99 - Zdigits2 R)).
  { change 5277655813324800 with (75 * 2 ^ 46).
    replace (99 - Zdigits2 R) with (53 - Zdigits2 R + 46) by lia.
    rewrite pow2_split by lia. lia. }
  unfold float_mul, canon at 1.
  change (Zfloat 75) with (S754_finite false 5277655813324800 (-46)).
  unfold SFmul. simpl xorb.
  rewrite Pos2Z.inj_mul, HpA, Hprod, <- Hq0.
  replace (- w + 0 - (53 - Zdigits2 R) + -46) with (- s) by (unfold s; lia).
  assert (H52 : 2 ^ 52 <= 75 * R * 2 ^ s / 2 ^ w).
  { rewrite Hq0. rewrite <- Hprod.
    set (A := R * 2 ^ (53 - Zdigits2 R)) in *.
    assert (2 ^ 52 <= A).
    { destruct (Zdigits2_bounds A HA) as (_ & H & _). now rewrite HdA in H. }
    lia. }
  assert (Hdig : Zdigits2 (75 * R * 2 ^ s / 2 ^ w) <= 53 + s).
  { rewrite Hq0. rewrite Zdigits2_shift by lia.
    assert (Zdigits2 (75 * R) <= Zdigits2 R + 7); [|unfold s; lia].
    apply Zdigits2_le; [|lia]. rewrite pow2_split by lia.
    change (2 ^ 7) with 128. lia. }
  destruct (bra_quotient (75 * R) (2 ^ w) s loc_Exact ltac:(lia) Hpw Hs H52 Hdig
              ltac:(auto)) as (g & Hg & Hr).
  exists g. split; [exact Hg|exact Hr].
Qed.

Lemma frames_of_spec (m : positive) e :
  2 ^ 52 <= Zpos m < 2 ^ 53 -> -80 <= e <= -1 ->
  let Y := (Zpos m * 2 ^ (e + 80)) mod 2 ^ 80 in
  let F := 75 * Y / 2 ^ 80 in
  exists fr, frames_of (S754_finite false m e) = inr fr /\
    (fr = F \/ (fr = F + 1 /\ 2 ^ 52 * ((F + 1) * 2 ^ 80 - 75 * Y) <= 75 * Y)).
Proof.
  intros Hm He Y F.
  set (w := - Z.min e (-52)).
  assert (Hw : 52 <= w <= 80) by (unfold w; lia).
  assert (Hew : 0 <= e + w) by (unfold w; lia).
  assert (Hpw : 0 < 2 ^ w) by (apply Z.pow_pos_nonneg; lia).
  assert (Hpt : 0 < 2 ^ (80 - w)) by (apply Z.pow_pos_nonneg; lia).
  assert (Hpe : 0 < 2 ^ (e + w)) by (apply Z.pow_pos_nonneg; lia).
  set (R := (Zpos m * 2 ^ (e + w)) mod 2 ^ w).
  assert (HR : 0 <= R < 2 ^ w) by (apply Z.mod_pos_bound; lia).
  assert (HR53 : R < 2 ^ 53).
  { destruct (Z.le_gt_cases e (-52)).
    - assert (e + w = 0) by (unfold w; lia).
      assert (R <= Zpos m * 2 ^ (e + w)) by (apply Z.mod_le; lia).
      replace (e + w) with 0 in * by lia. lia.
    - assert (w = 52) by (unfold w; lia).
      assert (2 ^ w < 2 ^ 53) by (apply Z.pow_lt_mono_r; lia). lia. }
  assert (HY : Y = R * 2 ^ (80 - w)).
  { unfold Y, R.
    replace (2 ^ (e + 80)) with (2 ^ (e + w) * 2 ^ (80 - w))
      by (rewrite <- pow2_split by lia; f_equal; lia).
    replace (2 ^ 80) with (2 ^ w * 2 ^ (80 - w))
      by (rewrite <- pow2_split by lia; f_equal; lia).
    rewrite Z.mul_assoc. apply Z.mul_mod_distr_r; lia. }
  assert (HF : F = 75 * R / 2 ^ w).
  { unfold F. rewrite HY.
    replace (2 ^ 80) with (2 ^ w * 2 ^ (80 - w))
      by (rewrite <- pow2_split by lia; f_equal; lia).
    rewrite Z.mul_assoc. apply Z.div_mul_cancel_r; lia. }
  unfold frames_of. rewrite (float_of_int_pos 1) by lia. rewrite bind_inr.
  change (Zfloat 1) with (S754_finite false 4503599627370496 (-52)).
  unfold float_rem. simpl is_zero. cbv iota.
  unfold fmod.
  replace (e - Z.min e (-52)) with (e + w) by (unfold w; lia).
  replace (-52 - Z.min e (-52)) with (w - 52) by (unfold w; lia).
  replace (Z.min e (-52)) with (- w) by (unfold w; lia).
  replace (Zpos 4503599627370496 * 2 ^ (w - 52)) with (2 ^ w)
    by (change (Zpos 4503599627370496) with (2 ^ 52);
        rewrite <- pow2_split by lia; f_equal; lia).
  fold R. simpl cond_Zopp. simpl sign_bit.
  destruct (Z.eq_dec R 0) as [HR0|HR0].
  - rewrite HR0.
    change (binary_normalize prec emax 0 (- w) false) with (S754_zero false).
    simpl is_zero. cbv iota.
    exists 0. split; [reflexivity|]. left.
    rewrite HF, HR0. reflexivity.
  - assert (HdR : 1 <= Zdigits2 R <= 53).
    { destruct (Zdigits2_bounds R) as (H1 & _); [lia|].
      split; [lia|]. apply Zdigits2_le; lia. }
    assert (Hbn : binary_normalize prec emax R (- w) false = canon R (- w + 0)).
    { rewrite <- (bn_exact R 0 (- w)) by lia.
      now rewrite Z.pow_0_r, Z.mul_1_r. }
    rewrite Hbn.
    rewrite canon_not_zero, canon_not_negative.
    change (is_negative (S754_finite false 4503599627370496 (-52))) with false.
    simpl xorb. cbv iota.
    change (mret (canon R (- w + 0)) ≫=
            (fun f => float_of_int 75 ≫= fun c => int_of_float (float_mul f c)))
      with (float_of_int 75 ≫=
            fun c => int_of_float (float_mul (canon R (- w + 0)) c)).
    rewrite (float_of_int_pos 75) by lia. rewrite bind_inr.
    destruct (float_mul_75 R w ltac:(lia) Hw) as (g & -> & Hg).
    destruct (trunc_rounds g (75 * R) (2 ^ w) Hg ltac:(lia) Hpw)
      as (T & -> & HT).
    exists T. split; [reflexivity|].
    rewrite HF. destruct HT as [->|[-> Hnear]]; [now left|right].
    split; [reflexivity|]. rewrite HY.
    replace (2 ^ 80) with (2 ^ w * 2 ^ (80 - w))
      by (rewrite <- pow2_split by lia; f_equal; lia).
    set (K := 75 * R / 2 ^ w) in *. nia.
Qed.

Lemma pow2_lt_inv j k : 0 <= k -> 2 ^ j < 2 ^ k -> j < k.
Proof.
  intros Hk H. destruct (Z.le_gt_cases k j); [|assumption].
  assert (2 ^ k <= 2 ^ j) by (apply Z.pow_le_mono_r; lia). lia.
Qed.

(** The quotient [r / tb] of the seconds computation, in units of [2^-80]. *)
Lemma second_fraction_spec tb r :
  1 <= tb <= 10000 -> 0 < r < 60 * tb ->
  exists (m : positive) e,
    int_truediv r tb = inr (S754_finite false m e) /\
    2 ^ 52 <= Zpos m < 2 ^ 53 /\ -80 <= e <= -1 /\
    tb * (Zpos m * 2 ^ (e + 80)) <= r * 2 ^ 80 + tb * 2 ^ 33 /\
    r * 2 ^ 80 < tb * (Zpos m * 2 ^ (e + 80)) + tb * 2 ^ 33.
Proof.
  intros Htb Hr.
  assert (Hb : 0 < tb < 2 ^ 900).
  { split; [lia|]. apply Z.lt_trans with (2 ^ 14); [lia|].
    apply Z.pow_lt_mono_r; lia. }
  destruct (int_truediv_rounds r tb) as (f & Hf & Hrd); [lia|exact Hb|lia|].
  destruct (rounds_scaled f r tb Hrd) as (m & e & j & -> & Hj & He & Hm & Hlow & Hle & Hgt);
    [lia|lia|].
  exists m, e. split; [exact Hf|]. split; [exact Hm|].
  assert (Hpj : 0 < 2 ^ j) by (apply Z.pow_pos_nonneg; lia).
  assert (Hej : 0 <= e + j <= 1) by lia.
  assert (Hv : Zpos m <= Zpos m * 2 ^ (e + j) <= 2 * Zpos m).
  { destruct (Z.eq_dec (e + j) 0) as [->|]; [rewrite Z.pow_0_r; lia|].
    replace (e + j) with 1 by lia. rewrite Z.pow_1_r. lia. }
  set (v := Zpos m * 2 ^ (e + j)) in *.
  assert (Hj47 : 47 <= j).
  { destruct (Z.le_gt_cases 47 j); [assumption|].
    assert (2 ^ j <= 2 ^ 46) by (apply Z.pow_le_mono_r; lia).
    assert (2 ^ 52 * tb < 60 * tb * 2 ^ j) by nia.
    assert (60 * 2 ^ j < 2 ^ 52) by lia. nia. }
  assert (Hj67 : j <= 67).
  { assert (2 ^ j < 2 ^ 68); [|apply pow2_lt_inv in H; lia].
    assert (r * 2 ^ j < 10000 * (2 ^ 54 + 1)) by nia.
    assert (2 ^ j <= r * 2 ^ j) by nia. lia. }
  split; [lia|].
  assert (Hpt : 0 < 2 ^ (80 - j) <= 2 ^ 33).
  { split; [apply Z.pow_pos_nonneg; lia|apply Z.pow_le_mono_r; lia]. }
  assert (HX : Zpos m * 2 ^ (e + 80) = v * 2 ^ (80 - j)).
  { unfold v. rewrite <- Z.mul_assoc, <- pow2_split by lia. f_equal. f_equal. lia. }
  assert (H80 : 2 ^ 80 = 2 ^ j * 2 ^ (80 - j)).
  { rewrite <- pow2_split by lia. f_equal. lia. }
  rewrite HX, H80. set (t := 2 ^ (80 - j)) in *. set (J := 2 ^ j) in *.
  clearbody t J v. split; nia.
Qed.

(** The order of two timestamps within the same minute. *)
Lemma seconds_frames_mono tb r1 r2 X1 X2 fr1 fr2 :
  1 <= tb <= 10000 -> 0 < r1 < r2 -> r2 < 60 * tb ->
  tb * X1 <= r1 * 2 ^ 80 + tb * 2 ^ 33 ->
  r2 * 2 ^ 80 < tb * X2 + tb * 2 ^ 33 ->
  0 <= X1 ->
  (fr1 = 75 * (X1 mod 2 ^ 80) / 2 ^ 80 \/
   (fr1 = 75 * (X1 mod 2 ^ 80) / 2 ^ 80 + 1 /\
    2 ^ 52 * ((75 * (X1 mod 2 ^ 80) / 2 ^ 80 + 1) * 2 ^ 80 - 75 * (X1 mod 2 ^ 80))
    <= 75 * (X1 mod 2 ^ 80))) ->
  75 * (X2 mod 2 ^ 80) / 2 ^ 80 <= fr2 ->
  X1 / 2 ^ 80 < X2 / 2 ^ 80 \/ (X1 / 2 ^ 80 = X2 / 2 ^ 80 /\ fr1 <= fr2).
Proof.
  intros Htb Hr1 Hr2 H1 H2 HX1 Hfr1 Hfr2.
  assert (Hgap : X1 + 2 ^ 65 < X2).
  { assert (tb * 2 ^ 33 <= 2 ^ 47) by lia.
    assert (tb * X1 + 2 ^ 79 < tb * X2) by lia.
    assert (tb * 2 ^ 65 <= 2 ^ 79) by lia. nia. }
  clear H1 H2 Hr1 Hr2 Htb.
  pose proof (Z.div_mod X1 (2 ^ 80) ltac:(lia)) as E1.
  pose proof (Z.mod_pos_bound X1 (2 ^ 80) ltac:(lia)) as B1.
  pose proof (Z.div_mod X2 (2 ^ 80) ltac:(lia)) as E2.
  pose proof (Z.mod_pos_bound X2 (2 ^ 80) ltac:(lia)) as B2.
  set (S1 := X1 / 2 ^ 80) in *. set (Y1 := X1 mod 2 ^ 80) in *.
  set (S2 := X2 / 2 ^ 80) in *. set (Y2 := X2 mod 2 ^ 80) in *.
  pose proof (Z.div_mod (75 * Y1) (2 ^ 80) ltac:(lia)) as E3.
  pose proof (Z.mod_pos_bound (75 * Y1) (2 ^ 80) ltac:(lia)) as B3.
  pose proof (Z.div_mod (75 * Y2) (2 ^ 80) ltac:(lia)) as E4.
  pose proof (Z.mod_pos_bound (75 * Y2) (2 ^ 80) ltac:(lia)) as B4.
  set (F1 := 75 * Y1 / 2 ^ 80) in *. set (Q1 := (75 * Y1) mod 2 ^ 80) in *.
  set (F2 := 75 * Y2 / 2 ^ 80) in *. set (Q2 := (75 * Y2) mod 2 ^ 80) in *.
  clearbody S1 Y1 S2 Y2 F1 Q1 F2 Q2.
  change (2 ^ 65) with 36893488147419103232 in *.
  change (2 ^ 80) with 1208925819614629174706176 in *.
  change (2 ^ 52) with 4503599627370496 in *.
  destruct (Z.lt_trichotomy S1 S2) as [Hlt|[Heq|Hgt]]; [now left| |nia].
  right. split; [exact Heq|].
  destruct Hfr1 as [->|[-> Hnear]]; nia.
Qed.

Lemma sec_frames_zero tb : 1 <= tb -> sec_frames tb 0 = inr (0, 0).
Proof.
  intros Htb. unfold sec_frames, int_truediv.
  destruct (Z.eqb_spec tb 0); [lia|]. simpl (0 =? 0). cbv iota.
  destruct (Z.ltb_spec tb 0); [lia|]. reflexivity.
Qed.

Lemma sec_frames_spec tb r :
  1 <= tb <= 10000 -> 0 < r < 60 * tb ->
  exists X fr,
    sec_frames tb r = inr (X / 2 ^ 80, fr) /\ 0 <= X /\
    tb * X <= r * 2 ^ 80 + tb * 2 ^ 33 /\
    r * 2 ^ 80 < tb * X + tb * 2 ^ 33 /\
    (fr = 75 * (X mod 2 ^ 80) / 2 ^ 80 \/
     (fr = 75 * (X mod 2 ^ 80) / 2 ^ 80 + 1 /\
      2 ^ 52 * ((75 * (X mod 2 ^ 80) / 2 ^ 80 + 1) * 2 ^ 80 - 75 * (X mod 2 ^ 80))
      <= 75 * (X mod 2 ^ 80))).
Proof.
  intros Htb Hr.
  destruct (second_fraction_spec tb r Htb Hr) as (m & e & Hx & Hm & He & H1 & H2).
  destruct (frames_of_spec m e Hm He) as (fr & Hfr & Hcase).
  exists (Zpos m * 2 ^ (e + 80)), fr.
  assert (0 < 2 ^ (e + 80)) by (apply Z.pow_pos_nonneg; lia).
  split; [|split; [lia|split; [exact H1|split; [exact H2|exact Hcase]]]].
  unfold sec_frames. rewrite Hx, bind_inr.
  rewrite int_of_float_scaled by lia. rewrite bind_inr, Hfr. reflexivity.
Qed.

Lemma frames_lower_bound X fr :
  0 <= X ->
  (fr = 75 * (X mod 2 ^ 80) / 2 ^ 80 \/
   (fr = 75 * (X mod 2 ^ 80) / 2 ^ 80 + 1 /\
    2 ^ 52 * ((75 * (X mod 2 ^ 80) / 2 ^ 80 + 1) * 2 ^ 80 - 75 * (X mod 2 ^ 80))
    <= 75 * (X mod 2 ^ 80))) ->
  0 <= X / 2 ^ 80 /\ 0 <= 75 * (X mod 2 ^ 80) / 2 ^ 80 <= fr.
Proof.
  intros HX Hfr.
  pose proof (Z.mod_pos_bound X (2 ^ 80) ltac:(lia)) as B.
  assert (0 <= X / 2 ^ 80) by (apply Z.div_pos; lia).
  assert (0 <= 75 * (X mod 2 ^ 80) / 2 ^ 80) by (apply Z.div_pos; lia).
  destruct Hfr as [->|[-> _]]; lia.
Qed.

Lemma sec_frames_mono tb r1 r2 :
  1 <= tb <= 10000 -> 0 <= r1 <= r2 -> r2 < 60 * tb ->
  exists s1 f1 s2 f2,
    sec_frames tb r1 = inr (s1, f1) /\ sec_frames tb r2 = inr (s2, f2) /\
    (s1 < s2 \/ (s1 = s2 /\ f1 <= f2)).
Proof.
  intros Htb Hr1 Hr2.
  destruct (Z.eq_dec r1 r2) as [<-|Hne].
  - destruct (Z.eq_dec r1 0) as [->|Hr0].
    + exists 0, 0, 0, 0. rewrite sec_frames_zero by lia. repeat split; lia.
    + destruct (sec_frames_spec tb r1 Htb ltac:(lia)) as (X & fr & H & _).
      exists (X / 2 ^ 80), fr, (X / 2 ^ 80), fr. repeat split; try assumption. lia.
  - destruct (sec_frames_spec tb r2 Htb ltac:(lia))
      as (X2 & fr2 & Hs2 & HX2 & H2a & H2b & Hfr2).
    destruct (frames_lower_bound X2 fr2 HX2 Hfr2) as (Hsec2 & HF2 & Hlow2).
    destruct (Z.eq_dec r1 0) as [->|Hr0].
    + exists 0, 0, (X2 / 2 ^ 80), fr2. rewrite sec_frames_zero by lia.
      split; [reflexivity|]. split; [exact Hs2|]. lia.
    + destruct (sec_frames_spec tb r1 Htb ltac:(lia))
        as (X1 & fr1 & Hs1 & HX1 & H1a & H1b & Hfr1).
      exists (X1 / 2 ^ 80), fr1, (X2 / 2 ^ 80), fr2.
      split; [exact Hs1|]. split; [exact Hs2|].
      apply (seconds_frames_mono tb r1 r2 X1 X2 fr1 fr2); try assumption; lia.
Qed.

Lemma cue_timestamp_whole n tb :
  0 <= n < 2 ^ 52 -> 1 <= tb <= 10000 ->
  cue_timestamp (n * 1000000) tb =
    (sf ← sec_frames tb (n mod (tb * 60)); mret (n / (tb * 60), sf.1, sf.2)).
Proof.
  intros Hn Htb. unfold cue_timestamp, cue_seconds.
  change (cue_frames (n * 1000000) tb)
    with (cue_second_fraction (n * 1000000) tb ≫= frames_of).
  rewrite cue_minutes_whole, cue_second_fraction_whole by assumption.
  rewrite bind_inr. unfold sec_frames.
  destruct (int_truediv (n mod (tb * 60)) tb) as [err|x]; [reflexivity|].
  rewrite !bind_inr.
  destruct (int_of_float x) as [err|s]; [reflexivity|]. rewrite !bind_inr.
  destruct (frames_of x) as [err|f]; reflexivity.
Qed.

(** Timestamps at a common time base grow with the accumulated time. *)
Lemma cue_timestamp_mono n1 n2 tb :
  0 <= n1 <= n2 -> n2 < 2 ^ 52 -> 1 <= tb <= 10000 ->
  exists t1 t2,
    cue_timestamp (n1 * 1000000) tb = inr t1 /\
    cue_timestamp (n2 * 1000000) tb = inr t2 /\
    timestamp_le t1 t2.
Proof.
  intros Hn1 Hn2 Htb.
  rewrite !cue_timestamp_whole by lia.
  set (d := tb * 60).
  pose proof (Z.div_mod n1 d ltac:(lia)) as E1.
  pose proof (Z.mod_pos_bound n1 d ltac:(lia)) as B1.
  pose proof (Z.div_mod n2 d ltac:(lia)) as E2.
  pose proof (Z.mod_pos_bound n2 d ltac:(lia)) as B2.
  destruct (Z.lt_trichotomy (n1 / d) (n2 / d)) as [Hlt|[Heq|Hgt]]; [| |nia].
  - destruct (sec_frames_mono tb (n1 mod d) (n1 mod d)) as (s1 & f1 & _ & _ & -> & _);
      [lia|lia|unfold d in *; lia|].
    destruct (sec_frames_mono tb (n2 mod d) (n2 mod d)) as (s2 & f2 & _ & _ & -> & _);
      [lia|lia|unfold d in *; lia|].
    eexists _, _. split; [reflexivity|]. split; [reflexivity|].
    left. exact Hlt.
  - destruct (sec_frames_mono tb (n1 mod d) (n2 mod d))
      as (s1 & f1 & s2 & f2 & -> & -> & Hle); [lia|nia|unfold d in *; lia|].
    eexists _, _. split; [reflexivity|]. split; [reflexivity|].
    right. split; [exact Heq|exact Hle].
Qed.

Lemma chapter_tracks_reports cs ds :
  Forall2 reports cs ds ->
  chapter_tracks cs =
    cue_loop 0 0 ((fun d => (d.1.1, d.1.2, clamp_timebase d.2)) <$> ds).
Proof.
  intros H. unfold chapter_tracks. rewrite (chapter_loop_reports _ _ _ H). simpl.
  unfold cue_tracks. now rewrite zip3_fmap.
Qed.

Lemma timedelta_max_whole n : 0 <= n -> n * 1000000 <= timedelta_max -> n < 2 ^ 52.
Proof. unfold timedelta_max. intros H0 H. lia. Qed.

Lemma timedelta_add_whole n s :
  0 <= n -> 0 <= s -> n * 1000000 + s * 1000000 <= timedelta_max ->
  timedelta_add (n * 1000000) (s * 1000000) = inr ((n + s) * 1000000).
Proof.
  intros Hn Hs H. unfold timedelta_add, timedelta_of_us.
  assert (Hmin : timedelta_min <= 0) by (unfold timedelta_min; lia).
  destruct (Z.leb_spec timedelta_min (n * 1000000 + s * 1000000)); [|lia].
  destruct (Z.leb_spec (n * 1000000 + s * 1000000) timedelta_max); [|lia].
  simpl. f_equal. lia.
Qed.

Lemma timedelta_seconds_whole x t : timedelta_seconds x = inr t -> t = x * 1000000.
Proof.
  unfold timedelta_seconds, timedelta_of_us.
  destruct (_ && _); [|discriminate]. now intros [= <-].
Qed.

(** The loop of the timing engine at a common time base. *)
Lemma cue_loop_common tb tracks : forall k n,
  1 <= tb <= 10000 -> 0 <= n ->
  Forall (fun tr => tr.2 = tb /\ exists s, 0 <= s /\ tr.1.2 = s * 1000000) tracks ->
  n * 1000000 + total_duration tracks.*1.*2 <= timedelta_max ->
  exists trs,
    cue_loop k (n * 1000000) tracks = inr trs /\
    length trs = length tracks /\
    nondecreasing (timestamp_of <$> trs) /\
    match trs with
    | tr :: _ => cue_timestamp (n * 1000000) tb = inr (timestamp_of tr)
    | [] => True
    end.
Proof.
  induction tracks as [|[[name time] tb'] rest IH]; intros k n Htb Hn Hall Hsum.
  - exists []. repeat split.
  - apply Forall_cons in Hall as [(Htb' & s & Hs & Htime) Hall].
    simpl in Htb', Htime. subst tb' time.
    rewrite !fmap_cons in Hsum. unfold total_duration in Hsum.
    cbn [foldr fst snd] in Hsum. fold (total_duration rest.*1.*2) in Hsum.
    assert (Hrest : 0 <= total_duration rest.*1.*2).
    { clear -Hall. unfold total_duration.
      induction Hall as [|tr l (_ & s & Hs & Ht) _ IHl]; [simpl; lia|].
      rewrite !fmap_cons. cbn [foldr]. lia. }
    destruct (cue_timestamp_mono n (n + s) tb) as (t1 & t2 & Ht1 & Ht2 & Hle);
      [lia|apply timedelta_max_whole; lia|exact Htb|].
    destruct (IH (k + 1) (n + s) Htb ltac:(lia) Hall ltac:(lia))
      as (trs & Hloop & Hlen & Hnd & Hhead).
    destruct t1 as [[m1 s1] f1].
    exists (CueTrack k name m1 s1 f1 :: trs).
    split; [|split; [simpl; now rewrite Hlen|split; [|exact Ht1]]].
    + cbn [cue_loop]. rewrite Ht1, bind_inr. cbn beta iota.
      rewrite timedelta_add_whole by lia. rewrite bind_inr, Hloop. reflexivity.
    + destruct trs as [|tr trs]; [exact I|].
      split; [|exact Hnd].
      rewrite Ht2 in Hhead. injection Hhead as <-. exact Hle.
Qed.

Lemma clamp_timebase_le x : clamp_timebase x <= 10000.
Proof. unfold clamp_timebase. destruct (Z.ltb_spec 10000 x); lia. Qed.

(** C2, as amended: for chapters that all parse, with non-negative
    durations and one common positive time base after clamping, whose
    total duration fits a [timedelta], the timing engine returns one
    track per chapter and the timestamps are non-decreasing from the
    first track to the last. *)
Theorem timestamps_nondecreasing_common_timebase
    (cs : list chapter) (ds : list (string * timedelta * Z)) (tb : Z) :
  Forall2 reports cs ds ->
  Forall (fun d => 0 <= d.1.2 /\ clamp_timebase d.2 = tb) ds ->
  0 < tb ->
  total_duration ds.*1.*2 <= timedelta_max ->
  exists trs,
    chapter_tracks cs = inr trs /\
    length trs = length cs /\
    nondecreasing (timestamp_of <$> trs).
Proof.
  intros Hrep Hall Htb Hsum.
  rewrite (chapter_tracks_reports _ _ Hrep).
  destruct ds as [|d0 ds0] eqn:Hds.
  { apply Forall2_nil_inv_r in Hrep. subst cs. exists []. repeat split. }
  rewrite <- Hds in *.
  assert (Htb' : 1 <= tb <= 10000).
  { split; [lia|]. rewrite Hds in Hall. apply Forall_cons in Hall as [[_ <-] _].
    apply clamp_timebase_le. }
  set (tracks := (fun d => (d.1.1, d.1.2, clamp_timebase d.2)) <$> ds).
  assert (Htimes : tracks.*1.*2 = ds.*1.*2).
  { unfold tracks. clear. induction ds as [|d ds IH]; [reflexivity|].
    rewrite !fmap_cons. simpl. f_equal. exact IH. }
  destruct (cue_loop_common tb tracks 0 0 Htb' ltac:(lia))
    as (trs & Hloop & Hlen & Hnd & _).
  - unfold tracks. clear -Hrep Hall. revert cs Hrep.
    induction Hall as [|d ds (Hd & Hc) _ IH]; intros cs Hrep; [constructor|].
    apply Forall2_cons_inv_r in Hrep as (c & cs' & Hc0 & Hrep & ->).
    rewrite fmap_cons. constructor; [|now apply (IH cs')].
    cbn [fst snd]. split; [exact Hc|].
    destruct Hc0 as (_ & e & s & dt & _ & _ & Ht & _).
    apply timedelta_seconds_whole in Ht.
    exists (e - s). destruct d as [[n t] b]. cbn [fst snd] in *.
    unfold timedelta in *. split; [lia|exact Ht].
  - change (0 * 1000000 + total_duration tracks.*1.*2 <= timedelta_max).
    rewrite Htimes. exact Hsum.
  - exists trs. split; [exact Hloop|]. split; [|exact Hnd].
    rewrite Hlen. unfold tracks. rewrite length_fmap.
    symmetry. now apply Forall2_length in Hrep.
Qed.

Lemma timestamps_nondecreasing_common_timebase_witness :
  exists trs,
    chapter_tracks
      [probed_chapter "One" 0 90500 "1/1000";
       probed_chapter "Two" 90500 180000 "1/48000"]%string
    = inr trs /\
    length trs = 2%nat /\
    nondecreasing (timestamp_of <$> trs).
Proof.
  apply (timestamps_nondecreasing_common_timebase
           [probed_chapter "One" 0 90500 "1/1000";
            probed_chapter "Two" 90500 180000 "1/48000"]%string
           [("One", 90500000000, 1000); ("Two", 89500000000, 48000)]%string
           1000).
  - repeat constructor; simpl; eexists _, _, _; repeat split; reflexivity.
  - repeat constructor; simpl; lia.
  - lia.
  - vm_compute. discriminate.
Defined.

(** C2 as worded fails: with time bases 1, 1 and 1000 the third track is
    stamped 00:00:15 after a second track at 01:40:00. *)
Lemma timestamps_nondecreasing_fails :
  ~ timestamps_nondecreasing mixed_timebase_chapters.
Proof.
  intros H.
  specialize (H [("One", 100000000, 1); ("Two", 100000000, 1);
                 ("Three", 60000000000, 1000)]%string
                [CueTrack 0 "One" 0 0 0; CueTrack 1 "Two" 1 40 0;
                 CueTrack 2 "Three" 0 0 15]).
  assert (H1 : Forall2 reports mixed_timebase_chapters
                 [("One", 100000000, 1); ("Two", 100000000, 1);
                  ("Three", 60000000000, 1000)]%string).
  { repeat constructor; simpl; eexists _, _, _; repeat split; reflexivity. }
  assert (H2 : Forall (fun d : string * timedelta * Z =>
                         0 <= d.1.2 /\ 0 < clamp_timebase d.2)
                 [("One", 100000000, 1); ("Two", 100000000, 1);
                  ("Three", 60000000000, 1000)]%string).
  { repeat constructor; simpl; lia. }
  specialize (H H1 H2 ltac:(vm_compute; reflexivity)).
  simpl in H. unfold timestamp_le in H. simpl in H. lia.
Qed.

(** * Further properties *)

(** ** Tag lookup of [book_info] *)

Lemma first_tag_none name tags :
  first_tag name tags = None -> no_key_upper name tags.
Proof.
  induction tags as [|[k v] tags IH]; simpl; [constructor|].
  destruct (String.eqb_spec (upper k) name) as [_|Hne]; [discriminate|].
  intros H. constructor; [exact Hne|exact (IH H)].
Qed.

Lemma first_tag_some name tags v :
  first_tag name tags = Some v ->
  exists pre k post,
    tags = pre ++ (k, v) :: post /\ upper k = name /\ no_key_upper name pre.
Proof.
  induction tags as [|[k w] tags IH]; simpl; [discriminate|].
  destruct (String.eqb_spec (upper k) name) as [He|Hne].
  - intros [= ->]. exists [], k, tags. repeat split; [exact He|constructor].
  - intros H. destruct (IH H) as (pre & k' & post & -> & Hk & Hpre).
    exists ((k, w) :: pre), k', post. repeat split; [exact Hk|].
    constructor; [exact Hne|exact Hpre].
Qed.

Lemma tag_by_upper_found name pre k v post :
  upper k = name -> no_key_upper name pre ->
  tag_by_upper (pre ++ (k, v) :: post) name = inr v.
Proof.
  intros Hk Hpre. unfold tag_by_upper.
  assert (Hi : list_index name (upper <$> (pre ++ (k, v) :: post).*1)
               = inr (length pre)).
  { clear -Hk Hpre. induction Hpre as [|[k' v'] pre Hne _ IH]; simpl.
    - destruct (String.eqb_spec (upper k) name); [reflexivity|contradiction].
    - simpl in Hne. destruct (String.eqb_spec (upper k') name); [contradiction|].
      unfold fmap in IH. simpl in IH. rewrite IH. reflexivity. }
  rewrite Hi. simpl.
  assert (Hg : list_getitem (pre ++ (k, v) :: post).*1 (length pre) = inr k).
  { unfold list_getitem. rewrite fmap_app, lookup_app_r by (rewrite length_fmap; lia).
    rewrite length_fmap, Nat.sub_diag. reflexivity. }
  rewrite Hg. simpl.
  clear Hi Hg. induction Hpre as [|[k' v'] pre Hne _ IH]; simpl.
  - now rewrite String.eqb_refl.
  - simpl in Hne. destruct (String.eqb_spec k' k) as [->|_]; [contradiction|].
    exact IH.
Qed.

Lemma tag_by_upper_first_tag tags name :
  tag_by_upper tags name =
    match first_tag name tags with Some v => inr v | None => inl ValueError end.
Proof.
  destruct (first_tag name tags) as [v|] eqn:H.
  - apply first_tag_some in H as (pre & k & post & -> & Hk & Hpre).
    now apply tag_by_upper_found.
  - now apply tag_by_upper_absent, first_tag_none.
Qed.

Lemma title_chain tags file :
  try_except (tag_by_upper tags "ALBUM") ValueError
    (try_except (tag_by_upper tags "TITLE") ValueError
       (mret (splitext (basename file)).1))
  = inr (default (default (stem file) (first_tag "TITLE" tags))
           (first_tag "ALBUM" tags)).
Proof.
  rewrite !tag_by_upper_first_tag.
  destruct (first_tag "ALBUM" tags); [reflexivity|].
  rewrite try_except_caught.
  destruct (first_tag "TITLE" tags); [reflexivity|].
  rewrite try_except_caught. reflexivity.
Qed.

Lemma performer_chain tags :
  try_except (tag_by_upper tags "ARTIST") ValueError
    (try_except (tag_by_upper tags "PERFORMER") ValueError
       (try_except (dict_getitem tags "performer") ValueError
          (mret EmptyString)))
  = match first_tag "ARTIST" tags with
    | Some v => inr v
    | None =>
        match first_tag "PERFORMER" tags with
        | Some v => inr v
        | None => inl KeyError
        end
    end.
Proof.
  rewrite !tag_by_upper_first_tag.
  destruct (first_tag "ARTIST" tags); [reflexivity|].
  rewrite try_except_caught.
  destruct (first_tag "PERFORMER" tags) eqn:Hp; [reflexivity|].
  rewrite try_except_caught.
  rewrite (dict_getitem_performer_absent _ (first_tag_none _ _ Hp)).
  now rewrite try_except_other by discriminate.
Qed.

Lemma book_info_tags tags file :
  book_info (Some tags) file =
    match first_tag "ARTIST" tags with
    | Some v => inr v
    | None =>
        match first_tag "PERFORMER" tags with
        | Some v => inr v
        | None => inl KeyError
        end
    end ≫= fun performer =>
    inr (performer,
         default (default (stem file) (first_tag "TITLE" tags))
           (first_tag "ALBUM" tags)).
Proof.
  unfold book_info.
  change (from_option mret (raise KeyError) (Some tags) ≫= ?f) with (f tags).
  cbv beta. rewrite performer_chain, title_chain. reflexivity.
Qed.

(** X1: the performer is the value of the first tag whose key reads
    ARTIST in any letter case, and without such a tag the value of the
    first one whose key reads PERFORMER; [book_info] then returns. *)
Theorem book_info_performer (tags : dict) (file performer : string) :
  first_tag "ARTIST" tags = Some performer \/
  (first_tag "ARTIST" tags = None /\ first_tag "PERFORMER" tags = Some performer) ->
  exists title, book_info (Some tags) file = inr (performer, title).
Proof.
  intros H. rewrite book_info_tags.
  destruct H as [->|[-> ->]]; eexists; reflexivity.
Qed.

Lemma book_info_performer_witness :
  exists title,
    book_info (Some [("Title", "Dune"); ("PerFormer", "Scott Brick");
                     ("Artist", "Frank Herbert")]%string) "dune.m4b"
    = inr ("Frank Herbert"%string, title).
Proof.
  apply book_info_performer. left. reflexivity.
Defined.

(** X2: the title [book_info] returns is the value of the first tag
    whose key reads ALBUM in any letter case, else of the first one
    whose key reads TITLE, else the name of the file without directory
    and extension. *)
Theorem book_info_title (tags : dict) (file performer title : string) :
  book_info (Some tags) file = inr (performer, title) ->
  title = default (default (stem file) (first_tag "TITLE" tags))
            (first_tag "ALBUM" tags).
Proof.
  rewrite book_info_tags.
  destruct (first_tag "ARTIST" tags);
    [|destruct (first_tag "PERFORMER" tags); [|discriminate]];
    now intros [= _ <-].
Qed.

Lemma book_info_title_witness :
  book_info (Some [("artist", "Frank Herbert")]%string) "books/dune.m4b"
  = inr ("Frank Herbert", "dune")%string /\
  "dune"%string =
  default (default (stem "books/dune.m4b")
             (first_tag "TITLE" [("artist", "Frank Herbert")]%string))
    (first_tag "ALBUM" [("artist", "Frank Herbert")]%string).
Proof.
  split; [reflexivity|].
  apply (book_info_title [("artist", "Frank Herbert")]%string "books/dune.m4b"
           "Frank Herbert"). reflexivity.
Defined.

(** X3: [book_info] raises nothing but [KeyError]: the [ValueError] of
    a failed key search is always caught, and the index found by the
    search is always in range. *)
Theorem book_info_raises_key_error_only (probe_tags : option dict)
    (file : string) (e : exn) :
  book_info probe_tags file = inl e -> e = KeyError.
Proof.
  destruct probe_tags as [tags|]; [|now intros [= <-]].
  rewrite book_info_tags.
  destruct (first_tag "ARTIST" tags);
    [|destruct (first_tag "PERFORMER" tags)]; simpl; try discriminate.
  now intros [= <-].
Qed.

Lemma book_info_raises_key_error_only_witness :
  book_info (Some [("title", "Dune")]%string) "dune.m4b" = inl KeyError /\
  KeyError = KeyError.
Proof.
  split; [reflexivity|].
  apply (book_info_raises_key_error_only (Some [("title", "Dune")]%string)
           "dune.m4b" KeyError). reflexivity.
Defined.

(** ** Names of the outputs *)

Lemma rfind_from_append c a : forall b i last,
  rfind_from c (a +:+ b) i last
  = rfind_from c b (i + String.length a) (rfind_from c a i last).
Proof.
  induction a as [|x a IH]; intros b i last.
  - rewrite append_nil_l. simpl. now rewrite Nat.add_0_r.
  - rewrite append_cons. simpl. rewrite IH. f_equal. lia.
Qed.

Lemma rfind_from_bound c s : forall i last j,
  rfind_from c s i last = Some j ->
  last = Some j \/ (i <= j < i + String.length s)%nat.
Proof.
  induction s as [|x s IH]; intros i last j; simpl.
  - now left.
  - intros H. apply IH in H as [H|H]; [|right; lia].
    destruct (Ascii.eqb x c); [|now left].
    injection H as <-. right. lia.
Qed.

Lemma rfind_bound c s j : rfind c s = Some j -> (j < String.length s)%nat.
Proof.
  intros H. apply rfind_from_bound in H as [H|H]; [discriminate|lia].
Qed.

Lemma substring_append_l a : forall n m b,
  (n + m <= String.length a)%nat ->
  String.substring n m (a +:+ b) = String.substring n m a.
Proof.
  induction a as [|x a IH]; intros n m b H.
  - simpl in H. assert (n = 0 /\ m = 0)%nat as [-> ->] by lia.
    rewrite append_nil_l. now destruct b.
  - rewrite append_cons. destruct n as [|n]; simpl.
    + destruct m as [|m]; [reflexivity|]. f_equal. apply IH. simpl in H. lia.
    + apply IH. simpl in H. lia.
Qed.

Lemma str_take_append a b : str_take (String.length a) (a +:+ b) = a.
Proof.
  unfold str_take. rewrite substring_append_l by lia. apply substring_all.
Qed.

Lemma length_append (a b : string) :
  String.length (a +:+ b) = (String.length a + String.length b)%nat.
Proof.
  induction a as [|x a IH]; [reflexivity|]. rewrite append_cons. simpl. now f_equal.
Qed.

Lemma str_drop_append a b : str_drop (String.length a) (a +:+ b) = b.
Proof.
  unfold str_drop. rewrite length_append.
  replace (String.length a + String.length b - String.length a)%nat
    with (String.length b) by lia.
  induction a as [|x a IH]; [apply substring_all|].
  rewrite append_cons. exact IH.
Qed.

Lemma rfind_append_oga root :
  rfind "." (root +:+ ".oga") = Some (String.length root) /\
  rfind "/" (root +:+ ".oga") = rfind "/" root.
Proof. unfold rfind. rewrite !rfind_from_append. split; reflexivity. Qed.

Lemma basename_append_oga root :
  basename (root +:+ ".oga") = basename root +:+ ".oga".
Proof.
  unfold basename. destruct (rfind_append_oga root) as [_ ->].
  destruct (rfind "/" root) as [i|] eqn:Hi; [|reflexivity].
  apply rfind_bound in Hi. unfold str_drop. rewrite length_append.
  generalize dependent i. induction root as [|x a IH]; intros i Hi.
  - simpl in Hi. lia.
  - rewrite append_cons. simpl in Hi. destruct i as [|i].
    + change (String.substring 1 ?n (String x ?s)) with (String.substring 0 n s).
      simpl String.length.
      replace (S (String.length a) + 4 - 1)%nat with (String.length (a +:+ ".oga"))
        by (rewrite length_append; simpl; lia).
      rewrite substring_all.
      replace (S (String.length a) - 1)%nat with (String.length a) by lia.
      now rewrite substring_all.
    + change (String.substring (S (S i)) ?n (String x ?s))
        with (String.substring (S i) n s).
      simpl String.length.
      replace (S (String.length a) + String.length ".oga" - S (S i))%nat
        with (String.length a + String.length ".oga" - S i)%nat by lia.
      replace (S (String.length a) - S (S i))%nat
        with (String.length a - S i)%nat by lia.
      apply IH. lia.
Qed.

Lemma splitext_append_oga root :
  all_dots (basename root) = false ->
  splitext (root +:+ ".oga") = (root, ".oga"%string).
Proof.
  intros Hdots. unfold splitext.
  destruct (rfind_append_oga root) as [-> ->].
  assert (Hstart : (match rfind "/" root with Some i => S i | None => 0 end
                    <= String.length root)%nat).
  { destruct (rfind "/" root) as [i|] eqn:Hi; [|lia].
    apply rfind_bound in Hi. lia. }
  destruct (Nat.leb_spec (match rfind "/" root with Some i => S i | None => 0 end)
              (String.length root)) as [_|Hbad]; [|lia].
  rewrite substring_append_l by lia.
  assert (Hb : String.substring
                 (match rfind "/" root with Some i => S i | None => 0%nat end)
                 (String.length root
                  - match rfind "/" root with Some i => S i | None => 0%nat end)
                 root = basename root).
  { unfold basename, str_drop. destruct (rfind "/" root); [reflexivity|].
    rewrite Nat.sub_0_r. apply substring_all. }
  rewrite Hb, Hdots. now rewrite str_take_append, str_drop_append.
Qed.

(** X4: for an input whose name without its extension does not end
    in a path component made of dots only, the [.oga] path splits into
    that name and [.oga]: the cue file goes to [<name>.cue] or
    [<name>_oga.cue], and the [FILE] line names [<base>.oga] with the
    format [OGA]. *)
Theorem output_names (file : string) :
  all_dots (basename (splitext file).1) = false ->
  splitext (oga_path file) = ((splitext file).1, ".oga"%string) /\
  canonical_cue_path (oga_path file) = (splitext file).1 +:+ ".cue" /\
  side_cue_path (oga_path file) = (splitext file).1 +:+ "_oga.cue" /\
  file_line (oga_path file) =
    "FILE " +:+ dq +:+ basename (splitext file).1 +:+ ".oga" +:+ dq +:+
    " OGA" +:+ nl.
Proof.
  intros H. unfold canonical_cue_path, side_cue_path, file_line, oga_path.
  rewrite (splitext_append_oga _ H), basename_append_oga.
  repeat split. simpl. now rewrite !append_assoc.
Qed.

Lemma output_names_witness :
  splitext (oga_path "books/dune.v2.m4b") = ("books/dune.v2", ".oga")%string /\
  canonical_cue_path (oga_path "books/dune.v2.m4b") = "books/dune.v2.cue"%string /\
  side_cue_path (oga_path "books/dune.v2.m4b") = "books/dune.v2_oga.cue"%string /\
  file_line (oga_path "books/dune.v2.m4b") =
    "FILE " +:+ dq +:+ "dune.v2" +:+ ".oga" +:+ dq +:+ " OGA" +:+ nl.
Proof.
  apply (output_names "books/dune.v2.m4b"). reflexivity.
Defined.

(** ** The entries of [create_cue_sheet] *)

Lemma zip3_length {A B C} (a : list A) : forall (b : list B) (c : list C),
  length (zip3 a b c) = Nat.min (Nat.min (length a) (length b)) (length c).
Proof.
  induction a as [|x a IH]; intros [|y b] [|z c]; simpl; rewrite ?IH; lia.
Qed.

Lemma zip3_lookup {A B C} (a : list A) : forall (b : list B) (c : list C) i x,
  zip3 a b c !! i = Some x ->
  a !! i = Some x.1.1 /\ b !! i = Some x.1.2 /\ c !! i = Some x.2.
Proof.
  induction a as [|x0 a IH]; intros [|y b] [|z c] i x; simpl; try discriminate.
  destruct i as [|i]; simpl; [now intros [= <-]|apply IH].
Qed.

Lemma zip3_take_times {A B C} (a : list A) : forall (b : list B) (c : list C) i,
  (i <= length (zip3 a b c))%nat ->
  take i (zip3 a b c).*1.*2 = take i b.
Proof.
  induction a as [|x0 a IH]; intros [|y b] [|z c] i; simpl; intros Hi;
    try (assert (i = 0%nat) as -> by lia; reflexivity).
  destruct i as [|i]; [reflexivity|]. simpl. f_equal. apply IH. lia.
Qed.

Lemma timedelta_add_value a b c : timedelta_add a b = inr c -> c = a + b.
Proof.
  unfold timedelta_add, timedelta_of_us.
  destruct (_ && _); [|discriminate]. now intros [= <-].
Qed.

Lemma cue_loop_cons k acc name time tb rest trs :
  cue_loop k acc ((name, time, tb) :: rest) = inr trs ->
  exists m s f trs',
    cue_timestamp acc tb = inr (m, s, f) /\
    timedelta_add acc time = inr (acc + time) /\
    cue_loop (k + 1) (acc + time) rest = inr trs' /\
    trs = CueTrack k name m s f :: trs'.
Proof.
  simpl.
  destruct (cue_timestamp acc tb) as [e|[[m sec] fr]]; [discriminate|]. simpl.
  destruct (timedelta_add acc time) as [e|acc'] eqn:Ha; [discriminate|]. simpl.
  destruct (cue_loop (k + 1) acc' rest) as [e|trs'] eqn:E; [discriminate|].
  simpl. intros [= <-]. pose proof (timedelta_add_value _ _ _ Ha) as ->.
  now exists m, sec, fr, trs'.
Qed.

Lemma cue_loop_tracks tracks : forall k acc trs,
  cue_loop k acc tracks = inr trs ->
  length trs = length tracks /\
  forall i tr, trs !! i = Some tr ->
    exists x, tracks !! i = Some x /\
      tr_name tr = x.1.1 /\
      cue_timestamp (acc + total_duration (take i tracks.*1.*2)) x.2
      = inr (timestamp_of tr).
Proof.
  induction tracks as [|[[name time] tb] rest IH]; intros k acc trs H.
  - simpl in H. injection H as <-. split; [reflexivity|]. intros i tr Hi.
    now rewrite lookup_nil in Hi.
  - apply cue_loop_cons in H as (m & s & f & trs' & Hts & _ & Hloop & ->).
    destruct (IH _ _ _ Hloop) as [Hlen Hall].
    split; [simpl; now rewrite Hlen|].
    intros [|i] tr Hi.
    + injection Hi as <-. eexists. split; [reflexivity|]. split; [reflexivity|].
      simpl. now rewrite Z.add_0_r.
    + destruct (Hall _ _ Hi) as (x & Hx & Hn & Ht).
      exists x. split; [exact Hx|]. split; [exact Hn|].
      rewrite <- Ht. f_equal. unfold total_duration.
      rewrite !fmap_cons. cbn [fst snd take foldr]. lia.
Qed.

(** X5: the generator yields as many entries as the shortest of its
    three lists has elements; entry [i] is numbered [i], counting from
    zero, and carries [names[i]]. *)
Theorem cue_tracks_entries (names : list string) (track_times : list timedelta)
    (timebases : list Z) (start_time : timedelta) (trs : list cue_track) :
  cue_tracks names track_times timebases start_time = inr trs ->
  length trs
  = Nat.min (Nat.min (length names) (length track_times)) (length timebases) /\
  forall i tr, trs !! i = Some tr ->
    tr_index tr = Z.of_nat i /\ names !! i = Some (tr_name tr).
Proof.
  unfold cue_tracks. intros H.
  destruct (cue_loop_tracks _ _ _ _ H) as [Hlen Hall].
  split; [now rewrite Hlen, zip3_length|].
  intros i tr Hi. split; [apply (cue_loop_index _ _ _ _ _ _ H Hi)|].
  destruct (Hall _ _ Hi) as (x & Hx & -> & _).
  now apply zip3_lookup in Hx as (Hn & _).
Qed.

Lemma cue_tracks_entries_witness :
  length [CueTrack 0 "One" 0 0 0; CueTrack 1 "Two" 0 5 0]
  = Nat.min (Nat.min (length ["One"; "Two"; "Three"]%string)
               (length [5000000; 7000000])) (length [1; 1; 1]) /\
  forall i tr,
    [CueTrack 0 "One" 0 0 0; CueTrack 1 "Two" 0 5 0] !! i = Some tr ->
    tr_index tr = Z.of_nat i /\
    ["One"; "Two"; "Three"]%string !! i = Some (tr_name tr).
Proof.
  apply (cue_tracks_entries ["One"; "Two"; "Three"]%string [5000000; 7000000]
           [1; 1; 1] 0).
  vm_compute. reflexivity.
Defined.

(** X6: the timestamp of entry [i] is computed from the start time
    plus the times of the tracks before it, with the time base of entry
    [i] alone. *)
Theorem cue_tracks_accumulate (names : list string)
    (track_times : list timedelta) (timebases : list Z)
    (start_time : timedelta) (trs : list cue_track)
    (i : nat) (tr : cue_track) (timebase : Z) :
  cue_tracks names track_times timebases start_time = inr trs ->
  trs !! i = Some tr ->
  timebases !! i = Some timebase ->
  cue_timestamp (start_time + total_duration (take i track_times)) timebase
  = inr (timestamp_of tr).
Proof.
  unfold cue_tracks. intros H Hi Htb.
  destruct (cue_loop_tracks _ _ _ _ H) as [Hlen Hall].
  destruct (Hall _ _ Hi) as (x & Hx & _ & Ht).
  rewrite zip3_take_times in Ht
    by (apply lookup_lt_Some in Hx; lia).
  apply zip3_lookup in Hx as (_ & _ & Hx). rewrite Htb in Hx.
  injection Hx as ->. exact Ht.
Qed.

Lemma cue_tracks_accumulate_witness :
  cue_timestamp (0 + total_duration (take 2 [60000000; 30000000; 1000000])) 1
  = inr (timestamp_of (CueTrack 2 "Three" 1 30 0)).
Proof.
  apply (cue_tracks_accumulate ["One"; "Two"; "Three"]%string
           [60000000; 30000000; 1000000] [1; 1; 1] 0
           [CueTrack 0 "One" 0 0 0; CueTrack 1 "Two" 1 0 0;
            CueTrack 2 "Three" 1 30 0] 2).
  - vm_compute. reflexivity.
  - reflexivity.
  - reflexivity.
Defined.

Lemma cue_timestamp_start tb ts :
  cue_timestamp 0 tb = inr ts -> ts = (0, 0, 0).
Proof.
  unfold cue_timestamp, cue_minutes, cue_seconds, cue_frames,
    cue_second_fraction.
  rewrite total_seconds_zero.
  change (inr (S754_zero false) ≫= ?f) with (f (S754_zero false)). cbv beta.
  destruct (float_of_int (tb * 60)) as [e|d]; [discriminate|].
  change (inr d ≫= ?f) with (f d). cbv beta.
  unfold int_truediv.
  destruct d as [s|s| |s m e]; try discriminate.
  - destruct (Z.eqb_spec tb 0); [discriminate|].
    destruct (tb <? 0); destruct s; vm_compute; now intros [= <-].
  - destruct (Z.eqb_spec tb 0); [discriminate|].
    destruct (tb <? 0); destruct s; vm_compute; now intros [= <-].
Qed.

(** X7: from the default start time the first entry is stamped
    00:00:00, whatever its time base. *)
Theorem first_track_at_zero (names : list string)
    (track_times : list timedelta) (timebases : list Z)
    (tr : cue_track) (trs : list cue_track) :
  cue_tracks names track_times timebases 0 = inr (tr :: trs) ->
  timestamp_of tr = (0, 0, 0).
Proof.
  unfold cue_tracks. intros H.
  destruct (zip3 names track_times timebases) as [|[[name time] tb] rest];
    [discriminate|].
  apply cue_loop_cons in H as (m & s & f & trs' & Hts & _ & _ & [= -> _]).
  apply cue_timestamp_start in Hts. exact Hts.
Qed.

Lemma first_track_at_zero_witness :
  cue_tracks ["One"; "Two"]%string [90500000000; 1000000] [1000; 7] 0
  = inr [CueTrack 0 "One" 0 0 0; CueTrack 1 "Two" 215 28 42] /\
  timestamp_of (CueTrack 0 "One" 0 0 0) = (0, 0, 0).
Proof.
  split; [vm_compute; reflexivity|].
  apply (first_track_at_zero ["One"; "Two"]%string [90500000000; 1000000]
           [1000; 7] (CueTrack 0 "One" 0 0 0) [CueTrack 1 "Two" 215 28 42]).
  vm_compute. reflexivity.
Defined.

Lemma cue_timestamp_zero_timebase acc :
  exists e, cue_timestamp acc 0 = inl e.
Proof.
  unfold cue_timestamp, cue_minutes.
  destruct (total_seconds acc) as [e|t]; [now exists e|].
  exists ZeroDivisionError. reflexivity.
Qed.

Lemma cue_loop_zero_timebase tracks : forall k acc,
  Exists (fun x => x.2 = 0) tracks -> exists e, cue_loop k acc tracks = inl e.
Proof.
  induction tracks as [|[[name time] tb] rest IH]; intros k acc H.
  - now apply Exists_nil in H.
  - apply Exists_cons in H as [H|H].
    + simpl in H. subst tb. destruct (cue_timestamp_zero_timebase acc) as (e & He).
      exists e. simpl. now rewrite He.
    + simpl.
      destruct (cue_timestamp acc tb) as [e|[[m sec] fr]]; [now exists e|]. simpl.
      destruct (timedelta_add acc time) as [e|acc']; [now exists e|]. simpl.
      destruct (IH (k + 1) acc' H) as (e & ->). now exists e.
Qed.

(** X8: when all chapters parse and one of them reports a time base
    of denominator 0, no cue sheet is computed: the timing engine
    raises, the division by zero being caught nowhere. *)
Theorem zero_timebase_no_cue_sheet (cs : list chapter)
    (ds : list (string * timedelta * Z)) :
  Forall2 reports cs ds ->
  Exists (fun d => d.2 = 0) ds ->
  exists e, chapter_tracks cs = inl e.
Proof.
  intros Hrep Hex. rewrite (chapter_tracks_reports _ _ Hrep).
  apply cue_loop_zero_timebase.
  apply Exists_fmap. eapply Exists_impl; [exact Hex|].
  intros [[n t] tb]. simpl. now intros ->.
Qed.

Lemma zero_timebase_no_cue_sheet_witness :
  exists e,
    chapter_tracks [probed_chapter "One" 0 5 "1/1"; probed_chapter "Two" 5 9 "1/0"]%string
    = inl e.
Proof.
  apply (zero_timebase_no_cue_sheet
           [probed_chapter "One" 0 5 "1/1"; probed_chapter "Two" 5 9 "1/0"]%string
           [("One", 5000000, 1); ("Two", 4000000, 0)]%string).
  - repeat constructor; simpl; eexists _, _, _; repeat split; reflexivity.
  - apply Exists_cons_tl, Exists_cons_hd. reflexivity.
Defined.

(** ** The value of a timestamp *)

Lemma sec_frames_seconds tb r s fr :
  1 <= tb <= 10000 -> 0 < r < 60 * tb ->
  sec_frames tb r = inr (s, fr) -> s = r / tb.
Proof.
  intros Htb Hr. unfold sec_frames.
  destruct (int_truediv_rounds r tb) as (f & -> & Hrd); [lia| |lia|].
  { split; [lia|]. apply Z.le_lt_trans with (2 ^ 14); [lia|].
    apply Z.pow_lt_mono_r; lia. }
  rewrite bind_inr.
  rewrite (trunc_rounds_small f r tb Hrd) by lia.
  rewrite bind_inr. destruct (frames_of f) as [e|fr']; [discriminate|].
  now intros [= <- _].
Qed.

Lemma mod_minute_mod tb n : 0 < tb -> (n mod (tb * 60)) mod tb = n mod tb.
Proof.
  intros Htb. rewrite (Z.div_mod n (tb * 60)) at 2 by lia.
  replace (tb * 60 * (n / (tb * 60)) + n mod (tb * 60))
    with (n mod (tb * 60) + (60 * (n / (tb * 60))) * tb) by lia.
  now rewrite Z_mod_plus_full.
Qed.

(** The frame count against the exact one. *)
Lemma frames_near tb rho Y fr :
  1 <= tb <= 10000 -> 0 <= rho < tb -> 0 <= Y < 2 ^ 80 ->
  tb * Y <= rho * 2 ^ 80 + tb * 2 ^ 33 ->
  rho * 2 ^ 80 < tb * Y + tb * 2 ^ 33 ->
  (fr = 75 * Y / 2 ^ 80 \/
   (fr = 75 * Y / 2 ^ 80 + 1 /\
    2 ^ 52 * ((75 * Y / 2 ^ 80 + 1) * 2 ^ 80 - 75 * Y) <= 75 * Y)) ->
  (fr = 75 * rho / tb \/ fr = 75 * rho / tb - 1) /\ 0 <= fr <= 74.
Proof.
  intros Htb Hrho HY H1 H2 Hfr.
  pose proof (Z.div_mod (75 * rho) tb ltac:(lia)) as HT.
  pose proof (Z.mod_pos_bound (75 * rho) tb ltac:(lia)) as HTb.
  pose proof (Z.div_mod (75 * Y) (2 ^ 80) ltac:(lia)) as HF.
  pose proof (Z.mod_pos_bound (75 * Y) (2 ^ 80) ltac:(lia)) as HFb.
  set (T := 75 * rho / tb) in *. set (sg := (75 * rho) mod tb) in *.
  set (F := 75 * Y / 2 ^ 80) in *. set (ph := (75 * Y) mod 2 ^ 80) in *.
  clearbody T sg F ph.
  change (2 ^ 80) with 1208925819614629174706176 in *.
  change (2 ^ 33) with 8589934592 in *.
  change (2 ^ 52) with 4503599627370496 in *.
  assert (HT0 : 0 <= T) by nia.
  assert (HT74 : T <= 74) by nia.
  assert (HF0 : 0 <= F) by nia.
  assert (Hlow : T - 1 <= F).
  { assert (1208925819614629174706176 * (T * tb)
            < tb * (75 * Y) + tb * 644245094400) by nia.
    assert ((T - 1) * 1208925819614629174706176 < 75 * Y + 1) by nia.
    nia. }
  assert (Hgap : tb * (75 * Y) + 604462909807314587353088
                 <= (T + 1) * tb * 1208925819614629174706176).
  { assert (tb * (75 * Y)
            <= (T * tb + sg) * 1208925819614629174706176 + tb * 644245094400)
      by nia.
    nia. }
  assert (Hhigh : F <= T) by nia.
  destruct Hfr as [->|[-> Hnear]]; [split; lia|].
  destruct (Z.eq_dec F T) as [->|Hne]; [|split; lia].
  exfalso.
  assert (tb * (4503599627370496 * ((T + 1) * 1208925819614629174706176 - 75 * Y))
          <= tb * (75 * Y)) by nia.
  assert (4503599627370496 * 604462909807314587353088
          <= 4503599627370496 * tb * ((T + 1) * 1208925819614629174706176 - 75 * Y))
    by nia.
  nia.
Qed.

(** X9: at a time base between 1 and 10000 and an accumulated time of
    [n] whole units, the minutes are [n / (60 tb)] and the seconds
    [(n mod 60 tb) / tb], both exact; the frames are [75 (n mod tb) / tb]
    rounded down, or one less where the binary64 quotient falls short of
    the exact one, and lie between 0 and 74. *)
Theorem timestamp_value (n tb : Z) :
  0 <= n -> n * 1000000 <= timedelta_max -> 1 <= tb <= 10000 ->
  exists frames,
    cue_timestamp (n * 1000000) tb
    = inr (n / (tb * 60), n mod (tb * 60) / tb, frames) /\
    (frames = 75 * (n mod tb) / tb \/ frames = 75 * (n mod tb) / tb - 1) /\
    0 <= frames <= 74.
Proof.
  intros Hn Hmax Htb.
  pose proof (timedelta_max_whole n Hn Hmax) as Hn52.
  rewrite cue_timestamp_whole by lia.
  pose proof (Z.mod_pos_bound n (tb * 60) ltac:(lia)) as Hr.
  rewrite <- (mod_minute_mod tb n) by lia.
  set (r := n mod (tb * 60)) in *. clearbody r.
  destruct (Z.eq_dec r 0) as [->|Hr0].
  - rewrite sec_frames_zero by lia. exists 0.
    rewrite Z.mod_0_l, Z.mul_0_r, !Z.div_0_l by lia.
    change (inr (0, 0) ≫= ?f) with (f (0, 0)). cbn [fst snd].
    split; [reflexivity|]. lia.
  - assert (Hr' : 0 < r < 60 * tb) by lia.
    destruct (sec_frames_spec tb r Htb Hr')
      as (X & fr & Hsf & HX & H1 & H2 & Hfr).
    pose proof (sec_frames_seconds _ _ _ _ Htb Hr' Hsf) as Hs.
    rewrite Hsf, bind_inr. cbn [fst snd]. rewrite Hs. exists fr.
    split; [reflexivity|].
    pose proof (Z.div_mod r tb ltac:(lia)) as Hq.
    pose proof (Z.mod_pos_bound r tb ltac:(lia)) as Hqb.
    pose proof (Z.div_mod X (2 ^ 80) ltac:(lia)) as HXq.
    pose proof (Z.mod_pos_bound X (2 ^ 80) ltac:(lia)) as HXb.
    rewrite Hs in HXq.
    apply (frames_near tb (r mod tb) (X mod 2 ^ 80) fr Htb Hqb HXb);
      [| |exact Hfr].
    + set (Y := X mod 2 ^ 80) in *. set (q := r / tb) in *.
      set (rho := r mod tb) in *. clearbody Y q rho.
      change (2 ^ 80) with 1208925819614629174706176 in *.
      change (2 ^ 33) with 8589934592 in *. nia.
    + set (Y := X mod 2 ^ 80) in *. set (q := r / tb) in *.
      set (rho := r mod tb) in *. clearbody Y q rho.
      change (2 ^ 80) with 1208925819614629174706176 in *.
      change (2 ^ 33) with 8589934592 in *. nia.
Qed.

Lemma timestamp_value_witness :
  exists frames,
    cue_timestamp (30200 * 1000000) 1000
    = inr (30200 / (1000 * 60), 30200 mod (1000 * 60) / 1000, frames) /\
    (frames = 75 * (30200 mod 1000) / 1000 \/
     frames = 75 * (30200 mod 1000) / 1000 - 1) /\
    0 <= frames <= 74.
Proof.
  apply (timestamp_value 30200 1000); [lia|vm_compute; discriminate|lia].
Defined.

(** ** Outcomes of the chapter loop *)

Lemma chapter_loop_app pre : forall post t,
  chapter_loop (pre ++ post) t =
    match chapter_loop pre t with
    | (t1, inr _) => chapter_loop post t1
    | (t1, inl e) => (t1, inl e)
    end.
Proof.
  induction pre as [|c pre IH]; intros post t; [reflexivity|].
  cbn [app chapter_loop]. unfold mbind, ST_bind.
  destruct (chapter_step c t) as [t1 [e|[]]]; [reflexivity|].
  apply IH.
Qed.

Lemma ST_bind_lift_inr {S A B} (x : A) (f : A -> ST S B) s :
  (lift (inr x) ≫= f) s = f x s.
Proof. reflexivity. Qed.

Lemma ST_bind_modify {S B} (g : S -> S) (f : unit -> ST S B) s :
  (modify g ≫= f) s = f tt (g s).
Proof. reflexivity. Qed.

Lemma chapter_body_eq c t :
  chapter_body c t =
    match getitem (ch_title c) with
    | inl x => (t, inl x)
    | inr title =>
        let t1 := TrackLists (names t ++ [title]) (track_times t) (timebases t)
                    (logged t) in
        match getitem (ch_end c) ≫= py_int with
        | inl x => (t1, inl x)
        | inr e =>
            match getitem (ch_start c) ≫= py_int with
            | inl x => (t1, inl x)
            | inr s =>
                match timedelta_seconds (e - s) with
                | inl x => (t1, inl x)
                | inr d =>
                    let t2 := TrackLists (names t ++ [title])
                                (track_times t ++ [d]) (timebases t) (logged t) in
                    match getitem (ch_time_base c) ≫= split_second with
                    | inl x => (t2, inl x)
                    | inr tb =>
                        match parse_int tb with
                        | None => (t2, inl ValueError)
                        | Some timebase =>
                            (TrackLists (names t ++ [title])
                               (track_times t ++ [d])
                               (timebases t ++ [clamp_timebase timebase])
                               (logged t), inr tt)
                        end
                    end
                end
            end
        end
    end.
Proof.
  unfold chapter_body, append_name, append_track_time, append_timebase.
  destruct (getitem (ch_title c)) as [x|title]; [reflexivity|].
  rewrite ST_bind_lift_inr, ST_bind_modify.
  destruct (getitem (ch_end c) ≫= py_int) as [x|e]; [reflexivity|].
  rewrite ST_bind_lift_inr.
  destruct (getitem (ch_start c) ≫= py_int) as [x|s]; [reflexivity|].
  rewrite ST_bind_lift_inr.
  destruct (timedelta_seconds (e - s)) as [x|d]; [reflexivity|].
  rewrite ST_bind_lift_inr, ST_bind_modify.
  destruct (getitem (ch_time_base c) ≫= split_second) as [x|tb]; [reflexivity|].
  rewrite ST_bind_lift_inr.
  destruct (parse_int tb); reflexivity.
Qed.

Lemma py_int_error v x : py_int v = inl x -> x = ValueError.
Proof.
  destruct v as [z|s]; [discriminate|]. unfold py_int.
  destruct (parse_int s); [discriminate|]. now intros [= <-].
Qed.

Lemma getitem_py_int_error field x :
  (getitem field ≫= py_int) = inl x -> x = KeyError \/ x = ValueError.
Proof.
  destruct field as [v|]; [|left; now injection H].
  intros H. right. exact (py_int_error _ _ H).
Qed.

Lemma split_second_error field x :
  (getitem field ≫= split_second) = inl x -> x <> ValueError.
Proof.
  destruct field as [[z|s]|]; try (intros [= <-]; discriminate).
  change (list_getitem (str_split "/" s) 1 = inl x -> x <> ValueError).
  unfold list_getitem. destruct (_ !! _); [discriminate|].
  intros [= <-]. discriminate.
Qed.

(** What one pass of the [try] block does to the lists. *)
Lemma chapter_step_cases c t :
  (exists n d tb,
     chapter_step c t =
       (TrackLists (names t ++ [n]) (track_times t ++ [d]) (timebases t ++ [tb])
          (logged t), inr tt)) \/
  (exists n,
     chapter_step c t =
       (TrackLists (names t ++ [n]) (track_times t) (timebases t)
          (logged t ++ [ValueError]), inr tt)) \/
  (exists n d,
     chapter_step c t =
       (TrackLists (names t ++ [n]) (track_times t ++ [d]) (timebases t)
          (logged t ++ [ValueError]), inr tt)) \/
  (exists t' e, chapter_step c t = (t', inl e) /\ e <> ValueError).
Proof.
  unfold chapter_step, try_except_ST. rewrite chapter_body_eq.
  destruct (getitem (ch_title c)) as [x|n] eqn:Hn.
  { assert (x = KeyError) as ->
      by (destruct (ch_title c); [discriminate|now injection Hn]).
    right; right; right. eexists _, _. split; [reflexivity|discriminate]. }
  cbv zeta.
  destruct (getitem (ch_end c) ≫= py_int) as [x|e] eqn:He.
  { destruct (getitem_py_int_error _ _ He) as [-> | ->].
    - right; right; right. eexists _, _. split; [reflexivity|discriminate].
    - right; left. exists n. reflexivity. }
  destruct (getitem (ch_start c) ≫= py_int) as [x|s] eqn:Hs.
  { destruct (getitem_py_int_error _ _ Hs) as [-> | ->].
    - right; right; right. eexists _, _. split; [reflexivity|discriminate].
    - right; left. exists n. reflexivity. }
  destruct (timedelta_seconds (e - s)) as [x|d] eqn:Hd.
  { assert (x = OverflowError) as ->.
    { unfold timedelta_seconds, timedelta_of_us in Hd.
      destruct (_ && _); [discriminate|]. now injection Hd. }
    right; right; right. eexists _, _; split; [reflexivity|discriminate]. }
  destruct (getitem (ch_time_base c) ≫= split_second) as [x|den] eqn:Ht.
  { pose proof (split_second_error _ _ Ht) as Hx.
    right; right; right. eexists _, _; split; [|exact Hx].
    destruct (decide (x = ValueError)); [contradiction|reflexivity]. }
  destruct (parse_int den) as [tb|].
  - left. exists n, d, (clamp_timebase tb). reflexivity.
  - right; right; left. exists n, d. reflexivity.
Qed.

Lemma chapter_loop_lengths cs : forall t0 t,
  chapter_loop cs t0 = (t, inr tt) ->
  length (names t) = (length (names t0) + length cs)%nat /\
  (length (timebases t) + length (logged t)
   = length (timebases t0) + length (logged t0) + length cs)%nat /\
  (length (timebases t) - length (timebases t0)
   <= length (track_times t) - length (track_times t0))%nat /\
  (length (timebases t0) <= length (timebases t))%nat /\
  (length (track_times t0) <= length (track_times t))%nat /\
  (length (track_times t) <= length (track_times t0) + length cs)%nat.
Proof.
  induction cs as [|c cs IH]; intros t0 t.
  - simpl. intros [= <-]. lia.
  - cbn [chapter_loop]. unfold mbind, ST_bind.
    destruct (chapter_step_cases c t0)
      as [(n & d & tb & ->)|[(n & ->)|[(n & d & ->)|(t' & e & -> & _)]]];
      [| | |discriminate];
      intros H; apply IH in H; simpl in H; rewrite ?length_app in H;
      simpl in *; lia.
Qed.

(** X10: when the chapter loop and the timing engine return, every
    chapter has given a name, the cue sheet has one track per time base
    appended, and tracks and logged errors add up to the number of
    chapters. *)
Theorem tracks_per_chapter (cs : list chapter) (trs : list cue_track) :
  chapter_tracks cs = inr trs ->
  length (names (chapter_loop cs no_tracks).1) = length cs /\
  length trs = length (timebases (chapter_loop cs no_tracks).1) /\
  (length trs + length (logged (chapter_loop cs no_tracks).1))%nat = length cs.
Proof.
  unfold chapter_tracks.
  destruct (chapter_loop cs no_tracks) as [t [e|[]]] eqn:Hloop; [discriminate|].
  change (inr tt ≫= ?f) with (f tt). cbv beta. intros H.
  apply chapter_loop_lengths in Hloop. simpl in Hloop.
  unfold cue_tracks in H. apply cue_loop_tracks in H as [Hlen _].
  rewrite zip3_length in Hlen. simpl. lia.
Qed.

Lemma tracks_per_chapter_witness :
  length (names (chapter_loop
            [Chapter (Some "Intro") (Some (VStr "n/a")) (Some (VInt 5000))
               (Some (VStr "1/1000"));
             probed_chapter "One" 5000 65000 "1/1000"]%string no_tracks).1)
  = 2%nat /\
  length [CueTrack 0 "Intro" 0 0 0]
  = length (timebases (chapter_loop
              [Chapter (Some "Intro") (Some (VStr "n/a")) (Some (VInt 5000))
                 (Some (VStr "1/1000"));
               probed_chapter "One" 5000 65000 "1/1000"]%string no_tracks).1) /\
  (length [CueTrack 0 "Intro" 0 0 0]
   + length (logged (chapter_loop
               [Chapter (Some "Intro") (Some (VStr "n/a")) (Some (VInt 5000))
                  (Some (VStr "1/1000"));
                probed_chapter "One" 5000 65000 "1/1000"]%string no_tracks).1))%nat
  = 2%nat.
Proof.
  apply (tracks_per_chapter
           [Chapter (Some "Intro") (Some (VStr "n/a")) (Some (VInt 5000))
              (Some (VStr "1/1000"));
            probed_chapter "One" 5000 65000 "1/1000"]%string
           [CueTrack 0 "Intro" 0 0 0]).
  vm_compute. reflexivity.
Defined.

(** X11: no [ValueError] leaves the chapter loop, from whatever lists
    it starts. *)
Theorem chapter_loop_catches_value_error (cs : list chapter) (t : track_lists) :
  (chapter_loop cs t).2 <> inl ValueError.
Proof.
  revert t. induction cs as [|c cs IH]; intros t; [discriminate|].
  cbn [chapter_loop]. unfold mbind, ST_bind.
  destruct (chapter_step_cases c t)
    as [(n & d & tb & ->)|[(n & ->)|[(n & d & ->)|(t' & e & -> & He)]]];
    try apply IH.
  simpl. congruence.
Qed.

(** X12: a chapter without a title ends the chapter loop with
    [KeyError]: the lists stay as the chapters before it left them,
    nothing is logged and the chapters after it are not read. *)
Theorem chapter_without_title_aborts (pre post : list chapter) (c : chapter)
    (t t1 : track_lists) :
  chapter_loop pre t = (t1, inr tt) ->
  ch_title c = None ->
  chapter_loop (pre ++ c :: post) t = (t1, inl KeyError).
Proof.
  intros Hpre Hc. rewrite chapter_loop_app, Hpre.
  cbn [chapter_loop]. unfold mbind, ST_bind, chapter_step, try_except_ST.
  rewrite chapter_body_eq, Hc. reflexivity.
Qed.

Lemma chapter_without_title_aborts_witness :
  chapter_loop
    ([probed_chapter "One" 0 5 "1/1"]%string ++
     Chapter None (Some (VInt 5)) (Some (VInt 9)) (Some (VStr "1/1")) ::
     [probed_chapter "Three" 9 12 "1/1"]%string) no_tracks
  = (TrackLists ["One"%string] [5000000] [1] [], inl KeyError).
Proof.
  apply chapter_without_title_aborts; reflexivity.
Defined.

Lemma str_split_no_sep sep s :
  Forall (fun c => c <> sep) (list_ascii_of_string s) -> str_split sep s = [s].
Proof.
  induction s as [|c s IH]; simpl; intros H; [reflexivity|].
  apply Forall_cons in H as [Hc H].
  destruct (Ascii.eqb_spec c sep); [contradiction|].
  now rewrite (IH H).
Qed.

(** X13: a chapter whose time base holds no slash ends the chapter
    loop with [IndexError], after its title and its time were appended;
    the [except ValueError] does not catch it. *)
Theorem time_base_without_slash_aborts (pre post : list chapter) (c : chapter)
    (t t1 : track_lists) (title time_base : string) (e s : Z) (d : timedelta) :
  chapter_loop pre t = (t1, inr tt) ->
  ch_title c = Some title ->
  (getitem (ch_end c) ≫= py_int) = inr e ->
  (getitem (ch_start c) ≫= py_int) = inr s ->
  timedelta_seconds (e - s) = inr d ->
  ch_time_base c = Some (VStr time_base) ->
  Forall (fun x => x <> "/"%char) (list_ascii_of_string time_base) ->
  chapter_loop (pre ++ c :: post) t =
    (TrackLists (names t1 ++ [title]) (track_times t1 ++ [d]) (timebases t1)
       (logged t1), inl IndexError).
Proof.
  intros Hpre Ht He Hs Hd Hb Hno. rewrite chapter_loop_app, Hpre.
  cbn [chapter_loop]. unfold mbind at 1, ST_bind at 1, chapter_step, try_except_ST.
  rewrite chapter_body_eq, Ht. cbn [getitem from_option].
  change (mret title) with (inr (A:=exn) title). cbv iota zeta beta.
  rewrite He, Hs, Hd, Hb. cbn [getitem from_option].
  change (mret (VStr time_base) ≫= split_second)
    with (split_second (VStr time_base)).
  cbn [split_second]. rewrite (str_split_no_sep _ _ Hno). reflexivity.
Qed.

Lemma time_base_without_slash_aborts_witness :
  chapter_loop ([] ++ [probed_chapter "One" 0 5 "1000"]%string) no_tracks
  = (TrackLists (names no_tracks ++ ["One"%string])
       (track_times no_tracks ++ [5000000]) (timebases no_tracks)
       (logged no_tracks), inl IndexError).
Proof.
  apply (time_base_without_slash_aborts [] [] (probed_chapter "One" 0 5 "1000")
           no_tracks no_tracks "One" "1000" 5 0 5000000); try reflexivity.
  repeat constructor; discriminate.
Defined.

(** ** [extract_description] *)

Lemma rstrip_idemp s : rstrip (rstrip s) = rstrip s.
Proof.
  induction s as [|c s IH]; [reflexivity|]. simpl.
  destruct (rstrip s) as [|c' r] eqn:Hr.
  - destruct (is_space c) eqn:Hc; [reflexivity|]. simpl. now rewrite Hc.
  - change (rstrip (String c (String c' r)) = String c (String c' r)).
    cbn [rstrip]. cbn [rstrip] in IH. rewrite IH. reflexivity.
Qed.

Lemma lstrip_head s :
  lstrip s = EmptyString \/ exists c s', lstrip s = String c s' /\ is_space c = false.
Proof.
  induction s as [|c s IH]; [now left|]. simpl.
  destruct (is_space c) eqn:Hc; [exact IH|]. right. now exists c, s.
Qed.

Lemma lstrip_rstrip c s :
  is_space c = false -> lstrip (rstrip (String c s)) = rstrip (String c s).
Proof.
  intros Hc. cbn [rstrip]. destruct (rstrip s); rewrite ?Hc; cbn [lstrip]; now rewrite Hc.
Qed.

Lemma strip_idemp s : strip (strip s) = strip s.
Proof.
  unfold strip. destruct (lstrip_head s) as [->|(c & s' & -> & Hc)]; [reflexivity|].
  rewrite (lstrip_rstrip _ _ Hc). apply rstrip_idemp.
Qed.

Lemma lower_lookup_last pre k v post field :
  lower k = field ->
  Forall (fun kv => lower kv.1 <> field) post ->
  lower_lookup (pre ++ (k, v) :: post) field = Some v.
Proof.
  intros Hk Hpost.
  assert (Hnone : lower_lookup post field = None).
  { induction Hpost as [|[k' v'] post Hne _ IH]; [reflexivity|].
    simpl. rewrite IH. simpl in Hne.
    destruct (String.eqb_spec (lower k') field); [contradiction|reflexivity]. }
  induction pre as [|[k' v'] pre IH]; simpl.
  - rewrite Hnone. destruct (String.eqb_spec (lower k) field); [reflexivity|contradiction].
  - now rewrite IH.
Qed.

Lemma lower_lookup_some metadata field v :
  lower_lookup metadata field = Some v ->
  exists k, In (k, v) metadata /\ lower k = field.
Proof.
  induction metadata as [|[k' v'] rest IH]; simpl; [discriminate|].
  destruct (lower_lookup rest field) as [w|].
  - intros [= ->]. destruct (IH eq_refl) as (k & Hin & Hk). exists k. auto.
  - destruct (String.eqb_spec (lower k') field) as [He|_]; [|discriminate].
    intros [= ->]. exists k'. auto.
Qed.

Lemma first_description_blank metadata fpre : forall rest,
  Forall (fun kv => In (lower kv.1) fpre -> strip kv.2 = EmptyString) metadata ->
  first_description metadata (fpre ++ rest) = first_description metadata rest.
Proof.
  induction fpre as [|f fpre IH]; intros rest Hall; [reflexivity|].
  assert (Hall' : Forall (fun kv => In (lower kv.1) fpre -> strip kv.2 = EmptyString)
                    metadata).
  { eapply Forall_impl; [exact Hall|]. intros kv H Hin. apply H. now right. }
  cbn [app first_description].
  destruct (lower_lookup metadata f) as [v|] eqn:Hv; [|now apply IH].
  apply lower_lookup_some in Hv as (k & Hin & Hk).
  rewrite List.Forall_forall in Hall.
  pose proof (Hall _ Hin (or_introl (eq_sym Hk))) as Hs. simpl in Hs. rewrite Hs.
  now apply IH.
Qed.

(** X14: the description comes from the first field of
    [fields_to_check] with a non-blank value, the fields before it being
    blank or absent; of several tags whose keys lower-case to that field
    the last one counts, and its value is returned stripped. *)
Theorem description_priority (metadata pre post : dict) (k v field : string)
    (before after : list string) :
  fields_to_check = before ++ field :: after ->
  Forall (fun kv => In (lower kv.1) before -> strip kv.2 = EmptyString) metadata ->
  metadata = pre ++ (k, v) :: post ->
  lower k = field ->
  Forall (fun kv => lower kv.1 <> field) post ->
  strip v <> EmptyString ->
  extract_description (Some metadata) = Some (strip v).
Proof.
  intros Hf Hblank Hm Hk Hpost Hv. unfold extract_description. rewrite Hf.
  rewrite (first_description_blank _ _ _ Hblank). cbn [first_description].
  rewrite Hm, (lower_lookup_last _ _ _ _ _ Hk Hpost).
  destruct (strip v); [contradiction|reflexivity].
Qed.

Lemma description_priority_witness :
  extract_description
    (Some [("Comment", "a comment"); ("summary", "a summary");
           ("description", "old"); ("DESCRIPTION", "  the story ")]%string)
  = Some (strip "  the story ").
Proof.
  apply (description_priority _ [("Comment", "a comment"); ("summary", "a summary");
                                 ("description", "old")]%string []
           "DESCRIPTION" "  the story " "description" []
           ["comment"; "title_more"; "synopsis"; "summary"]%string).
  - reflexivity.
  - repeat constructor; simpl; intros [].
  - reflexivity.
  - reflexivity.
  - constructor.
  - discriminate.
Defined.

Lemma first_description_some metadata fields d :
  first_description metadata fields = Some d ->
  d <> EmptyString /\
  exists k v, In (k, v) metadata /\ In (lower k) fields /\ d = strip v.
Proof.
  induction fields as [|f fields IH]; simpl; [discriminate|].
  destruct (lower_lookup metadata f) as [v|] eqn:Hv.
  - destruct (strip v) as [|c s] eqn:Hs.
    + intros H. destruct (IH H) as (Hd & k & v' & Hin & Hf & ->).
      split; [exact Hd|]. exists k, v'. auto.
    + intros [= <-]. split; [discriminate|].
      apply lower_lookup_some in Hv as (k & Hin & Hk).
      exists k, v. auto.
  - intros H. destruct (IH H) as (Hd & k & v' & Hin & Hf & ->).
    split; [exact Hd|]. exists k, v'. auto.
Qed.

(** X15: a description that is returned is not empty, has no white
    space at either end, and is the stripped value of a tag whose key
    lower-cases to one of the five fields. *)
Theorem description_is_stripped_tag (probe_tags : option dict) (d : string) :
  extract_description probe_tags = Some d ->
  d <> EmptyString /\ strip d = d /\
  exists metadata k v,
    probe_tags = Some metadata /\ In (k, v) metadata /\
    In (lower k) fields_to_check /\ d = strip v.
Proof.
  destruct probe_tags as [metadata|]; [|discriminate].
  unfold extract_description. intros H.
  destruct (first_description_some _ _ _ H) as (Hd & k & v & Hin & Hf & ->).
  split; [exact Hd|]. split; [apply strip_idemp|].
  now exists metadata, k, v.
Qed.

Lemma description_is_stripped_tag_witness :
  strip "a summary" <> EmptyString /\ strip (strip "a summary") = strip "a summary" /\
  exists metadata k v,
    Some [("Title", "Dune"); ("Summary", "a summary")]%string = Some metadata /\
    In (k, v) metadata /\ In (lower k) fields_to_check /\
    strip "a summary" = strip v.
Proof.
  apply (description_is_stripped_tag
           (Some [("Title", "Dune"); ("Summary", "a summary")]%string)).
  reflexivity.
Defined.

(** X16: when every tag whose key lower-cases to one of the five
    fields is blank, no description is returned. *)
Theorem description_absent (metadata : dict) :
  Forall (fun kv => In (lower kv.1) fields_to_check -> strip kv.2 = EmptyString)
    metadata ->
  extract_description (Some metadata) = None.
Proof.
  intros H. unfold extract_description.
  rewrite <- (app_nil_r fields_to_check).
  now rewrite (first_description_blank _ _ _ H).
Qed.

Lemma description_absent_witness :
  extract_description
    (Some [("title", "Dune"); ("Comment", "   "); ("artist", "Frank Herbert")]%string)
  = None.
Proof.
  apply description_absent.
  repeat constructor; simpl; intros H; try reflexivity;
    repeat (destruct H as [H|H]; [discriminate|]); destruct H.
Defined.

(** ** Runs of the main loop *)

Lemma choose_cue_outcome w oga s :
  files (choose_cue w oga s).1 = files s /\
  forall path contents,
    (choose_cue w oga s).2 = inr (path, contents) ->
    path = canonical_cue_path oga \/ path = side_cue_path oga.
Proof.
  assert (Hr : files (replace_outcome w oga s).1 = files s /\
               forall path contents,
                 (replace_outcome w oga s).2 = inr (path, contents) ->
                 path = canonical_cue_path oga \/ path = side_cue_path oga).
  { unfold replace_outcome. split; [reflexivity|]. simpl.
    destruct (chapters_cue_body (w_chapters w)); [discriminate|].
    intros path contents [= <- _]. now left. }
  destruct (files s !! canonical_cue_path oga) as [content|] eqn:Hc.
  - rewrite (choose_cue_read _ _ _ _ Hc). cbv zeta.
    destruct (match undecodable s !! canonical_cue_path oga with
              | Some n => _ | None => _ end) as [e|[[|] contents]];
      [split; [reflexivity|discriminate]|exact Hr|].
    split; [reflexivity|]. intros path c [= <- _]. now right.
  - now rewrite (choose_cue_absent _ _ _ Hc).
Qed.

Lemma convert_and_extract_fails w f s :
  files s !! oga_path f = None -> w_audio w = None ->
  convert_and_extract w f s =
    (System (files s) (trace s ++ [Transcode f (oga_path f)]) (undecodable s),
     inl EngineError).
Proof.
  intros Hp Ha. unfold convert_and_extract.
  unfold mbind at 1, ST_bind, isfile, gets. rewrite Hp.
  rewrite bool_decide_eq_false_2 by (intros [? ?]; discriminate).
  unfold mbind at 1, ST_bind, m4b2opus, emit, modify, lift.
  rewrite Ha. reflexivity.
Qed.

(** The runs of [process_file], by the step that ends them. *)
Lemma process_file_cases w f s :
  (exists e,
     book_info (w_tags w) f = inl e /\ process_file w f s = (s, inl e)) \/
  (files s !! oga_path f = None /\ w_audio w = None /\
   process_file w f s =
     (System (files s) (trace s ++ [Transcode f (oga_path f)]) (undecodable s),
      inl EngineError)) \/
  ((is_Some (files s !! oga_path f) \/ is_Some (w_audio w)) /\
   exists tr marks,
     (exists e,
        process_file w f s
        = (System (assets_files w f (files s)) tr marks, inl e)) \/
     (exists path text,
        (path = canonical_cue_path (oga_path f) \/
         path = side_cue_path (oga_path f)) /\
        process_file w f s =
          (System (<[path := text]> (assets_files w f (files s))) tr marks,
           inr tt))).
Proof.
  rewrite process_file_run.
  destruct (book_info (w_tags w) f) as [e|[p t]] eqn:Hb.
  { left. exists e. split; [reflexivity|].
    unfold prepare_cue. unfold mbind at 1, ST_bind, lift. now rewrite Hb. }
  right.
  destruct (decide (is_Some (files s !! oga_path f) \/ is_Some (w_audio w)))
    as [Ho|Hno].
  - right. split; [exact Ho|].
    rewrite (prepare_cue_run _ _ _ _ _ Hb Ho); cbv zeta.
    destruct (choose_cue_outcome w (oga_path f)
                (System (assets_files w f (files s))
                   (trace s ++ assets_events w f (files s))
                   (assets_undecodable w f s))) as [Hf Hpath].
    destruct (choose_cue _ _ _) as [s2 [e|[path contents]]]; simpl in *;
      destruct s2 as [fs2 tr2 marks2]; simpl in Hf; subst fs2.
    + exists tr2, marks2. left. exists e. reflexivity.
    + exists tr2, (delete path marks2). right. eexists _, _.
      split; [exact (Hpath _ _ eq_refl)|reflexivity].
  - assert (Hp : files s !! oga_path f = None)
      by (apply eq_None_not_Some; intros H; apply Hno; now left).
    assert (Ha : w_audio w = None)
      by (apply eq_None_not_Some; intros H; apply Hno; now right).
    left. split; [exact Hp|]. split; [exact Ha|].
    unfold prepare_cue. unfold mbind at 1, ST_bind, lift. rewrite Hb.
    unfold mbind at 1, ST_bind.
    now rewrite (convert_and_extract_fails _ _ _ Hp Ha).
Qed.

(** X17: the run on one input changes no file other than the [.oga],
    cover, info and two cue paths of that input, whether it returns or
    raises. *)
Theorem process_file_touches_only_outputs (w : world) (file_name : string)
    (s : system) (path : string) :
  path <> oga_path file_name ->
  path <> (splitext file_name).1 +:+ "_cover.jpg" ->
  path <> (splitext file_name).1 +:+ "_info.txt" ->
  path <> canonical_cue_path (oga_path file_name) ->
  path <> side_cue_path (oga_path file_name) ->
  files (process_file w file_name s).1 !! path = files s !! path.
Proof.
  intros H1 H2 H3 H4 H5.
  assert (Ha : assets_files w file_name (files s) !! path = files s !! path).
  { unfold assets_files.
    rewrite !lookup_insert_opt_ne by congruence.
    case_bool_decide; [reflexivity|].
    now rewrite lookup_insert_opt_ne by congruence. }
  destruct (process_file_cases w file_name s)
    as [(e & _ & ->)
       |[(_ & _ & ->)|(_ & tr & marks & [(e & ->)|(p & text & Hp & ->)])]];
    simpl; try reflexivity; try exact Ha.
  rewrite lookup_insert_ne by (destruct Hp; congruence). exact Ha.
Qed.

Lemma process_file_touches_only_outputs_witness :
  files (process_file dune_world "dune.m4b" foreign_cue_system).1 !! "dune.m4b"%string
  = files foreign_cue_system !! "dune.m4b"%string.
Proof.
  apply process_file_touches_only_outputs; vm_compute; discriminate.
Defined.

(** X18: an [.oga] file that exists keeps its content, however the
    run ends. *)
Theorem existing_oga_is_kept (w : world) (file_name : string) (s : system)
    (audio : string) :
  files s !! oga_path file_name = Some audio ->
  files (process_file w file_name s).1 !! oga_path file_name = Some audio.
Proof.
  intros Ho.
  assert (Ha : assets_files w file_name (files s) !! oga_path file_name
               = Some audio).
  { unfold assets_files.
    rewrite lookup_insert_opt_ne by apply info_ne_oga.
    rewrite lookup_insert_opt_ne by apply cover_ne_oga.
    rewrite bool_decide_eq_true_2 by (rewrite Ho; eauto). exact Ho. }
  destruct (process_file_cases w file_name s)
    as [(e & _ & ->)
       |[(_ & _ & ->)|(_ & tr & marks & [(e & ->)|(p & text & Hp & ->)])]];
    simpl; try exact Ho; try exact Ha.
  rewrite lookup_insert_ne; [exact Ha|].
  destruct Hp as [-> | ->]; intros E; symmetry in E; revert E;
    [apply oga_ne_canonical|apply oga_ne_side].
Qed.

Lemma existing_oga_is_kept_witness :
  files (process_file dune_world "dune.m4b"
           (System {[ "dune.oga"%string := "old audio"%string ]} [] ∅)).1
    !! oga_path "dune.m4b"
  = Some "old audio"%string.
Proof.
  apply existing_oga_is_kept. reflexivity.
Defined.

(** X19: when the [.oga] file is absent and the transcoder fails, the
    run ends with the error of the engine right after the transcoder
    call: no file is written, no cover art or description is
    extracted. *)
Theorem transcoder_failure_ends_the_run (w : world) (file_name : string)
    (s : system) (performer title : string) :
  book_info (w_tags w) file_name = inr (performer, title) ->
  files s !! oga_path file_name = None ->
  w_audio w = None ->
  process_file w file_name s =
    (System (files s) (trace s ++ [Transcode file_name (oga_path file_name)])
       (undecodable s),
     inl EngineError).
Proof.
  intros Hb Hp Ha. rewrite process_file_run.
  unfold prepare_cue. unfold mbind at 1, ST_bind, lift. rewrite Hb.
  unfold mbind at 1, ST_bind.
  now rewrite (convert_and_extract_fails _ _ _ Hp Ha).
Qed.

Lemma transcoder_failure_ends_the_run_witness :
  process_file
    (World (Some [("artist", "Frank Herbert")]%string) [] None (Some "jpeg"%string))
    "dune.m4b" no_files
  = (System (files no_files)
       (trace no_files ++ [Transcode "dune.m4b" (oga_path "dune.m4b")])
       (undecodable no_files),
     inl EngineError).
Proof.
  apply (transcoder_failure_ends_the_run _ _ _ "Frank Herbert" "dune");
    reflexivity.
Defined.

Lemma main_app pre : forall rest s,
  main (pre ++ rest) s =
    match main pre s with
    | (s1, inr _) => main rest s1
    | (s1, inl e) => (s1, inl e)
    end.
Proof.
  induction pre as [|[w f] pre IH]; intros rest s; [reflexivity|].
  cbn [app main]. unfold mbind, ST_bind.
  destruct (process_file w f s) as [s1 [e|[]]]; [reflexivity|]. apply IH.
Qed.

(** X20: when the run on one input raises, the program ends with that
    exception and the inputs after it are not processed. *)
Theorem main_stops_at_first_failure (pre rest : list (world * string))
    (w : world) (file_name : string) (s s1 s2 : system) (e : exn) :
  main pre s = (s1, inr tt) ->
  process_file w file_name s1 = (s2, inl e) ->
  main (pre ++ (w, file_name) :: rest) s = (s2, inl e).
Proof.
  intros Hpre Hf. rewrite main_app, Hpre.
  cbn [main]. unfold mbind, ST_bind. now rewrite Hf.
Qed.

Lemma main_stops_at_first_failure_witness :
  main ([] ++ (World (Some [("title", "Dune")]%string) [] (Some "OggS"%string) None,
               "dune.m4b"%string)
           :: [(dune_world, "dune2.m4b"%string)]) no_files
  = (no_files, inl KeyError).
Proof.
  apply (main_stops_at_first_failure [] _ _ _ no_files no_files no_files KeyError);
    reflexivity.
Defined.

Lemma file_line_prefix oga : startswith "FILE " (file_line oga) = true.
Proof. unfold file_line. rewrite !append_cons. reflexivity. Qed.

Lemma no_file_line_scan FILE_LINE lines :
  startswith "FILE " FILE_LINE = true ->
  Forall (fun line => startswith "FILE " line = false) lines ->
  (scan_cue FILE_LINE lines true EmptyString).1 = true.
Proof.
  intros Hp Hall. rewrite scan_cue_no_match.
  - simpl. induction Hall as [|line lines Hl _ IH]; [reflexivity|].
    simpl. now rewrite Hl.
  - intros Hin. rewrite List.Forall_forall in Hall.
    rewrite (Hall _ Hin) in Hp. discriminate.
Qed.

Lemma process_file_replace w f s p t body :
  book_info (w_tags w) f = inr (p, t) ->
  is_Some (files s !! oga_path f) \/ is_Some (w_audio w) ->
  choose_cue w (oga_path f)
    (System (assets_files w f (files s)) (trace s ++ assets_events w f (files s))
       (assets_undecodable w f s))
  = replace_outcome w (oga_path f)
      (System (assets_files w f (files s)) (trace s ++ assets_events w f (files s))
         (assets_undecodable w f s)) ->
  chapters_cue_body (w_chapters w) = inr body ->
  (process_file w f s).2 = inr tt /\
  files (process_file w f s).1 !! canonical_cue_path (oga_path f)
  = Some (render_cue p t (file_line (oga_path f)) body) /\
  files (process_file w f s).1 !! side_cue_path (oga_path f)
  = files s !! side_cue_path (oga_path f).
Proof.
  intros Hb Ho Hc Hbody. rewrite process_file_run.
  rewrite (prepare_cue_run _ _ _ _ _ Hb Ho). cbv zeta. rewrite Hc.
  unfold replace_outcome. rewrite Hbody. simpl.
  split; [reflexivity|]. split; [apply lookup_insert_eq|].
  rewrite lookup_insert_ne by apply canonical_ne_side.
  apply assets_files_side.
Qed.

(** X21: with no cue file at the canonical path, the cue sheet
    computed from the chapters is written there, under the three header
    lines, and the side path is left as it was. *)
Theorem first_run_writes_canonical (w : world) (file_name : string) (s : system)
    (performer title body : string) :
  book_info (w_tags w) file_name = inr (performer, title) ->
  is_Some (files s !! oga_path file_name) \/ is_Some (w_audio w) ->
  files s !! canonical_cue_path (oga_path file_name) = None ->
  chapters_cue_body (w_chapters w) = inr body ->
  (process_file w file_name s).2 = inr tt /\
  files (process_file w file_name s).1 !! canonical_cue_path (oga_path file_name)
  = Some (render_cue performer title (file_line (oga_path file_name)) body) /\
  files (process_file w file_name s).1 !! side_cue_path (oga_path file_name)
  = files s !! side_cue_path (oga_path file_name).
Proof.
  intros Hb Ho Hc Hbody. apply process_file_replace; try assumption.
  apply choose_cue_absent. simpl. now rewrite assets_files_canonical.
Qed.

Lemma first_run_writes_canonical_witness :
  (process_file dune_world "dune.m4b" no_files).2 = inr tt /\
  files (process_file dune_world "dune.m4b" no_files).1
    !! canonical_cue_path (oga_path "dune.m4b")
  = Some (render_cue "Frank Herbert" "Dune" (file_line (oga_path "dune.m4b"))
            (join (map cue_sheet_entry
                     [CueTrack 0 "One" 0 0 0; CueTrack 1 "Two" 1 30 37]))) /\
  files (process_file dune_world "dune.m4b" no_files).1
    !! side_cue_path (oga_path "dune.m4b")
  = files no_files !! side_cue_path (oga_path "dune.m4b").
Proof.
  apply first_run_writes_canonical.
  - reflexivity.
  - right. simpl. eauto.
  - reflexivity.
  - vm_compute. reflexivity.
Defined.

(** X22: an existing cue file that is text in the locale encoding and
    none of whose lines starts with [FILE] is overwritten with the
    computed cue sheet; its lines are not kept. *)
Theorem cue_without_file_line_is_overwritten (w : world) (file_name : string)
    (s : system) (performer title body content : string) :
  book_info (w_tags w) file_name = inr (performer, title) ->
  is_Some (files s !! oga_path file_name) \/ is_Some (w_audio w) ->
  files s !! canonical_cue_path (oga_path file_name) = Some content ->
  undecodable s !! canonical_cue_path (oga_path file_name) = None ->
  Forall (fun line => startswith "FILE " line = false)
    (readlines (universal_newlines content)) ->
  chapters_cue_body (w_chapters w) = inr body ->
  (process_file w file_name s).2 = inr tt /\
  files (process_file w file_name s).1 !! canonical_cue_path (oga_path file_name)
  = Some (render_cue performer title (file_line (oga_path file_name)) body) /\
  files (process_file w file_name s).1 !! side_cue_path (oga_path file_name)
  = files s !! side_cue_path (oga_path file_name).
Proof.
  intros Hb Ho Hc Hd Hall Hbody. apply process_file_replace; try assumption.
  rewrite (choose_cue_present _ _ _ content)
    by (simpl; now rewrite ?assets_files_canonical, ?assets_undecodable_canonical).
  pose proof (no_file_line_scan _ _ (file_line_prefix (oga_path file_name)) Hall)
    as Hscan.
  destruct (scan_cue _ _ _ _) as [[|] contents]; [reflexivity|discriminate].
Qed.

Lemma cue_without_file_line_is_overwritten_witness :
  (process_file dune_world "dune.m4b"
     (System {[ "dune.cue"%string := "REM my notes"%string ]} [] ∅)).2 = inr tt /\
  files (process_file dune_world "dune.m4b"
           (System {[ "dune.cue"%string := "REM my notes"%string ]} [] ∅)).1
    !! canonical_cue_path (oga_path "dune.m4b")
  = Some (render_cue "Frank Herbert" "Dune" (file_line (oga_path "dune.m4b"))
            (join (map cue_sheet_entry
                     [CueTrack 0 "One" 0 0 0; CueTrack 1 "Two" 1 30 37]))) /\
  files (process_file dune_world "dune.m4b"
           (System {[ "dune.cue"%string := "REM my notes"%string ]} [] ∅)).1
    !! side_cue_path (oga_path "dune.m4b")
  = files (System {[ "dune.cue"%string := "REM my notes"%string ]} [] ∅)
      !! side_cue_path (oga_path "dune.m4b").
Proof.
  apply (cue_without_file_line_is_overwritten dune_world "dune.m4b" _
           "Frank Herbert" "Dune" _ "REM my notes").
  - reflexivity.
  - right. simpl. eauto.
  - reflexivity.
  - reflexivity.
  - repeat constructor.
  - vm_compute. reflexivity.
Defined.

(** X23: a run that raises leaves both cue paths as they were: the
    cue file is opened for writing only after everything else. *)
Theorem failed_run_leaves_cue_files (w : world) (file_name : string)
    (s : system) (e : exn) :
  (process_file w file_name s).2 = inl e ->
  files (process_file w file_name s).1 !! canonical_cue_path (oga_path file_name)
  = files s !! canonical_cue_path (oga_path file_name) /\
  files (process_file w file_name s).1 !! side_cue_path (oga_path file_name)
  = files s !! side_cue_path (oga_path file_name).
Proof.
  destruct (process_file_cases w file_name s)
    as [(e' & _ & ->)
       |[(_ & _ & ->)|(_ & tr & marks & [(e' & ->)|(p & text & Hp & ->)])]];
    simpl; intros H; try discriminate; try (split; reflexivity).
  split; [apply assets_files_canonical|apply assets_files_side].
Qed.

Lemma failed_run_leaves_cue_files_witness :
  files (process_file
           (World (Some [("artist", "Frank Herbert")]%string)
              [probed_chapter "One" 0 5 "1/0"]%string (Some "OggS"%string) None)
           "dune.m4b" (System {[ "dune.cue"%string := "REM my notes"%string ]} [] ∅)).1
    !! canonical_cue_path (oga_path "dune.m4b")
  = files (System {[ "dune.cue"%string := "REM my notes"%string ]} [] ∅)
      !! canonical_cue_path (oga_path "dune.m4b") /\
  files (process_file
           (World (Some [("artist", "Frank Herbert")]%string)
              [probed_chapter "One" 0 5 "1/0"]%string (Some "OggS"%string) None)
           "dune.m4b" (System {[ "dune.cue"%string := "REM my notes"%string ]} [] ∅)).1
    !! side_cue_path (oga_path "dune.m4b")
  = files (System {[ "dune.cue"%string := "REM my notes"%string ]} [] ∅)
      !! side_cue_path (oga_path "dune.m4b").
Proof.
  apply (failed_run_leaves_cue_files _ _ _ ZeroDivisionError).
  vm_compute. reflexivity.
Defined.

(** X24: after a run that returns, the [.oga] file exists, the cover
    file holds the extracted picture when there is one, and the info
    file holds the description exactly as [extract_description] returned
    it. *)
Theorem side_assets_are_written (w : world) (file_name : string) (s : system) :
  (process_file w file_name s).2 = inr tt ->
  is_Some (files (process_file w file_name s).1 !! oga_path file_name) /\
  (forall picture, w_cover w = Some picture ->
     files (process_file w file_name s).1
       !! ((splitext file_name).1 +:+ "_cover.jpg") = Some picture) /\
  (forall description, extract_description (w_tags w) = Some description ->
     files (process_file w file_name s).1
       !! ((splitext file_name).1 +:+ "_info.txt") = Some description).
Proof.
  destruct (process_file_cases w file_name s)
    as [(e & _ & ->)
       |[(_ & _ & ->)|(Ho & tr & marks & [(e & ->)|(p & text & Hp & ->)])]];
    try discriminate.
  intros _. simpl.
  assert (H1 : p <> oga_path file_name).
  { destruct Hp as [-> | ->]; intros E; symmetry in E; revert E;
      [apply oga_ne_canonical|apply oga_ne_side]. }
  assert (H2 : p <> (splitext file_name).1 +:+ "_cover.jpg").
  { destruct Hp as [-> | ->]; intros E; symmetry in E; revert E;
      [apply cover_ne_canonical|apply cover_ne_side]. }
  assert (H3 : p <> (splitext file_name).1 +:+ "_info.txt").
  { destruct Hp as [-> | ->]; intros E; symmetry in E; revert E;
      [apply info_ne_canonical|apply info_ne_side]. }
  rewrite !lookup_insert_ne by assumption.
  split; [now apply assets_files_oga|]. split.
  - intros picture Hc. unfold assets_files.
    rewrite lookup_insert_opt_ne by apply info_ne_cover.
    rewrite Hc. apply lookup_insert_opt_eq.
  - intros d Hd. unfold assets_files. rewrite Hd. apply lookup_insert_opt_eq.
Qed.

Lemma side_assets_are_written_witness :
  is_Some (files (process_file
                    (World (Some [("artist", "Frank Herbert");
                                  ("comment", " A desert planet. ")]%string)
                       [] (Some "OggS"%string) (Some "jpeg"%string))
                    "dune.m4b" no_files).1 !! oga_path "dune.m4b") /\
  (forall picture, Some "jpeg"%string = Some picture ->
     files (process_file
              (World (Some [("artist", "Frank Herbert");
                            ("comment", " A desert planet. ")]%string)
                 [] (Some "OggS"%string) (Some "jpeg"%string))
              "dune.m4b" no_files).1
       !! ((splitext "dune.m4b").1 +:+ "_cover.jpg") = Some picture) /\
  (forall description,
     extract_description (Some [("artist", "Frank Herbert");
                                ("comment", " A desert planet. ")]%string)
     = Some description ->
     files (process_file
              (World (Some [("artist", "Frank Herbert");
                            ("comment", " A desert planet. ")]%string)
                 [] (Some "OggS"%string) (Some "jpeg"%string))
              "dune.m4b" no_files).1
       !! ((splitext "dune.m4b").1 +:+ "_info.txt") = Some description).
Proof.
  apply (side_assets_are_written
           (World (Some [("artist", "Frank Herbert");
                         ("comment", " A desert planet. ")]%string)
              [] (Some "OggS"%string) (Some "jpeg"%string))
           "dune.m4b" no_files).
  vm_compute. reflexivity.
Defined.

Lemma choose_cue_transcodes w oga s :
  transcodes (trace (choose_cue w oga s).1) = transcodes (trace s).
Proof.
  assert (Hr : transcodes (trace (replace_outcome w oga s).1)
               = transcodes (trace s)).
  { unfold replace_outcome. simpl. rewrite transcodes_app, transcodes_log. lia. }
  destruct (files s !! canonical_cue_path oga) as [content|] eqn:Hc.
  - rewrite (choose_cue_read _ _ _ _ Hc). cbv zeta.
    destruct (match undecodable s !! canonical_cue_path oga with
              | Some n => _ | None => _ end) as [e|[[|] contents]];
      [reflexivity|exact Hr|reflexivity].
  - now rewrite (choose_cue_absent _ _ _ Hc).
Qed.

(** X25: once [book_info] has returned, the transcoder is called
    exactly once when the [.oga] file is absent and not at all when it
    exists, however the run ends. *)
Theorem transcoder_calls (w : world) (file_name : string) (s : system)
    (performer title : string) :
  book_info (w_tags w) file_name = inr (performer, title) ->
  transcodes (trace (process_file w file_name s).1)
  = (transcodes (trace s)
     + if bool_decide (is_Some (files s !! oga_path file_name)) then 0 else 1)%nat.
Proof.
  intros Hb.
  destruct (decide (is_Some (files s !! oga_path file_name) \/ is_Some (w_audio w)))
    as [Ho|Hno].
  - rewrite process_file_run, (prepare_cue_run _ _ _ _ _ Hb Ho). cbv zeta.
    pose proof (choose_cue_transcodes w (oga_path file_name)
                  (System (assets_files w file_name (files s))
                     (trace s ++ assets_events w file_name (files s))
                     (assets_undecodable w file_name s))) as Ht.
    destruct (choose_cue _ _ _) as [s2 [e|[path contents]]]; simpl in *;
      rewrite Ht, transcodes_app; unfold assets_events;
      case_bool_decide; rewrite transcodes_app; reflexivity.
  - assert (Hp : files s !! oga_path file_name = None)
      by (apply eq_None_not_Some; intros H; apply Hno; now left).
    assert (Ha : w_audio w = None)
      by (apply eq_None_not_Some; intros H; apply Hno; now right).
    rewrite process_file_run. unfold prepare_cue.
    unfold mbind at 1, ST_bind, lift. rewrite Hb.
    unfold mbind at 1, ST_bind.
    rewrite (convert_and_extract_fails _ _ _ Hp Ha). simpl.
    rewrite transcodes_app, Hp.
    rewrite bool_decide_eq_false_2 by (intros [? ?]; discriminate). reflexivity.
Qed.

Lemma transcoder_calls_witness :
  transcodes (trace (process_file dune_world "dune.m4b" no_files).1)
  = (transcodes (trace no_files)
     + if bool_decide (is_Some (files no_files !! oga_path "dune.m4b"))
       then 0 else 1)%nat.
Proof.
  apply (transcoder_calls dune_world "dune.m4b" no_files "Frank Herbert" "Dune").
  reflexivity.
Defined.

(** X26: when every chapter of the list parses, the timing engine runs on
    the titles and durations of the chapters with, for each chapter, its
    reported denominator when that is at most 10000 and 1000 when it is
    larger; 48000 is treated as 1000. *)
Theorem time_bases_when_all_parse (cs : list chapter)
    (ds : list (string * timedelta * Z)) :
  Forall2 reports cs ds ->
  chapter_tracks cs =
    cue_loop 0 0
      ((fun d => (d.1.1, d.1.2, if bool_decide (d.2 <= 10000) then d.2 else 1000))
         <$> ds)
  /\ clamp_timebase 48000 = 1000.
Proof.
  intros H. split; [|reflexivity].
  unfold chapter_tracks. rewrite (chapter_loop_reports _ _ _ H). simpl.
  unfold cue_tracks. rewrite zip3_fmap. f_equal.
  apply list_fmap_ext. intros _ [[n d] den] _. simpl. f_equal.
  unfold clamp_timebase. case_bool_decide; destruct (Z.ltb_spec 10000 den); lia || reflexivity.
Qed.

Lemma time_bases_when_all_parse_witness :
  chapter_tracks
    [probed_chapter "One" 0 480000 "1/48000";
     probed_chapter "Two" 480000 960000 "1/48000"]%string
  = cue_loop 0 0 [("One", 480000000000, 1000); ("Two", 480000000000, 1000)]%string.
Proof.
  apply (time_bases_when_all_parse
           [probed_chapter "One" 0 480000 "1/48000";
            probed_chapter "Two" 480000 960000 "1/48000"]%string
           [("One", 480000000000, 48000); ("Two", 480000000000, 48000)]%string).
  repeat constructor; simpl; eexists _, _, _; repeat split; reflexivity.
Defined.
